(** * Peephole optimizer of [peephole_opt.py]: a shallow embedding

    The optimizer object, its handlers ([eval_*]), the cursor loop of
    [optimize_block] and the driver [_optimize] are embedded as functions
    on an explicit optimizer state.  Python exceptions are results of type
    [result]; the [while] loop of [disassemble], which handlers may rewind,
    is given fuel. *)

From Stdlib Require Import ZArith List String Bool Lia.
Import ListNotations.

Open Scope string_scope.
Open Scope list_scope.
Open Scope Z_scope.

(** ** Exceptions and results *)

(** The exception classes the optimizer can meet.  All of them derive from
    [Exception]; only [IndexError] is ever caught by name. *)
Inductive exn : Type :=
| IndexError
| TypeError
| ZeroDivisionError
| ValueError
| OverflowError
| AssertionError.

Inductive result (A : Type) : Type :=
| Return (a : A)
| Raise (e : exn).

Arguments Return {A} a.
Arguments Raise {A} e.

Definition bind {A B : Type} (m : result A) (k : A -> result B) : result B :=
  match m with
  | Return a => k a
  | Raise e => Raise e
  end.

Notation "x <- m ;; k" := (bind m (fun x => k))
  (at level 61, m at next level, right associativity).

(** ** Python lists: indexing and slices with signed indices *)

Module PyList.
Section Ops.
Context {A : Type}.

Definition len (l : list A) : Z := Z.of_nat (List.length l).

(** [l[i]]: a negative index counts from the end; out of range raises. *)
Definition norm_index (l : list A) (i : Z) : result nat :=
  let j := if i <? 0 then i + len l else i in
  if (j <? 0) || (len l <=? j) then Raise IndexError
  else Return (Z.to_nat j).

Definition getitem (l : list A) (i : Z) : result A :=
  j <- norm_index l i ;;
  match nth_error l j with
  | Some x => Return x
  | None => Raise IndexError
  end.

(** [l[i] = x] *)
Definition setitem (l : list A) (i : Z) (x : A) : result (list A) :=
  j <- norm_index l i ;;
  Return (firstn j l ++ x :: skipn (S j) l).

(** [del l[i]] *)
Definition delitem (l : list A) (i : Z) : result (list A) :=
  j <- norm_index l i ;;
  Return (firstn j l ++ skipn (S j) l).

(** A slice bound is clamped to [0 .. len], never an error. *)
Definition adjust (n i : Z) : Z :=
  if i <? 0 then Z.max 0 (i + n) else Z.min i n.

(** [l[start:stop] = r]; an upper bound below the lower one is raised
    to it, so that [r] is inserted at [start]. *)
Definition setslice (l : list A) (start stop : Z) (r : list A) : list A :=
  let lo := adjust (len l) start in
  let hi := Z.max lo (adjust (len l) stop) in
  firstn (Z.to_nat lo) l ++ r ++ skipn (Z.to_nat hi) l.

(** [del l[start:stop]] *)
Definition delslice (l : list A) (start stop : Z) : list A :=
  setslice l start stop [].

(** [l[start:]] *)
Definition slice_from (l : list A) (start : Z) : list A :=
  skipn (Z.to_nat (adjust (len l) start)) l.

(** [del l[start:]] *)
Definition delslice_from (l : list A) (start : Z) : list A :=
  firstn (Z.to_nat (adjust (len l) start)) l.
End Ops.
End PyList.

Import PyList.

(** ** The host language: constants and the operations applied to them *)

(** The values of the constants table and the functions of the [operator]
    module the handlers pass to [unaryop] and [binop].  They belong to the
    host interpreter, so the optimizer is embedded over any of them. *)
Class Host : Type := {
  value : Type;
  operator_pos : value -> result value;
  operator_neg : value -> result value;
  operator_invert : value -> result value;
  operator_add : value -> value -> result value;
  operator_sub : value -> value -> result value;
  operator_mul : value -> value -> result value;
  operator_truediv : value -> value -> result value;
  operator_floordiv : value -> value -> result value;
  operator_mod : value -> value -> result value;
  operator_pow : value -> value -> result value;
  operator_lshift : value -> value -> result value;
  operator_rshift : value -> value -> result value;
  operator_and_ : value -> value -> result value;
  operator_or_ : value -> value -> result value;
  operator_xor : value -> value -> result value;
  operator_getitem : value -> value -> result value;
  (** [len(v)]; [None] stands for the [TypeError] of an unsized value *)
  builtin_len : value -> option Z;
  builtin_tuple : list value -> result value;
  builtin_frozenset : list value -> result value
}.

(** ** Instructions, labels and the block-structured program *)

(** Modelled from the spec: the label of the external program model, "the
    instruction at block b, offset o". *)
Record Label : Type := { label_block : nat; label_offset : nat }.

(** Modelled from the spec: the optional argument of an instruction, an
    integer or a label. *)
Inductive argument : Type :=
| UNSET
| ArgInt (n : Z)
| ArgLabel (l : Label).

(** Modelled from the spec: the instruction of the external program model,
    an opcode name, an optional argument and a source line that rewrites
    carry through. *)
Record Instr : Type := { lineno : Z; name : string; arg : argument }.

Definition Block : Type := list Instr.

(** Modelled from the spec: [bytecode.Instr(lineno, name)], an instruction
    without argument. *)
Definition mkInstr (ln : Z) (nm : string) : Instr :=
  {| lineno := ln; name := nm; arg := UNSET |}.

(** Modelled from the spec: [instr.replace(name, arg)] builds a new
    instruction at the same source line. *)
Definition replace (i : Instr) (nm : string) (a : argument) : Instr :=
  {| lineno := lineno i; name := nm; arg := a |}.

(** Modelled from the spec: [instr.replace_arg(arg)] changes the argument
    only. *)
Definition replace_arg (i : Instr) (a : argument) : Instr :=
  {| lineno := lineno i; name := name i; arg := a |}.

Definition name_in (nm : string) (l : list string) : bool :=
  existsb (String.eqb nm) l.

(** Modelled from the spec: [Instr.is_jump] of the external program model;
    a jump is an instruction that carries a label. *)
Definition is_jump (i : Instr) : bool :=
  match arg i with ArgLabel _ => true | _ => false end.

(** Modelled from the spec: [Instr.is_cond_jump] of the external program
    model; the conditional jumps are the four below. *)
Definition is_cond_jump (i : Instr) : bool :=
  name_in (name i)
    ["POP_JUMP_IF_TRUE"; "POP_JUMP_IF_FALSE";
     "JUMP_IF_TRUE_OR_POP"; "JUMP_IF_FALSE_OR_POP"].

Definition argument_eqb (a b : argument) : bool :=
  match a, b with
  | UNSET, UNSET => true
  | ArgInt m, ArgInt n => m =? n
  | ArgLabel l, ArgLabel l' =>
      Nat.eqb (label_block l) (label_block l')
      && Nat.eqb (label_offset l) (label_offset l')
  | _, _ => false
  end.

(** An argument used as a number: comparing or negating anything else is
    a [TypeError]. *)
Definition as_int (a : argument) : result Z :=
  match a with ArgInt n => Return n | _ => Raise TypeError end.

(** [not instr.arg] is true of the integer 0 and of a missing argument;
    a label is true. *)
Definition truthy (a : argument) : bool :=
  match a with
  | UNSET => false
  | ArgInt n => negb (n =? 0)
  | ArgLabel _ => true
  end.

Definition PyCmp_IN : Z := 6.
Definition PyCmp_NOT_IN : Z := 7.
Definition PyCmp_IS : Z := 8.
Definition PyCmp_IS_NOT : Z := 9.

Definition JUMPS_ON_TRUE : list string :=
  ["POP_JUMP_IF_TRUE"; "JUMP_IF_TRUE_OR_POP"].

(** The dictionary [NOT_PyCmp]; [None] for a key that is absent. *)
Definition NOT_PyCmp (a : argument) : option Z :=
  match a with
  | ArgInt n =>
      if n =? PyCmp_IN then Some PyCmp_NOT_IN
      else if n =? PyCmp_NOT_IN then Some PyCmp_IN
      else if n =? PyCmp_IS then Some PyCmp_IS_NOT
      else if n =? PyCmp_IS_NOT then Some PyCmp_IS
      else None
  | _ => None
  end.

Definition MIMICK_C_IMPL : bool := false.

(** [opcode.opmap['RETURN_VALUE']] *)
Definition opmap_RETURN_VALUE : Z := 83.

(** ** The optimizer object *)

Section Optimizer.
Context {H : Host}.

(** Modelled from the spec: [bytecode.Code], the ordered blocks and the
    constants table shared by them. *)
Record Code : Type := { blocks : list Block; consts : list value }.

(** The attributes of [_CodePeepholeOptimizer].  [self.block] is the very
    list object stored in [self.code], so the attribute is kept as the
    position of that block and every update of the block is an update of
    the code. *)
Record Optimizer : Type := {
  code : Code;
  const_stack : list value;
  block_index : Z;
  block : nat;
  index : Z;
  in_consts : bool
}.

Definition self_block (self : Optimizer) : Block :=
  nth (block self) (blocks (code self)) [].

(** [self.block] names a block of [self.code]. *)
Definition block_bound (self : Optimizer) : Prop :=
  (block self < List.length (blocks (code self)))%nat.

Fixpoint list_update {A : Type} (l : list A) (n : nat) (x : A) : list A :=
  match l, n with
  | [], _ => []
  | _ :: t, O => x :: t
  | h :: t, S n' => h :: list_update t n' x
  end.

Definition set_self_block (self : Optimizer) (b : Block) : Optimizer :=
  {| code := {| blocks := list_update (blocks (code self)) (block self) b;
                consts := consts (code self) |};
     const_stack := const_stack self;
     block_index := block_index self;
     block := block self;
     index := index self;
     in_consts := in_consts self |}.

Definition set_consts (self : Optimizer) (c : list value) : Optimizer :=
  {| code := {| blocks := blocks (code self); consts := c |};
     const_stack := const_stack self;
     block_index := block_index self;
     block := block self;
     index := index self;
     in_consts := in_consts self |}.

Definition set_const_stack (self : Optimizer) (s : list value) : Optimizer :=
  {| code := code self;
     const_stack := s;
     block_index := block_index self;
     block := block self;
     index := index self;
     in_consts := in_consts self |}.

Definition set_index (self : Optimizer) (i : Z) : Optimizer :=
  {| code := code self;
     const_stack := const_stack self;
     block_index := block_index self;
     block := block self;
     index := i;
     in_consts := in_consts self |}.

Definition set_in_consts (self : Optimizer) (b : bool) : Optimizer :=
  {| code := code self;
     const_stack := const_stack self;
     block_index := block_index self;
     block := block self;
     index := index self;
     in_consts := b |}.

Definition set_block_index (self : Optimizer) (i : Z) : Optimizer :=
  {| code := code self;
     const_stack := const_stack self;
     block_index := i;
     block := block self;
     index := index self;
     in_consts := in_consts self |}.

Definition set_block (self : Optimizer) (b : nat) : Optimizer :=
  {| code := code self;
     const_stack := const_stack self;
     block_index := block_index self;
     block := b;
     index := index self;
     in_consts := in_consts self |}.

(** Modelled from the spec: [code[label]] of the external program model.
    A label resolves to the instructions from its offset on in its
    block. *)
Definition code_getitem (c : Code) (a : argument) : result Block :=
  match a with
  | ArgLabel l =>
      match nth_error (blocks c) (label_block l) with
      | Some b => Return (skipn (label_offset l) b)
      | None => Raise IndexError
      end
  | _ => Raise TypeError
  end.

(** Modelled from the spec: [code.create_label(label, n)] of the external
    program model; the new label points [n] instructions past the given
    one.  The method belongs to the program model and is given the
    program: only the label it returns is modelled here, so the
    properties of the blocks of the program are stated for programs on
    which it is not called. *)
Definition create_label (a : argument) (n : nat) : result argument :=
  match a with
  | ArgLabel l =>
      Return (ArgLabel {| label_block := label_block l;
                          label_offset := (label_offset l + n)%nat |})
  | _ => Raise TypeError
  end.

(** ** Handlers *)

Definition check_result (v : value) : bool :=
  match builtin_len v with
  | None => true
  | Some size => size <=? 20
  end.

Definition replace_load_const (nconst : Z) (instr : Instr) (res : value)
    (self : Optimizer) : Optimizer :=
  let const := len (consts (code self)) in
  let self := set_consts self (consts (code self) ++ [res]) in
  let self := set_in_consts self true in
  let load_const := replace instr "LOAD_CONST" (ArgInt const) in
  let start := index self - nconst - 1 in
  let self :=
    set_self_block self
      (setslice (self_block self) start (index self) [load_const]) in
  let self := set_index self (index self - nconst) in
  let self :=
    if nconst =? 0 then self
    else set_const_stack self (delslice_from (const_stack self) (- nconst)) in
  let self := set_const_stack self (const_stack self ++ [res]) in
  set_in_consts self true.

Definition eval_LOAD_CONST (instr : Instr) (self : Optimizer)
    : result Optimizer :=
  let self := set_in_consts self true in
  i <- as_int (arg instr) ;;
  v <- getitem (consts (code self)) i ;;
  let self := set_const_stack self (const_stack self ++ [v]) in
  Return (set_in_consts self true).

(** The [try] of [unaryop] covers the read of the stack and the call of
    [op]; its only clause is [except IndexError]. *)
Definition unaryop (op : value -> result value) (instr : Instr)
    (self : Optimizer) : result Optimizer :=
  match (v <- getitem (const_stack self) (-1) ;; op v) with
  | Raise IndexError => Return self
  | Raise e => Raise e
  | Return res =>
      if negb (check_result res) then Return self
      else Return (replace_load_const 1 instr res self)
  end.

Definition eval_UNARY_POSITIVE := unaryop operator_pos.
Definition eval_UNARY_NEGATIVE := unaryop operator_neg.
Definition eval_UNARY_INVERT := unaryop operator_invert.

Definition eval_UNARY_NOT (instr : Instr) (self : Optimizer)
    : result Optimizer :=
  next_instr <- getitem (self_block self) (index self) ;;
  if String.eqb (name next_instr) "POP_JUMP_IF_FALSE" then
    let instr := replace instr "POP_JUMP_IF_TRUE" (arg next_instr) in
    let self :=
      set_self_block self
        (setslice (self_block self) (index self - 1) (index self + 1)
           [instr]) in
    Return (set_index self (index self - 1))
  else Return self.

Definition eval_RETURN_VALUE (instr : Instr) (self : Optimizer)
    : result Optimizer :=
  let n := len (self_block self) - index self in
  if n <? 2 then Return self
  else
    instr3 <- getitem (self_block self) (index self + 1) ;;
    if String.eqb (name instr3) "RETURN_VALUE" then
      Return (set_self_block self
                (delslice (self_block self) (index self) (index self + 2)))
    else
      next_instr <- getitem (self_block self) (index self) ;;
      if name_in (name next_instr) ["JUMP_ABSOLUTE"; "JUMP_FORWARD"] then
        b <- delitem (self_block self) (index self) ;;
        Return (set_self_block self b)
      else Return self.

(** The first [try] of [binop] reads the two operands and catches
    [IndexError]; the second calls [op] and catches every [Exception]. *)
Definition binop (op : value -> value -> result value) (instr : Instr)
    (self : Optimizer) : result Optimizer :=
  match (l <- getitem (const_stack self) (-2) ;;
         r <- getitem (const_stack self) (-1) ;;
         Return (l, r)) with
  | Raise IndexError => Return self
  | Raise e => Raise e
  | Return (l, r) =>
      match op l r with
      | Raise _ => Return self
      | Return res =>
          if negb (check_result res) then Return self
          else Return (replace_load_const 2 instr res self)
      end
  end.

Definition eval_BINARY_ADD := binop operator_add.
Definition eval_BINARY_SUBTRACT := binop operator_sub.
Definition eval_BINARY_MULTIPLY := binop operator_mul.
Definition eval_BINARY_TRUE_DIVIDE := binop operator_truediv.
Definition eval_BINARY_FLOOR_DIVIDE := binop operator_floordiv.
Definition eval_BINARY_MODULO := binop operator_mod.
Definition eval_BINARY_POWER := binop operator_pow.
Definition eval_BINARY_LSHIFT := binop operator_lshift.
Definition eval_BINARY_RSHIFT := binop operator_rshift.
Definition eval_BINARY_AND := binop operator_and_.
Definition eval_BINARY_OR := binop operator_or_.
Definition eval_BINARY_XOR := binop operator_xor.
Definition eval_BINARY_SUBSCR := binop operator_getitem.

Definition replace_container_of_consts (instr : Instr)
    (container_type : list value -> result value) (self : Optimizer)
    : result Optimizer :=
  n <- as_int (arg instr) ;;
  let items := slice_from (const_stack self) (- n) in
  v <- container_type items ;;
  Return (replace_load_const n instr v self).

Definition build_tuple_unpack_seq (instr : Instr) (self : Optimizer)
    : result Optimizer :=
  n <- as_int (arg instr) ;;
  if negb ((1 <=? n) && (n <=? 3)) then Return self
  else
    next_instr <- getitem (self_block self) (index self) ;;
    if negb ((String.eqb (name next_instr) "UNPACK_SEQUENCE")
             && argument_eqb (arg next_instr) (arg instr))
    then Return self
    else if n =? 1 then
      Return (set_self_block self
                (delslice (self_block self) (index self - 1)
                   (index self + 1)))
    else if n =? 2 then
      let instr := mkInstr (lineno instr) "ROT_TWO" in
      let self :=
        set_self_block self
          (setslice (self_block self) (index self - 1) (index self + 1)
             [instr]) in
      let self := set_index self (index self - 1) in
      Return (set_const_stack self [])
    else if n =? 3 then
      let rot3 := mkInstr (lineno instr) "ROT_THREE" in
      let rot2 := mkInstr (lineno instr) "ROT_TWO" in
      let self :=
        set_self_block self
          (setslice (self_block self) (index self - 1) (index self + 1)
             [rot3; rot2]) in
      let self := set_index self (index self - 1) in
      Return (set_const_stack self [])
    else Return self.

(** [build_tuple] returns [True] after a fold and [None] otherwise. *)
Definition build_tuple (instr : Instr)
    (container_type : list value -> result value) (self : Optimizer)
    : result (Optimizer * bool) :=
  n <- as_int (arg instr) ;;
  if n >? len (const_stack self) then Return (self, false)
  else
    next_instr <- getitem (self_block self) (index self) ;;
    if negb (String.eqb (name next_instr) "COMPARE_OP") then Return (self, false)
    else if negb (argument_eqb (arg next_instr) (ArgInt PyCmp_IN)
                  || argument_eqb (arg next_instr) (ArgInt PyCmp_NOT_IN))
    then Return (self, false)
    else
      self <- replace_container_of_consts instr container_type self ;;
      Return (self, true).

Definition eval_BUILD_TUPLE (instr : Instr) (self : Optimizer)
    : result Optimizer :=
  if negb (truthy (arg instr)) then Return self
  else
    n <- as_int (arg instr) ;;
    if n <=? len (const_stack self) then
      replace_container_of_consts instr builtin_tuple self
    else build_tuple_unpack_seq instr self.

Definition eval_BUILD_LIST (instr : Instr) (self : Optimizer)
    : result Optimizer :=
  if negb (truthy (arg instr)) then Return self
  else
    r <- build_tuple instr builtin_tuple self ;;
    if negb (snd r) then build_tuple_unpack_seq instr (fst r)
    else Return (fst r).

Definition eval_BUILD_SET (instr : Instr) (self : Optimizer)
    : result Optimizer :=
  if negb (truthy (arg instr)) then Return self
  else
    r <- build_tuple instr builtin_frozenset self ;;
    Return (fst r).

Definition eval_COMPARE_OP (instr : Instr) (self : Optimizer)
    : result Optimizer :=
  match NOT_PyCmp (arg instr) with
  | None => Return self
  | Some new_arg =>
      match getitem (self_block self) (index self) with
      | Raise IndexError => Return self
      | Raise e => Raise e
      | Return next_instr =>
          if negb (String.eqb (name next_instr) "UNARY_NOT") then Return self
          else
            let instr := replace_arg instr (ArgInt new_arg) in
            Return (set_self_block self
                      (setslice (self_block self) (index self - 1)
                         (index self + 1) [instr]))
      end
  end.

Definition optimize_jump_to_cond_jump (instr : Instr) (self : Optimizer)
    : result Optimizer :=
  let jump_label := arg instr in
  if negb (is_jump instr) then Raise AssertionError
  else
    target <- code_getitem (code self) jump_label ;;
    target_instr <- getitem target 0 ;;
    if name_in (name instr) ["JUMP_FORWARD"; "JUMP_ABSOLUTE"]
       && (String.eqb (name target_instr) "RETURN_VALUE")
    then
      b <- setitem (self_block self) (index self - 1) target_instr ;;
      Return (set_self_block self b)
    else if name_in (name target_instr) ["JUMP_FORWARD"; "JUMP_ABSOLUTE"]
    then
      let jump_target2 := arg target_instr in
      let nm :=
        if String.eqb (name instr) "JUMP_FORWARD" then "JUMP_ABSOLUTE"
        else name instr in
      let instr := replace instr nm jump_target2 in
      b <- setitem (self_block self) (index self - 1) instr ;;
      Return (set_self_block self b)
    else Return self.

Definition jump_if_or_pop (instr : Instr) (self : Optimizer)
    : result Optimizer :=
  let label := arg instr in
  target <- code_getitem (code self) label ;;
  target_instr <- getitem target 0 ;;
  if negb (is_cond_jump target_instr) then
    optimize_jump_to_cond_jump instr self
  else if Bool.eqb (name_in (name target_instr) JUMPS_ON_TRUE)
                   (name_in (name instr) JUMPS_ON_TRUE)
  then
    let target2 := arg target_instr in
    let instr := replace instr (name target_instr) target2 in
    b <- setitem (self_block self) (index self - 1) instr ;;
    Return (set_index (set_self_block self b) (index self - 1))
  else
    let opname :=
      if name_in (name instr) JUMPS_ON_TRUE then "POP_JUMP_IF_TRUE"
      else "POP_JUMP_IF_FALSE" in
    new_label <- create_label label 1 ;;
    let instr := replace instr opname new_label in
    b <- setitem (self_block self) (index self - 1) instr ;;
    Return (set_index (set_self_block self b) (index self - 1)).

Definition eval_JUMP_IF_FALSE_OR_POP := jump_if_or_pop.
Definition eval_JUMP_IF_TRUE_OR_POP := jump_if_or_pop.

(** ** Dispatch and the cursor loop *)

Definition handler : Type := Instr -> Optimizer -> result Optimizer.

(** The methods [getattr(self, 'eval_%s' % instr.name, None)] can find. *)
Definition eval_methods : list (string * handler) :=
  [ ("LOAD_CONST", eval_LOAD_CONST);
    ("UNARY_POSITIVE", eval_UNARY_POSITIVE);
    ("UNARY_NEGATIVE", eval_UNARY_NEGATIVE);
    ("UNARY_INVERT", eval_UNARY_INVERT);
    ("UNARY_NOT", eval_UNARY_NOT);
    ("RETURN_VALUE", eval_RETURN_VALUE);
    ("BINARY_ADD", eval_BINARY_ADD);
    ("BINARY_SUBTRACT", eval_BINARY_SUBTRACT);
    ("BINARY_MULTIPLY", eval_BINARY_MULTIPLY);
    ("BINARY_TRUE_DIVIDE", eval_BINARY_TRUE_DIVIDE);
    ("BINARY_FLOOR_DIVIDE", eval_BINARY_FLOOR_DIVIDE);
    ("BINARY_MODULO", eval_BINARY_MODULO);
    ("BINARY_POWER", eval_BINARY_POWER);
    ("BINARY_LSHIFT", eval_BINARY_LSHIFT);
    ("BINARY_RSHIFT", eval_BINARY_RSHIFT);
    ("BINARY_AND", eval_BINARY_AND);
    ("BINARY_OR", eval_BINARY_OR);
    ("BINARY_XOR", eval_BINARY_XOR);
    ("BINARY_SUBSCR", eval_BINARY_SUBSCR);
    ("BUILD_TUPLE", eval_BUILD_TUPLE);
    ("BUILD_LIST", eval_BUILD_LIST);
    ("BUILD_SET", eval_BUILD_SET);
    ("COMPARE_OP", eval_COMPARE_OP);
    ("JUMP_IF_FALSE_OR_POP", eval_JUMP_IF_FALSE_OR_POP);
    ("JUMP_IF_TRUE_OR_POP", eval_JUMP_IF_TRUE_OR_POP) ].

Fixpoint lookup_method (nm : string) (l : list (string * handler))
    : option handler :=
  match l with
  | [] => None
  | (k, m) :: t => if String.eqb nm k then Some m else lookup_method nm t
  end.

Definition getattr_eval (nm : string) : option handler :=
  lookup_method nm eval_methods.

(** The opcodes whose handler is [binop], each with the operator it
    passes. *)
Definition binary_operators
    : list (string * (value -> value -> result value)) :=
  [ ("BINARY_ADD", operator_add);
    ("BINARY_SUBTRACT", operator_sub);
    ("BINARY_MULTIPLY", operator_mul);
    ("BINARY_TRUE_DIVIDE", operator_truediv);
    ("BINARY_FLOOR_DIVIDE", operator_floordiv);
    ("BINARY_MODULO", operator_mod);
    ("BINARY_POWER", operator_pow);
    ("BINARY_LSHIFT", operator_lshift);
    ("BINARY_RSHIFT", operator_rshift);
    ("BINARY_AND", operator_and_);
    ("BINARY_OR", operator_or_);
    ("BINARY_XOR", operator_xor);
    ("BINARY_SUBSCR", operator_getitem) ].

(** The opcodes whose handler is [unaryop]. *)
Definition unary_operators : list (string * (value -> result value)) :=
  [ ("UNARY_POSITIVE", operator_pos);
    ("UNARY_NEGATIVE", operator_neg);
    ("UNARY_INVERT", operator_invert) ].

(** The body of the [for] loop of [optimize_block], after the generator
    has handed out [instr]. *)
Definition visit (instr : Instr) (self : Optimizer) : result Optimizer :=
  let self :=
    if negb (in_consts self) then set_const_stack self [] else self in
  let self := set_in_consts self false in
  match getattr_eval (name instr) with
  | Some meth => meth instr self
  | None =>
      if is_jump instr then optimize_jump_to_cond_jump instr self
      else Return self
  end.

(** One turn of the [while] loop of [disassemble] together with the loop
    body it yields to. *)
Definition step (self : Optimizer) : result Optimizer :=
  instr <- getitem (self_block self) (index self) ;;
  visit instr (set_index self (index self + 1)).

(** [while self.index < len(block)]; [None] when the fuel runs out. *)
Fixpoint disassemble_loop (fuel : nat) (self : Optimizer)
    : option (result Optimizer) :=
  match fuel with
  | O => None
  | S fuel' =>
      if index self <? len (self_block self) then
        match step self with
        | Return self' => disassemble_loop fuel' self'
        | Raise e => Some (Raise e)
        end
      else Some (Return self)
  end.

Definition optimize_block (fuel : nat) (b : nat) (self : Optimizer)
    : option (result Optimizer) :=
  disassemble_loop fuel (set_index (set_block self b) 0).

(** The body of the [while] loop of [_optimize]. *)
Definition next_block (fuel : nat) (self : Optimizer)
    : option (result Optimizer) :=
  let b := Z.to_nat (block_index self) in
  optimize_block fuel b (set_block_index self (block_index self + 1)).

(** [while self.block_index < len(self.code)]: no handler adds or removes
    a block, so the loop is bounded by the number of blocks. *)
Fixpoint blocks_loop (n fuel : nat) (self : Optimizer)
    : option (result Optimizer) :=
  if block_index self <? len (blocks (code self)) then
    match n with
    | O => None
    | S n' =>
        match next_block fuel self with
        | Some (Return self') => blocks_loop n' fuel self'
        | other => other
        end
    end
  else Some (Return self).

(** The optimizer as [__init__] and the first lines of [_optimize] leave
    it; [self.block] and [self.index] are not yet set. *)
Definition init (c : Code) : Optimizer :=
  {| code := c;
     const_stack := [];
     block_index := 0;
     block := O;
     index := 0;
     in_consts := false |}.

Definition _optimize (fuel : nat) (c : Code) : option (result Optimizer) :=
  blocks_loop (List.length (blocks c)) fuel (init c).

(** ** The tracker's invariant *)

(** An integer argument is never negative. *)
Definition wf_instr (i : Instr) : Prop :=
  match arg i with ArgInt n => 0 <= n | _ => True end.

Definition is_push (i : Instr) : Prop := name i = "LOAD_CONST".

Definition block_ok (self : Optimizer) : Prop :=
  block_bound self /\ Forall (Forall wf_instr) (blocks (code self)).

(** The tracked constants are those of the pushes just before the
    cursor. *)
Definition tracked (self : Optimizer) : Prop :=
  exists pre pushes post : Block,
    self_block self = pre ++ pushes ++ post
    /\ index self = len pre + len pushes
    /\ len pushes = len (const_stack self)
    /\ Forall is_push pushes.

Definition tracker_inv (self : Optimizer) : Prop :=
  block_ok self /\ 0 <= index self /\ (in_consts self = true -> tracked self).

(** What a handler that never touches the flag leaves. *)
Definition quiet_post (s s' : Optimizer) : Prop :=
  block_ok s' /\ index s - 1 <= index s' /\ in_consts s' = in_consts s.

(** The optimizer inside the handler of [instr]: the flag is off, [instr]
    is the instruction before the cursor, and the pushes of the tracked
    constants are the instructions before it. *)
Definition entry (e : Optimizer) (instr : Instr) : Prop :=
  block_ok e /\ wf_instr instr /\ in_consts e = false
  /\ exists pre pushes post : Block,
       self_block e = pre ++ pushes ++ instr :: post
       /\ index e = len pre + len pushes + 1
       /\ len pushes = len (const_stack e)
       /\ Forall is_push pushes.

Definition block_len (self : Optimizer) : Z := len (self_block self).

(** The states the loop of [disassemble] goes through from [start]. *)
Inductive loop_reaches (start : Optimizer) : Optimizer -> Prop :=
| reaches_start : loop_reaches start start
| reaches_step (self self' : Optimizer) :
    loop_reaches start self ->
    index self < len (self_block self) ->
    step self = Return self' ->
    loop_reaches start self'.

(** ** The guard and the entry point *)

(** The code object of the host: what the guard reads of it and the
    constants the disassembler hands over. *)
Record code_object : Type := {
  co_code : list Z;
  co_lnotab : list Z;
  co_consts : list value
}.

(** [mimick] is the value of the module global [MIMICK_C_IMPL] at the time
    of the call. *)
Definition check_bypass_optim (mimick : bool) (code_obj : code_object)
    : result bool :=
  if negb mimick then Return false
  else if existsb (Z.eqb 255) (co_lnotab code_obj) then Return true
  else
    let code := co_code code_obj in
    let codelen := len code in
    if codelen >? 32700 then Return true
    else
      last_byte <- getitem code (codelen - 1) ;;
      if negb (last_byte =? opmap_RETURN_VALUE) then Return true
      else Return false.

Section EntryPoint.
(** [bytecode.Code.disassemble] and [Code.assemble] of the external
    program model. *)
Variable disassemble : code_object -> result Code.
Variable assemble : Code -> result code_object.

Definition optimize (mimick : bool) (fuel : nat) (code_obj : code_object)
    : option (result code_object) :=
  match check_bypass_optim mimick code_obj with
  | Raise e => Some (Raise e)
  | Return true => Some (Return code_obj)
  | Return false =>
      match disassemble code_obj with
      | Raise e => Some (Raise e)
      | Return c =>
          match _optimize fuel c with
          | None => None
          | Some (Raise e) => Some (Raise e)
          | Some (Return self) => Some (assemble (code self))
          end
      end
  end.

(** [CodePeepholeOptimizer.code_transformer] makes a fresh optimizer and
    runs it under the shipped value of the global. *)
Definition code_transformer (fuel : nat) (code_obj : code_object)
    : option (result code_object) :=
  optimize MIMICK_C_IMPL fuel code_obj.
End EntryPoint.

(** ** Looking at the end of a run *)

Definition result_map {A B : Type} (f : A -> B) (r : result A) : result B :=
  match r with
  | Return a => Return (f a)
  | Raise e => Raise e
  end.

Definition outcome_of {A : Type} (f : Optimizer -> A)
    (r : option (result Optimizer)) : option (result A) :=
  option_map (result_map f) r.

Definition and_then (r : option (result Optimizer))
    (k : Optimizer -> option (result Optimizer))
    : option (result Optimizer) :=
  match r with
  | Some (Return self) => k self
  | other => other
  end.

End Optimizer.

(** ** What the pass keeps, and what brings its loop to an end *)

Section PassDefs.
Context {H : Host}.

(** A push names an entry of the constants table [cs]. *)
Definition valid_push (cs : list value) (i : Instr) : Prop :=
  name i = "LOAD_CONST" -> exists n, arg i = ArgInt n /\ 0 <= n < len cs.

Definition code_valid (c : Code) : Prop :=
  Forall (Forall (valid_push (consts c))) (blocks c).

(** Every [LOAD_CONST] of the program of [s] names an entry of its
    constants table. *)
Definition pushes_valid (s : Optimizer) : Prop := code_valid (code s).

(** The push [i] loads the constant [v] of the table [cs]. *)
Definition loads (cs : list value) (i : Instr) (v : value) : Prop :=
  name i = "LOAD_CONST"
  /\ exists n, arg i = ArgInt n /\ 0 <= n /\ getitem cs n = Return v.

(** The tracked constants are the constants that the pushes just before
    the cursor load, in the order of the pushes. *)
Definition tracked_values (self : Optimizer) : Prop :=
  exists pre pushes post : Block,
    self_block self = pre ++ pushes ++ post
    /\ index self = len pre + len pushes
    /\ Forall2 (loads (consts (code self))) pushes (const_stack self).

Definition values_inv (self : Optimizer) : Prop :=
  in_consts self = true -> tracked_values self.

(** The same inside the handler of [instr]. *)
Definition entry_values (e : Optimizer) (instr : Instr) : Prop :=
  exists pre pushes post : Block,
    self_block e = pre ++ pushes ++ instr :: post
    /\ index e = len pre + len pushes + 1
    /\ Forall2 (loads (consts (code e))) pushes (const_stack e).

(** What a handler returns with: the flag as it found it, the push of a
    constant, or a fold of constants that are on the stack. *)
Definition handler_outcome (e : Optimizer) (instr : Instr) (s' : Optimizer)
    : Prop :=
  in_consts s' = in_consts e
  \/ (name instr = "LOAD_CONST" /\ eval_LOAD_CONST instr e = Return s')
  \/ exists (n : Z) (res : value),
       0 <= n <= len (const_stack e)
       /\ s' = replace_load_const n instr res e.

(** An instruction no handler is found for and that is no jump. *)
Definition inert (i : Instr) : Prop :=
  getattr_eval (name i) = None /\ is_jump i = false.

(** What a turn of the loop keeps: the number of blocks, the block it
    works on, the block counter, the entries of the constants table and
    every other block. *)
Definition same_frame (s s' : Optimizer) : Prop :=
  List.length (blocks (code s')) = List.length (blocks (code s))
  /\ block s' = block s
  /\ block_index s' = block_index s
  /\ (exists ext, consts (code s') = consts (code s) ++ ext)
  /\ (forall b, b <> block s ->
        nth_error (blocks (code s')) b = nth_error (blocks (code s)) b).

(** The opcodes whose handler calls [build_tuple], each with the
    container type it passes. *)
Definition membership_containers
    : list (string * (list value -> result value)) :=
  [ ("BUILD_LIST", builtin_tuple); ("BUILD_SET", builtin_frozenset) ].

(** The instruction is on one of the source lines [lines]; so is every
    instruction of the program. *)
Definition on_line (lines : list Z) (i : Instr) : Prop :=
  In (lineno i) lines.

Definition lines_within (lines : list Z) (c : Code) : Prop :=
  Forall (Forall (on_line lines)) (blocks c).

Definition lined (lines : list Z) (s : Optimizer) : Prop :=
  lines_within lines (code s).

(** The source lines of the instructions of a program. *)
Definition lines_of (c : Code) : list Z :=
  map lineno (List.concat (blocks c)).

(** The conditional jumps whose handler is [jump_if_or_pop]. *)
Definition is_or_pop (i : Instr) : bool :=
  name_in (name i) ["JUMP_IF_FALSE_OR_POP"; "JUMP_IF_TRUE_OR_POP"].

(** A program none of whose instructions is dispatched to
    [jump_if_or_pop], the one handler that calls [create_label]. *)
Definition plain (i : Instr) : Prop := is_or_pop i = false.

Definition plain_code (c : Code) : Prop := Forall (Forall plain) (blocks c).

Definition plain_prog (self : Optimizer) : Prop := plain_code (code self).

(** The opcodes whose handler can call [build_tuple_unpack_seq]. *)
Definition is_build (i : Instr) : bool :=
  name_in (name i) ["BUILD_TUPLE"; "BUILD_LIST"].

Definition builds (b : Block) : Z := len (filter is_build b).

(** The current block holds no jump handled by [jump_if_or_pop]. *)
Definition calm (s : Optimizer) : Prop :=
  Forall (fun i => is_or_pop i = false) (self_block s).

(** What is left to the loop: the instructions from the cursor on, and
    one more turn for each instruction that can put the cursor back on
    instructions it wrote. *)
Definition loop_measure (s : Optimizer) : Z :=
  len (self_block s) - index s + builds (self_block s).

Definition calm_post (e s' : Optimizer) : Prop :=
  calm s' /\ loop_measure s' <= loop_measure e.

End PassDefs.

(** ** A fragment of the host, for running the optimizer on programs *)

(** Integer and tuple constants are interpreted.  Floats (a true division,
    a power with a negative exponent) and frozensets are not: they are
    kept as [PyOpaque] terms naming the operation and its operands, an
    operation on such a term is again a term, and its length is not
    computed.  No statement below applies the fragment to them. *)
#[local] Set Warnings "-register-all".

Inductive pyval : Type :=
| PyInt (n : Z)
| PyTuple (items : list pyval)
| PyOpaque (op : string) (args : list pyval).

Definition is_opaque (v : pyval) : bool :=
  match v with PyOpaque _ _ => true | _ => false end.

(** [t * n] for a tuple [t] *)
Definition tuple_repeat (items : list pyval) (n : Z) : list pyval :=
  List.concat (repeat items (Z.to_nat n)).

Definition py_unary (op : string) (f : Z -> Z) (v : pyval) : result pyval :=
  match v with
  | PyInt n => Return (PyInt (f n))
  | PyTuple _ => Raise TypeError
  | PyOpaque _ _ => Return (PyOpaque op [v])
  end.

(** A binary operation that is defined on two integers only. *)
Definition py_int_binary (op : string) (f : Z -> Z -> result pyval)
    (l r : pyval) : result pyval :=
  if is_opaque l || is_opaque r then Return (PyOpaque op [l; r])
  else
    match l, r with
    | PyInt a, PyInt b => f a b
    | _, _ => Raise TypeError
    end.

Definition py_add (l r : pyval) : result pyval :=
  match l, r with
  | PyTuple s, PyTuple t => Return (PyTuple (s ++ t))
  | _, _ => py_int_binary "add" (fun a b => Return (PyInt (a + b))) l r
  end.

Definition py_mul (l r : pyval) : result pyval :=
  match l, r with
  | PyTuple s, PyInt n => Return (PyTuple (tuple_repeat s n))
  | PyInt n, PyTuple s => Return (PyTuple (tuple_repeat s n))
  | _, _ => py_int_binary "mul" (fun a b => Return (PyInt (a * b))) l r
  end.

Definition py_getitem (l r : pyval) : result pyval :=
  match l, r with
  | PyTuple s, PyInt i => getitem s i
  | _, _ => py_int_binary "getitem" (fun _ _ => Raise TypeError) l r
  end.

Definition py_truediv : pyval -> pyval -> result pyval :=
  py_int_binary "truediv"
    (fun a b =>
       if b =? 0 then Raise ZeroDivisionError
       else Return (PyOpaque "truediv" [PyInt a; PyInt b])).

Definition py_floordiv : pyval -> pyval -> result pyval :=
  py_int_binary "floordiv"
    (fun a b =>
       if b =? 0 then Raise ZeroDivisionError else Return (PyInt (a / b))).

Definition py_mod : pyval -> pyval -> result pyval :=
  py_int_binary "mod"
    (fun a b =>
       if b =? 0 then Raise ZeroDivisionError
       else Return (PyInt (a mod b))).

Definition py_pow : pyval -> pyval -> result pyval :=
  py_int_binary "pow"
    (fun a b =>
       if 0 <=? b then Return (PyInt (a ^ b))
       else if a =? 0 then Raise ZeroDivisionError
       else Return (PyOpaque "pow" [PyInt a; PyInt b])).

Definition py_shift (op : string) (f : Z -> Z -> Z)
    : pyval -> pyval -> result pyval :=
  py_int_binary op
    (fun a b => if b <? 0 then Raise ValueError else Return (PyInt (f a b))).

Definition py_len (v : pyval) : option Z :=
  match v with
  | PyTuple s => Some (len s)
  | _ => None
  end.

#[export] Instance PyFragment : Host := {|
  value := pyval;
  operator_pos := py_unary "pos" (fun n => n);
  operator_neg := py_unary "neg" Z.opp;
  operator_invert := py_unary "invert" Z.lnot;
  operator_add := py_add;
  operator_sub := py_int_binary "sub" (fun a b => Return (PyInt (a - b)));
  operator_mul := py_mul;
  operator_truediv := py_truediv;
  operator_floordiv := py_floordiv;
  operator_mod := py_mod;
  operator_pow := py_pow;
  operator_lshift := py_shift "lshift" Z.shiftl;
  operator_rshift := py_shift "rshift" Z.shiftr;
  operator_and_ := py_int_binary "and_" (fun a b => Return (PyInt (Z.land a b)));
  operator_or_ := py_int_binary "or_" (fun a b => Return (PyInt (Z.lor a b)));
  operator_xor := py_int_binary "xor" (fun a b => Return (PyInt (Z.lxor a b)));
  operator_getitem := py_getitem;
  builtin_len := py_len;
  builtin_tuple := fun items => Return (PyTuple items);
  builtin_frozenset := fun items => Return (PyOpaque "frozenset" items)
|}.

(** ** The evaluator, for comparing a program with its optimized form *)

(** Modelled from the spec: the host's evaluator ("run an interpreter over
    both, compare outputs").  Only the instructions of the programs
    compared below are given their stack effect; control falls from the
    end of a block into the next one. *)
Module Interp.

Definition truth (v : pyval) : bool :=
  match v with
  | PyInt n => negb (n =? 0)
  | PyTuple items => negb (len items =? 0)
  | PyOpaque _ _ => true
  end.

Record frame : Type := { pc_block : nat; pc_offset : nat; stack : list pyval }.

Definition goto (b o : nat) (s : list pyval) : frame :=
  {| pc_block := b; pc_offset := o; stack := s |}.

(** One instruction: the next frame, or the value returned. *)
Definition exec (c : Code) (fastlocals : list pyval) (f : frame)
    : result (frame + pyval) :=
  match nth_error (blocks c) (pc_block f) with
  | None => Raise IndexError
  | Some b =>
      match nth_error b (pc_offset f) with
      | None => Return (inl (goto (S (pc_block f)) 0 (stack f)))
      | Some i =>
          let next := goto (pc_block f) (S (pc_offset f)) in
          if String.eqb (name i) "LOAD_CONST" then
            n <- as_int (arg i) ;;
            v <- getitem (consts c) n ;;
            Return (inl (next (v :: stack f)))
          else if String.eqb (name i) "LOAD_FAST" then
            n <- as_int (arg i) ;;
            v <- getitem fastlocals n ;;
            Return (inl (next (v :: stack f)))
          else if String.eqb (name i) "BINARY_ADD" then
            match stack f with
            | r :: l :: s => v <- py_add l r ;; Return (inl (next (v :: s)))
            | _ => Raise IndexError
            end
          else if String.eqb (name i) "JUMP_IF_TRUE_OR_POP" then
            match stack f, arg i with
            | v :: s, ArgLabel t =>
                if truth v
                then Return (inl (goto (label_block t) (label_offset t)
                                    (stack f)))
                else Return (inl (next s))
            | _, _ => Raise IndexError
            end
          else if String.eqb (name i) "RETURN_VALUE" then
            match stack f with
            | v :: _ => Return (inr v)
            | [] => Raise IndexError
            end
          else Raise ValueError
      end
  end.

Fixpoint run_from (fuel : nat) (c : Code) (fastlocals : list pyval)
    (f : frame) : option (result pyval) :=
  match fuel with
  | O => None
  | S fuel' =>
      match exec c fastlocals f with
      | Raise e => Some (Raise e)
      | Return (inr v) => Some (Return v)
      | Return (inl f') => run_from fuel' c fastlocals f'
      end
  end.

Definition run (fuel : nat) (c : Code) (fastlocals : list pyval)
    : option (result pyval) :=
  run_from fuel c fastlocals (goto 0 0 []).

End Interp.

(** ** Programs the statements below are run on *)

Definition ins (nm : string) (a : argument) : Instr :=
  {| lineno := 1; name := nm; arg := a |}.

Definition block_label (b : nat) : argument :=
  ArgLabel {| label_block := b; label_offset := 0 |}.

(** [return 2 + 3] *)
Definition prog_add : Code :=
  {| blocks := [[ins "LOAD_CONST" (ArgInt 0); ins "LOAD_CONST" (ArgInt 1);
                 ins "BINARY_ADD" UNSET; ins "RETURN_VALUE" UNSET]];
     consts := [PyInt 2; PyInt 3] |}.

Definition nine_twos : pyval := PyTuple (repeat (PyInt 2) 9).

(** [return (x or (1,)) + (2, 2, 2, 2, 2, 2, 2, 2, 2)]: the jump target
    starts the third block. *)
Definition prog_or_add : Code :=
  {| blocks := [[ins "LOAD_FAST" (ArgInt 0);
                 ins "JUMP_IF_TRUE_OR_POP" (block_label 2)];
                [ins "LOAD_CONST" (ArgInt 0)];
                [ins "LOAD_CONST" (ArgInt 1); ins "BINARY_ADD" UNSET;
                 ins "RETURN_VALUE" UNSET]];
     consts := [PyTuple [PyInt 1]; nine_twos] |}.

(** [return -(1,)] *)
Definition prog_neg_tuple : Code :=
  {| blocks := [[ins "LOAD_CONST" (ArgInt 0); ins "UNARY_NEGATIVE" UNSET;
                 ins "RETURN_VALUE" UNSET]];
     consts := [PyTuple [PyInt 1]] |}.

(** [return c and not x]: [UNARY_NOT] ends the second block. *)
Definition prog_and_not : Code :=
  {| blocks := [[ins "LOAD_FAST" (ArgInt 0);
                 ins "JUMP_IF_FALSE_OR_POP" (block_label 2)];
                [ins "LOAD_FAST" (ArgInt 1); ins "UNARY_NOT" UNSET];
                [ins "RETURN_VALUE" UNSET]];
     consts := [] |}.

(** [if not 1: return 2] and [return 3] after it *)
Definition prog_not_const : Code :=
  {| blocks := [[ins "LOAD_CONST" (ArgInt 0); ins "UNARY_NOT" UNSET;
                 ins "POP_JUMP_IF_FALSE" (block_label 2)];
                [ins "LOAD_CONST" (ArgInt 1); ins "RETURN_VALUE" UNSET];
                [ins "LOAD_CONST" (ArgInt 2); ins "RETURN_VALUE" UNSET]];
     consts := [PyInt 1; PyInt 2; PyInt 3] |}.

(** [a, b = 1, 2] compiled without folding, then [return] of a name *)
Definition prog_pair : Code :=
  {| blocks := [[ins "LOAD_CONST" (ArgInt 0); ins "LOAD_CONST" (ArgInt 1);
                 ins "BUILD_TUPLE" (ArgInt 2);
                 ins "UNPACK_SEQUENCE" (ArgInt 2);
                 ins "STORE_FAST" (ArgInt 0); ins "STORE_FAST" (ArgInt 1);
                 ins "LOAD_FAST" (ArgInt 0); ins "RETURN_VALUE" UNSET]];
     consts := [PyInt 1; PyInt 2] |}.

(** [return 2 / 0] *)
Definition prog_div_zero : Code :=
  {| blocks := [[ins "LOAD_CONST" (ArgInt 0); ins "LOAD_CONST" (ArgInt 1);
                 ins "BINARY_TRUE_DIVIDE" UNSET; ins "RETURN_VALUE" UNSET]];
     consts := [PyInt 2; PyInt 0] |}.

(** [return x is y], the comparison ending its block *)
Definition prog_is : Code :=
  {| blocks := [[ins "LOAD_FAST" (ArgInt 0); ins "LOAD_FAST" (ArgInt 1);
                 ins "COMPARE_OP" (ArgInt PyCmp_IS)];
                [ins "RETURN_VALUE" UNSET]];
     consts := [] |}.

(** [a, b = b, a] and the return of a constant *)
Definition prog_swap : Code :=
  {| blocks := [[ins "LOAD_FAST" (ArgInt 1); ins "LOAD_FAST" (ArgInt 0);
                 ins "BUILD_TUPLE" (ArgInt 2);
                 ins "UNPACK_SEQUENCE" (ArgInt 2);
                 ins "STORE_FAST" (ArgInt 0); ins "STORE_FAST" (ArgInt 1);
                 ins "LOAD_CONST" (ArgInt 0); ins "RETURN_VALUE" UNSET]];
     consts := [PyInt 0] |}.

(** A return followed by the push and return the compiler appends. *)
Definition prog_dead_return : Code :=
  {| blocks := [[ins "LOAD_FAST" (ArgInt 0); ins "RETURN_VALUE" UNSET;
                 ins "LOAD_CONST" (ArgInt 0); ins "RETURN_VALUE" UNSET]];
     consts := [PyInt 0] |}.

(** A return immediately followed by a return, and two more
    instructions. *)
Definition prog_return_return : Code :=
  {| blocks := [[ins "LOAD_FAST" (ArgInt 0); ins "RETURN_VALUE" UNSET;
                 ins "RETURN_VALUE" UNSET; ins "POP_TOP" UNSET;
                 ins "POP_TOP" UNSET]];
     consts := [] |}.

(** A return followed by an unconditional jump that ends the block. *)
Definition prog_return_jump : Code :=
  {| blocks := [[ins "LOAD_FAST" (ArgInt 0); ins "RETURN_VALUE" UNSET;
                 ins "JUMP_ABSOLUTE" (block_label 1)];
                [ins "LOAD_FAST" (ArgInt 0); ins "POP_TOP" UNSET;
                 ins "JUMP_ABSOLUTE" (block_label 1)]];
     consts := [] |}.

(** [x = 2 + 3] on line 2 and [return x] on line 303: the gap of 301
    lines puts 255 in the line-number table. *)
Definition gap_code : code_object :=
  {| co_code := [100; 0; 0; 100; 1; 0; 23; 125; 0; 0; 124; 0; 0; 83];
     co_lnotab := [0; 1; 10; 255; 0; 46];
     co_consts := [PyInt 2; PyInt 3] |}.

Definition at_line (ln : Z) (nm : string) (a : argument) : Instr :=
  {| lineno := ln; name := nm; arg := a |}.

Definition prog_gap : Code :=
  {| blocks := [[at_line 2 "LOAD_CONST" (ArgInt 0);
                 at_line 2 "LOAD_CONST" (ArgInt 1);
                 at_line 2 "BINARY_ADD" UNSET;
                 at_line 2 "STORE_FAST" (ArgInt 0);
                 at_line 303 "LOAD_FAST" (ArgInt 0);
                 at_line 303 "RETURN_VALUE" UNSET]];
     consts := [PyInt 2; PyInt 3] |}.

Definition prog_gap_folded : Code :=
  {| blocks := [[at_line 2 "LOAD_CONST" (ArgInt 2);
                 at_line 2 "STORE_FAST" (ArgInt 0);
                 at_line 303 "LOAD_FAST" (ArgInt 0);
                 at_line 303 "RETURN_VALUE" UNSET]];
     consts := [PyInt 2; PyInt 3; PyInt 5] |}.

(** What [_optimize] makes of [prog_or_add]. *)
Definition prog_or_add_optimized : Code :=
  {| blocks := [[ins "LOAD_FAST" (ArgInt 0);
                 ins "JUMP_IF_TRUE_OR_POP" (block_label 2)];
                [ins "LOAD_CONST" (ArgInt 0)];
                [ins "LOAD_CONST" (ArgInt 1); ins "BINARY_ADD" UNSET;
                 ins "LOAD_CONST" (ArgInt 2); ins "LOAD_CONST" (ArgInt 3);
                 ins "RETURN_VALUE" UNSET]];
     consts := [PyTuple [PyInt 1]; nine_twos;
                PyTuple (PyInt 1 :: repeat (PyInt 2) 9);
                PyTuple (PyInt 1 :: repeat (PyInt 2) 18)] |}.

(** The optimizer inside a handler called for the instruction before
    position [i] of block [b], with [stk] tracked. *)
Definition entered (c : Code) (b : nat) (i : Z) (stk : list pyval)
    : Optimizer :=
  {| code := c;
     const_stack := stk;
     block_index := Z.of_nat b + 1;
     block := b;
     index := i;
     in_consts := false |}.

(** The optimizer when [optimize_block] is called for the third block of
    [prog_or_add], before its first instruction is read. *)
Definition third_block_start : Optimizer :=
  {| code := prog_or_add;
     const_stack := [PyTuple [PyInt 1]];
     block_index := 3;
     block := 2%nat;
     index := 0;
     in_consts := true |}.

(** The optimizer when the loop over the block of [prog_add] has gone
    through the two pushes. *)
Definition add_reached : Optimizer :=
  {| code := prog_add;
     const_stack := [PyInt 2; PyInt 3];
     block_index := 1;
     block := 0%nat;
     index := 2;
     in_consts := true |}.

(** The optimizer when the loop over the second block of [prog_or_add]
    ends. *)
Definition second_block_end : Optimizer :=
  {| code := prog_or_add;
     const_stack := [PyTuple [PyInt 1]];
     block_index := 2;
     block := 1%nat;
     index := 1;
     in_consts := true |}.

Definition count_instrs (c : Code) : Z := len (List.concat (blocks c)).

(** [return (x or 1) + 2] *)
Definition prog_or_int : Code :=
  {| blocks := [[ins "LOAD_FAST" (ArgInt 0);
                 ins "JUMP_IF_TRUE_OR_POP" (block_label 2)];
                [ins "LOAD_CONST" (ArgInt 0)];
                [ins "LOAD_CONST" (ArgInt 1); ins "BINARY_ADD" UNSET;
                 ins "RETURN_VALUE" UNSET]];
     consts := [PyInt 1; PyInt 2] |}.

(** The pushes and the constants that [k] folds add to the third block
    of [prog_or_int] and to its constants table. *)
Definition folded_pushes (k : nat) : Block :=
  map (fun i => ins "LOAD_CONST" (ArgInt (Z.of_nat i + 2))) (seq 0 k).

Definition folded_consts (k : nat) : list pyval :=
  map (fun i => PyInt (2 * Z.of_nat i + 3)) (seq 0 k).

Definition rewinding_code (k : nat) : Code :=
  {| blocks := [[ins "LOAD_FAST" (ArgInt 0);
                 ins "JUMP_IF_TRUE_OR_POP" (block_label 2)];
                [ins "LOAD_CONST" (ArgInt 0)];
                [ins "LOAD_CONST" (ArgInt 1); ins "BINARY_ADD" UNSET]
                  ++ folded_pushes k ++ [ins "RETURN_VALUE" UNSET]];
     consts := [PyInt 1; PyInt 2] ++ folded_consts k |}.

(** The optimizer each time the loop over the third block of
    [prog_or_int] is back at the start of the block, after [k] folds. *)
Definition back_at_start (k : nat) : Optimizer :=
  {| code := rewinding_code k;
     const_stack := [PyInt (2 * Z.of_nat k + 1)];
     block_index := 3;
     block := 2%nat;
     index := 0;
     in_consts := true |}.

(** The same after the push of the third block has been read again. *)
Definition after_push (k : nat) : Optimizer :=
  {| code := rewinding_code k;
     const_stack := [PyInt (2 * Z.of_nat k + 1); PyInt 2];
     block_index := 3;
     block := 2%nat;
     index := 1;
     in_consts := true |}.

Definition consts_of (self : Optimizer) : list pyval := consts (code self).

(** ** Programs and optimizer states for the properties of the pass *)

(** [prog_add] when the pass is over. *)
Definition prog_add_done : Optimizer :=
  {| code := {| blocks := [[ins "LOAD_CONST" (ArgInt 2);
                            ins "RETURN_VALUE" UNSET]];
                consts := [PyInt 2; PyInt 3; PyInt 5] |};
     const_stack := [PyInt 5];
     block_index := 1;
     block := 0%nat;
     index := 2;
     in_consts := false |}.

(** [return -2] *)
Definition prog_neg : Code :=
  {| blocks := [[ins "LOAD_CONST" (ArgInt 0); ins "UNARY_NEGATIVE" UNSET;
                 ins "RETURN_VALUE" UNSET]];
     consts := [PyInt 2] |}.

(** The optimizer when the loop over the block of [prog_neg] has gone
    through the push. *)
Definition neg_reached : Optimizer :=
  {| code := prog_neg;
     const_stack := [PyInt 2];
     block_index := 1;
     block := 0%nat;
     index := 1;
     in_consts := true |}.

(** The optimizer when the loop over the block of [prog_pair] has gone
    through the two pushes. *)
Definition pair_reached : Optimizer :=
  {| code := prog_pair;
     const_stack := [PyInt 1; PyInt 2];
     block_index := 1;
     block := 0%nat;
     index := 2;
     in_consts := true |}.

(** [return x in [1, 2]] *)
Definition prog_in_list : Code :=
  {| blocks := [[ins "LOAD_FAST" (ArgInt 0); ins "LOAD_CONST" (ArgInt 0);
                 ins "LOAD_CONST" (ArgInt 1); ins "BUILD_LIST" (ArgInt 2);
                 ins "COMPARE_OP" (ArgInt PyCmp_IN);
                 ins "RETURN_VALUE" UNSET]];
     consts := [PyInt 1; PyInt 2] |}.

(** The optimizer when the loop over the block of [prog_in_list] has gone
    through the two pushes. *)
Definition in_list_reached : Optimizer :=
  {| code := prog_in_list;
     const_stack := [PyInt 1; PyInt 2];
     block_index := 1;
     block := 0%nat;
     index := 3;
     in_consts := true |}.

(** [x.f(y)] and a store: no instruction the pass has a handler for. *)
Definition prog_inert : Code :=
  {| blocks := [[ins "LOAD_FAST" (ArgInt 0); ins "LOAD_ATTR" (ArgInt 0);
                 ins "LOAD_FAST" (ArgInt 1);
                 ins "CALL_FUNCTION" (ArgInt 1)];
                [ins "STORE_FAST" (ArgInt 2); ins "POP_TOP" UNSET]];
     consts := [PyInt 0] |}.

(** [return not (x is y)] *)
Definition prog_not_is : Code :=
  {| blocks := [[ins "LOAD_FAST" (ArgInt 0); ins "LOAD_FAST" (ArgInt 1);
                 ins "COMPARE_OP" (ArgInt PyCmp_IS); ins "UNARY_NOT" UNSET;
                 ins "RETURN_VALUE" UNSET]];
     consts := [] |}.

(** [return (a and b) and c]: the first jump targets the second. *)
Definition prog_and_chain : Code :=
  {| blocks := [[ins "LOAD_FAST" (ArgInt 0);
                 ins "JUMP_IF_FALSE_OR_POP" (block_label 2)];
                [ins "LOAD_FAST" (ArgInt 1)];
                [ins "JUMP_IF_FALSE_OR_POP" (block_label 4)];
                [ins "LOAD_FAST" (ArgInt 2)];
                [ins "RETURN_VALUE" UNSET]];
     consts := [] |}.

(** A jump to the return that ends the program, on another line. *)
Definition prog_jump_return : Code :=
  {| blocks := [[at_line 1 "LOAD_FAST" (ArgInt 0);
                 at_line 1 "JUMP_FORWARD" (block_label 1)];
                [at_line 2 "RETURN_VALUE" UNSET]];
     consts := [] |}.

(** [prog_gap] when the pass is over. *)
Definition prog_gap_done : Optimizer :=
  {| code := prog_gap_folded;
     const_stack := [];
     block_index := 1;
     block := 0%nat;
     index := 4;
     in_consts := false |}.

(** [a, b = [1, 2]] and the return of a name *)
Definition prog_list_pair : Code :=
  {| blocks := [[ins "LOAD_CONST" (ArgInt 0); ins "LOAD_CONST" (ArgInt 1);
                 ins "BUILD_LIST" (ArgInt 2);
                 ins "UNPACK_SEQUENCE" (ArgInt 2);
                 ins "STORE_FAST" (ArgInt 0); ins "STORE_FAST" (ArgInt 1);
                 ins "LOAD_FAST" (ArgInt 0); ins "RETURN_VALUE" UNSET]];
     consts := [PyInt 1; PyInt 2] |}.

(** The optimizer in the loop over the third block of [prog_or_add], on
    its [BINARY_ADD]: the constant of the second block and the constant of
    the push before the cursor are tracked. *)
Definition third_block_pushed : Optimizer :=
  {| code := prog_or_add;
     const_stack := [PyTuple [PyInt 1]; nine_twos];
     block_index := 3;
     block := 2%nat;
     index := 1;
     in_consts := true |}.

(** [prog_jump_return] when [optimize_block] returns for its first
    block. *)
Definition jump_return_first_done : Optimizer :=
  {| code := {| blocks := [[at_line 1 "LOAD_FAST" (ArgInt 0);
                            at_line 2 "RETURN_VALUE" UNSET];
                           [at_line 2 "RETURN_VALUE" UNSET]];
                consts := [] |};
     const_stack := [];
     block_index := 1;
     block := 0%nat;
     index := 2;
     in_consts := false |}.

(** [prog_not_const] when the pass is over. *)
Definition prog_not_const_done : Optimizer :=
  {| code := {| blocks := [[ins "LOAD_CONST" (ArgInt 0);
                            ins "POP_JUMP_IF_TRUE" (block_label 2)];
                           [ins "LOAD_CONST" (ArgInt 1);
                            ins "RETURN_VALUE" UNSET];
                           [ins "LOAD_CONST" (ArgInt 2);
                            ins "RETURN_VALUE" UNSET]];
                consts := [PyInt 1; PyInt 2; PyInt 3] |};
     const_stack := [PyInt 3];
     block_index := 3;
     block := 2%nat;
     index := 2;
     in_consts := false |}.

(** * Properties *)

(** Statements about a run on a given program are settled by running it. *)
Ltac by_running :=
  repeat match goal with |- _ /\ _ => split end; reflexivity.

(** ** Lists under Python indexing *)

Section ListFacts.
Context {A : Type}.
Implicit Types l pre mid post r : list A.

Lemma len_app l l' : len (l ++ l') = len l + len l'.
Proof. unfold len. rewrite length_app. lia. Qed.

Lemma len_nonneg l : 0 <= len l.
Proof. unfold len. lia. Qed.

Lemma len_cons (x : A) l : len (x :: l) = 1 + len l.
Proof. unfold len. cbn [List.length]. lia. Qed.

Lemma to_nat_len l : Z.to_nat (len l) = List.length l.
Proof. unfold len. lia. Qed.

Lemma getitem_middle pre (x : A) post :
  getitem (pre ++ x :: post) (len pre) = Return x.
Proof.
  unfold getitem, norm_index.
  pose proof (len_nonneg pre) as Hpre. pose proof (len_nonneg post) as Hpost.
  rewrite len_app, len_cons.
  destruct (Z.ltb_spec (len pre) 0); [lia|].
  destruct (Z.ltb_spec (len pre) 0); [lia|].
  destruct (Z.leb_spec (len pre + (1 + len post)) (len pre)); [lia|].
  cbn [orb bind]. rewrite to_nat_len, nth_error_app2 by lia.
  rewrite Nat.sub_diag. reflexivity.
Qed.

(** An index counted from the end. *)
Lemma getitem_from_end pre (x : A) post :
  getitem (pre ++ x :: post) (- (1 + len post)) = Return x.
Proof.
  unfold getitem, norm_index.
  pose proof (len_nonneg pre) as Hpre. pose proof (len_nonneg post) as Hpost.
  rewrite len_app, len_cons.
  destruct (Z.ltb_spec (- (1 + len post)) 0); [|lia].
  replace (- (1 + len post) + (len pre + (1 + len post))) with (len pre) by lia.
  destruct (Z.ltb_spec (len pre) 0); [lia|].
  destruct (Z.leb_spec (len pre + (1 + len post)) (len pre)); [lia|].
  cbn [orb bind]. rewrite to_nat_len, nth_error_app2 by lia.
  rewrite Nat.sub_diag. reflexivity.
Qed.

Lemma adjust_in_range (n i : Z) : 0 <= i <= n -> adjust n i = i.
Proof. intro Hi. unfold adjust. destruct (Z.ltb_spec i 0); lia. Qed.

Lemma setslice_middle pre mid post r :
  setslice (pre ++ mid ++ post) (len pre) (len pre + len mid) r
  = pre ++ r ++ post.
Proof.
  unfold setslice.
  pose proof (len_nonneg pre). pose proof (len_nonneg mid).
  pose proof (len_nonneg post).
  rewrite !len_app, !adjust_in_range by lia.
  rewrite Z.max_r by lia.
  rewrite to_nat_len, firstn_app, firstn_all, Nat.sub_diag, firstn_O, app_nil_r.
  replace (Z.to_nat (len pre + len mid))
    with (List.length pre + List.length mid)%nat by (unfold len; lia).
  do 2 f_equal.
  rewrite skipn_app, skipn_all2 by lia.
  replace (List.length pre + List.length mid - List.length pre)%nat
    with (List.length mid) by lia.
  rewrite skipn_app, skipn_all, Nat.sub_diag. reflexivity.
Qed.

Lemma delitem_middle pre (x : A) post :
  delitem (pre ++ x :: post) (len pre) = Return (pre ++ post).
Proof.
  unfold delitem, norm_index.
  pose proof (len_nonneg pre) as Hpre. pose proof (len_nonneg post) as Hpost.
  rewrite len_app, len_cons.
  destruct (Z.ltb_spec (len pre) 0); [lia|].
  destruct (Z.ltb_spec (len pre) 0); [lia|].
  destruct (Z.leb_spec (len pre + (1 + len post)) (len pre)); [lia|].
  cbn [orb bind]. rewrite to_nat_len.
  rewrite firstn_app, firstn_all, Nat.sub_diag, firstn_O, app_nil_r.
  replace (S (List.length pre)) with (List.length pre + 1)%nat by lia.
  rewrite skipn_app, skipn_all2 by lia.
  replace (List.length pre + 1 - List.length pre)%nat with 1%nat by lia.
  reflexivity.
Qed.

(** What is left of a list without its last [len tl] items. *)
Lemma delslice_from_tail l tl :
  0 < len tl -> delslice_from (l ++ tl) (- len tl) = l.
Proof.
  intro Htl. unfold delslice_from, adjust. pose proof (len_nonneg l).
  rewrite len_app. destruct (Z.ltb_spec (- len tl) 0); [|lia].
  rewrite Z.max_r by lia.
  replace (- len tl + (len l + len tl)) with (len l) by lia.
  rewrite to_nat_len, firstn_app, firstn_all, Nat.sub_diag, firstn_O.
  apply app_nil_r.
Qed.

Lemma list_update_length l (n : nat) (x : A) :
  List.length (list_update l n x) = List.length l.
Proof.
  revert n. induction l as [|h t IH]; intros [|n]; cbn; auto.
Qed.

Lemma nth_list_update l (n : nat) (x d : A) :
  (n < List.length l)%nat -> nth n (list_update l n x) d = x.
Proof.
  revert n. induction l as [|h t IH]; intros [|n] Hn; cbn in *;
    try lia; auto. apply IH. lia.
Qed.

End ListFacts.

Section ForallFacts.
Context {A : Type} (P : A -> Prop).

Lemma Forall_firstn (n : nat) (l : list A) :
  Forall P l -> Forall P (firstn n l).
Proof.
  intro Hl. rewrite <- (firstn_skipn n l) in Hl.
  apply Forall_app in Hl. tauto.
Qed.

Lemma Forall_skipn (n : nat) (l : list A) :
  Forall P l -> Forall P (skipn n l).
Proof.
  intro Hl. rewrite <- (firstn_skipn n l) in Hl.
  apply Forall_app in Hl. tauto.
Qed.

Lemma Forall_setslice (l : list A) (a b : Z) (r : list A) :
  Forall P l -> Forall P r -> Forall P (setslice l a b r).
Proof.
  intros Hl Hr. unfold setslice.
  repeat (apply Forall_app; split);
    auto using Forall_firstn, Forall_skipn.
Qed.

Lemma Forall_setitem (l : list A) (i : Z) (x : A) (l' : list A) :
  setitem l i x = Return l' -> Forall P l -> P x -> Forall P l'.
Proof.
  unfold setitem. destruct (norm_index l i) as [n|]; cbn [bind]; [|discriminate].
  rename n into j. intros [= <-] Hl Hx. apply Forall_app. split.
  - apply Forall_firstn; assumption.
  - constructor; [assumption|exact (Forall_skipn (S j) l Hl)].
Qed.

Lemma Forall_delitem (l : list A) (i : Z) (l' : list A) :
  delitem l i = Return l' -> Forall P l -> Forall P l'.
Proof.
  unfold delitem. destruct (norm_index l i) as [n|]; cbn [bind]; [|discriminate].
  rename n into j. intros [= <-] Hl. apply Forall_app.
  split; [apply Forall_firstn; assumption|exact (Forall_skipn (S j) l Hl)].
Qed.

Lemma Forall_list_update (l : list A) (n : nat) (x : A) :
  Forall P l -> P x -> Forall P (list_update l n x).
Proof.
  intros Hl Hx. revert n.
  induction Hl as [|h t Hh Ht IH]; intros [|n]; cbn; auto.
Qed.

Lemma getitem_In (l : list A) (i : Z) (x : A) :
  getitem l i = Return x -> In x l.
Proof.
  unfold getitem. destruct (norm_index l i) as [j|]; cbn [bind];
    [|discriminate].
  destruct (nth_error l j) eqn:Hn; [|discriminate].
  intros [= <-]. eapply nth_error_In, Hn.
Qed.

(** A successful read at a non-negative index splits the list there. *)
Lemma getitem_split (l : list A) (i : Z) (x : A) :
  0 <= i -> getitem l i = Return x ->
  exists pre post, l = pre ++ x :: post /\ len pre = i.
Proof.
  intros Hi. unfold getitem, norm_index.
  destruct (Z.ltb_spec i 0); [lia|].
  destruct ((i <? 0) || (len l <=? i)) eqn:Hr; cbn [bind]; [discriminate|].
  destruct (nth_error l (Z.to_nat i)) eqn:Hn; [|discriminate].
  intros [= <-]. apply nth_error_split in Hn as (pre & post & -> & Hlen).
  exists pre, post. split; [reflexivity|]. unfold len. lia.
Qed.

End ForallFacts.

Section AppFacts.
Context {A : Type}.

Lemma app_eq_len (l1 r1 l2 r2 : list A) :
  l1 ++ r1 = l2 ++ r2 -> len l1 = len l2 -> l1 = l2 /\ r1 = r2.
Proof.
  revert l2. induction l1 as [|a l1 IH]; intros [|b l2] Heq Hlen;
    rewrite ?len_cons in Hlen.
  - auto.
  - pose proof (len_nonneg l2). change (len (@nil A)) with 0 in Hlen. lia.
  - pose proof (len_nonneg l1). change (len (@nil A)) with 0 in Hlen. lia.
  - cbn [app] in Heq. injection Heq as <- Heq.
    destruct (IH l2 Heq) as [<- <-]; [lia|auto].
Qed.

(** The last [n] items of a list, split off. *)
Lemma split_tail (l : list A) (n : Z) :
  0 <= n <= len l ->
  exists a b, l = a ++ b /\ len b = n /\ len a = len l - n.
Proof.
  intro Hn. set (k := Z.to_nat (len l - n)).
  exists (firstn k l), (skipn k l).
  split; [symmetry; apply firstn_skipn|].
  unfold len in *. rewrite length_skipn, length_firstn. lia.
Qed.

End AppFacts.

(** ** The handlers on a block split around the cursor *)

Section HandlerFacts.
Context {H : Host}.

Lemma self_block_set_self_block (self : Optimizer) (b : Block) :
  block_bound self -> self_block (set_self_block self b) = b.
Proof.
  intro Hb. unfold self_block, set_self_block. cbn.
  apply nth_list_update, Hb.
Qed.

Lemma self_block_set_index (self : Optimizer) (i : Z) :
  self_block (set_index self i) = self_block self.
Proof. reflexivity. Qed.

Lemma self_block_set_const_stack (self : Optimizer) (s : list value) :
  self_block (set_const_stack self s) = self_block self.
Proof. reflexivity. Qed.

Lemma getattr_binary nm op :
  In (nm, op) binary_operators -> getattr_eval nm = Some (binop op).
Proof.
  unfold binary_operators. intro Hin.
  repeat (destruct Hin as [Hin|Hin];
          [injection Hin as <- <-; reflexivity|]).
  destruct Hin.
Qed.

(** What [replace_load_const] leaves when the [nconst] consumed
    instructions and the current one are the [mid] just before the
    cursor, and [tl] are the [nconst] values on top of the stack. *)
Lemma replace_load_const_spec nconst instr res self pre mid post stk tl :
  block_bound self ->
  self_block self = pre ++ mid ++ post ->
  index self = len pre + len mid ->
  len mid = nconst + 1 ->
  const_stack self = stk ++ tl ->
  len tl = nconst ->
  let self' := replace_load_const nconst instr res self in
  self_block self'
  = pre ++ [replace instr "LOAD_CONST" (ArgInt (len (consts (code self))))]
        ++ post
  /\ consts (code self') = consts (code self) ++ [res]
  /\ const_stack self' = stk ++ [res]
  /\ index self' = len pre + 1
  /\ in_consts self' = true.
Proof.
  intros Hb Hblk Hidx Hmid Hstk Htl.
  assert (Hfold : forall s, nth (block s) (blocks (code s)) [] = self_block s)
    by reflexivity.
  unfold replace_load_const. cbn zeta.
  destruct (Z.eqb_spec nconst 0) as [Hz|Hnz]; cbn -[setslice len];
    rewrite ?Hfold.
  - repeat split.
    + change (nth (block self)
                (list_update (blocks (code self)) (block self) ?b) [])
        with (self_block (set_self_block self b)).
      rewrite self_block_set_self_block by assumption.
      rewrite Hblk, Hidx.
      replace (len pre + len mid - nconst - 1) with (len pre) by lia.
      rewrite setslice_middle. reflexivity.
    + rewrite Hstk. destruct tl; [now rewrite app_nil_r|].
      rewrite len_cons in Htl. pose proof (len_nonneg tl). lia.
    + lia.
  - repeat split.
    + change (nth (block self)
                (list_update (blocks (code self)) (block self) ?b) [])
        with (self_block (set_self_block self b)).
      rewrite self_block_set_self_block by assumption.
      rewrite Hblk, Hidx.
      replace (len pre + len mid - nconst - 1) with (len pre) by lia.
      rewrite setslice_middle. reflexivity.
    + rewrite Hstk, <- Htl, delslice_from_tail; [reflexivity|].
      pose proof (len_nonneg tl). lia.
    + lia.
Qed.

Lemma binop_spec op instr self stk l r v :
  const_stack self = stk ++ [l; r] ->
  op l r = Return v ->
  check_result v = true ->
  binop op instr self = Return (replace_load_const 2 instr v self).
Proof.
  intros Hstk Hop Hchk. unfold binop. rewrite Hstk.
  change (-2) with (- (1 + len [r])).
  rewrite (getitem_from_end stk l [r]). cbn [bind].
  change (stk ++ [l; r]) with (stk ++ [l] ++ [r]). rewrite app_assoc.
  change (-1) with (- (1 + len (@nil value))).
  rewrite (getitem_from_end (stk ++ [l]) r []). cbn [bind].
  rewrite Hop, Hchk. reflexivity.
Qed.

(** When [op] raises, whatever the exception, [binop] returns normally
    and leaves the optimizer as it was. *)
Lemma binop_abandons op instr self stk l r e :
  const_stack self = stk ++ [l; r] ->
  op l r = Raise e ->
  binop op instr self = Return self.
Proof.
  intros Hstk Hop. unfold binop. rewrite Hstk.
  change (-2) with (- (1 + len [r])).
  rewrite (getitem_from_end stk l [r]). cbn [bind].
  change (stk ++ [l; r]) with (stk ++ [l] ++ [r]). rewrite app_assoc.
  change (-1) with (- (1 + len (@nil value))).
  rewrite (getitem_from_end (stk ++ [l]) r []). cbn [bind].
  rewrite Hop. reflexivity.
Qed.

(** [unaryop] lets every exception of [op] but [IndexError] through. *)
Lemma unaryop_raises op instr self stk v e :
  const_stack self = stk ++ [v] ->
  op v = Raise e ->
  e <> IndexError ->
  unaryop op instr self = Raise e.
Proof.
  intros Hstk Hop He. unfold unaryop. rewrite Hstk.
  change (-1) with (- (1 + len (@nil value))).
  rewrite (getitem_from_end stk v []). cbn [bind].
  rewrite Hop. destruct e; congruence.
Qed.

End HandlerFacts.

Section Lookahead.
Context {A : Type}.

Lemma getitem_second (pre : list A) (x y : A) (post : list A) :
  getitem (pre ++ x :: y :: post) (len pre + 1) = Return y.
Proof.
  change (pre ++ x :: y :: post) with (pre ++ [x] ++ y :: post).
  rewrite app_assoc.
  replace (len pre + 1) with (len (pre ++ [x]))
    by (rewrite len_app; reflexivity).
  apply getitem_middle.
Qed.

Lemma setslice_pair (pre : list A) (x y : A) (post r : list A) :
  setslice (pre ++ x :: y :: post) (len pre) (len pre + 2) r
  = pre ++ r ++ post.
Proof. exact (setslice_middle pre [x; y] post r). Qed.

End Lookahead.

(** ** The constant stack follows the pushes before the cursor *)

Section TrackerFacts.
Context {H : Host}.

Lemma block_ok_self_block (s : Optimizer) :
  block_ok s -> Forall wf_instr (self_block s).
Proof.
  intros [Hb Hall]. unfold self_block.
  rewrite Forall_forall in Hall. apply Hall, nth_In, Hb.
Qed.

Lemma block_ok_set_self_block (s : Optimizer) (b : Block) :
  block_ok s -> Forall wf_instr b -> block_ok (set_self_block s b).
Proof.
  intros [Hb Hall] Hwf. split.
  - unfold block_bound, set_self_block. cbn.
    rewrite list_update_length. exact Hb.
  - cbn. apply Forall_list_update; assumption.
Qed.

Lemma wf_read (s : Optimizer) (i : Z) (instr : Instr) :
  block_ok s -> getitem (self_block s) i = Return instr -> wf_instr instr.
Proof.
  intros Hok Hget. apply getitem_In in Hget.
  pose proof (block_ok_self_block s Hok) as Hall.
  rewrite Forall_forall in Hall. auto.
Qed.

Lemma wf_target (s : Optimizer) (a : argument) (t : Block) (ti : Instr) :
  block_ok s -> code_getitem (code s) a = Return t ->
  getitem t 0 = Return ti -> wf_instr ti.
Proof.
  intros [_ Hall] Ht Hti. unfold code_getitem in Ht.
  destruct a as [| |l]; try discriminate.
  destruct (nth_error (blocks (code s)) (label_block l)) as [b|] eqn:Hb;
    [|discriminate].
  injection Ht as <-. apply getitem_In in Hti.
  apply nth_error_In in Hb. rewrite Forall_forall in Hall.
  specialize (Hall b Hb). apply (Forall_skipn _ (label_offset l)) in Hall.
  rewrite Forall_forall in Hall. auto.
Qed.

Ltac handler_cases Hr :=
  repeat match type of Hr with
         | bind ?m _ = Return _ =>
             let E := fresh "E" in
             destruct m eqn:E; cbn [bind] in Hr; [|discriminate Hr]
         | Raise _ = Return _ => discriminate Hr
         | context [match ?x with _ => _ end] =>
             let E := fresh "E" in destruct x eqn:E
         end.

Ltac block_ok_goal :=
  repeat match goal with
         | |- block_ok (set_index ?s _) => change (block_ok s)
         | |- block_ok (set_const_stack ?s _) => change (block_ok s)
         | |- block_ok (set_in_consts ?s _) => change (block_ok s)
         | |- block_ok (set_consts ?s _) => change (block_ok s)
         | |- block_ok (set_self_block _ _) => apply block_ok_set_self_block
         | |- Forall _ (setslice _ _ _ _) => apply Forall_setslice
         | |- Forall _ (delslice _ _ _) => apply Forall_setslice
         | |- Forall wf_instr (self_block _) => apply block_ok_self_block
         | |- Forall _ [] => constructor
         | |- Forall _ (_ :: _) => constructor
         | |- block_ok _ => assumption
         end.

Ltac quiet_leaf Hr :=
  injection Hr as <-; split; [block_ok_goal|split; [cbn; lia|reflexivity]].

Lemma eval_UNARY_NOT_quiet instr s s' :
  block_ok s -> wf_instr instr ->
  eval_UNARY_NOT instr s = Return s' -> quiet_post s s'.
Proof.
  intros Hok Hwf Hr. unfold eval_UNARY_NOT in Hr. handler_cases Hr;
    quiet_leaf Hr.
  apply (wf_read s _ _ Hok) in E. exact E.
Qed.

Lemma eval_RETURN_VALUE_quiet instr s s' :
  block_ok s -> wf_instr instr ->
  eval_RETURN_VALUE instr s = Return s' -> quiet_post s s'.
Proof.
  intros Hok Hwf Hr. unfold eval_RETURN_VALUE in Hr. handler_cases Hr;
    quiet_leaf Hr.
  eapply Forall_delitem; [eassumption|].
  apply block_ok_self_block, Hok.
Qed.

Lemma build_tuple_unpack_seq_quiet instr s s' :
  block_ok s -> wf_instr instr ->
  build_tuple_unpack_seq instr s = Return s' -> quiet_post s s'.
Proof.
  intros Hok Hwf Hr. unfold build_tuple_unpack_seq in Hr.
  handler_cases Hr; quiet_leaf Hr; exact I.
Qed.

Lemma NOT_PyCmp_nonneg a n : NOT_PyCmp a = Some n -> 0 <= n.
Proof.
  unfold NOT_PyCmp. destruct a as [|m|]; try discriminate.
  repeat destruct (_ =? _); intros [= <-]; unfold PyCmp_IN, PyCmp_NOT_IN,
    PyCmp_IS, PyCmp_IS_NOT; lia.
Qed.

Lemma eval_COMPARE_OP_quiet instr s s' :
  block_ok s -> wf_instr instr ->
  eval_COMPARE_OP instr s = Return s' -> quiet_post s s'.
Proof.
  intros Hok Hwf Hr. unfold eval_COMPARE_OP in Hr. handler_cases Hr;
    quiet_leaf Hr.
  unfold wf_instr. cbn. eapply NOT_PyCmp_nonneg. eassumption.
Qed.

Lemma optimize_jump_to_cond_jump_quiet instr s s' :
  block_ok s -> wf_instr instr ->
  optimize_jump_to_cond_jump instr s = Return s' -> quiet_post s s'.
Proof.
  intros Hok Hwf Hr. unfold optimize_jump_to_cond_jump in Hr.
  handler_cases Hr; quiet_leaf Hr.
  - eapply Forall_setitem; [eassumption|apply block_ok_self_block, Hok|].
    eapply wf_target; eassumption.
  - eapply Forall_setitem; [eassumption|apply block_ok_self_block, Hok|].
    unfold wf_instr. cbn. eapply wf_target; eassumption.
Qed.

Lemma jump_if_or_pop_quiet instr s s' :
  block_ok s -> wf_instr instr ->
  jump_if_or_pop instr s = Return s' -> quiet_post s s'.
Proof.
  intros Hok Hwf Hr. unfold jump_if_or_pop in Hr.
  destruct (code_getitem (code s) (arg instr)) as [t|] eqn:Ht;
    cbn [bind] in Hr; [|discriminate].
  destruct (getitem t 0) as [ti|] eqn:Hti; cbn [bind] in Hr; [|discriminate].
  destruct (negb (is_cond_jump ti)).
  { eapply optimize_jump_to_cond_jump_quiet; eassumption. }
  handler_cases Hr; quiet_leaf Hr.
  - eapply Forall_setitem; [eassumption|apply block_ok_self_block, Hok|].
    unfold wf_instr. cbn. eapply wf_target; eassumption.
  - eapply Forall_setitem; [eassumption|apply block_ok_self_block, Hok|].
    unfold create_label in *. destruct (arg instr); try discriminate.
    match goal with Hc : Return _ = Return _ |- _ => injection Hc as <- end.
    exact I.
Qed.


Lemma quiet_inv e instr s' :
  entry e instr -> quiet_post e s' -> tracker_inv s'.
Proof.
  intros (_ & _ & Hflag & pre & pushes & post & _ & Hidx & _)
         (Hok & Hi & Hf).
  pose proof (len_nonneg pre). pose proof (len_nonneg pushes).
  split; [assumption|]. split; [lia|]. congruence.
Qed.

Lemma entry_inv e instr : entry e instr -> tracker_inv e.
Proof.
  intros (Hok & _ & Hflag & pre & pushes & post & _ & Hidx & _).
  pose proof (len_nonneg pre). pose proof (len_nonneg pushes).
  split; [assumption|]. split; [lia|]. congruence.
Qed.

Lemma eval_LOAD_CONST_inv e instr s' :
  entry e instr -> name instr = "LOAD_CONST" ->
  eval_LOAD_CONST instr e = Return s' -> tracker_inv s'.
Proof.
  intros (Hok & Hwf & Hflag & pre & pushes & post & Hblk & Hidx & Hlen & Hp)
         Hnm Hr.
  unfold eval_LOAD_CONST in Hr. handler_cases Hr. injection Hr as <-.
  pose proof (len_nonneg pre). pose proof (len_nonneg pushes).
  split; [exact Hok|]. split; [cbn; lia|]. intros _.
  exists pre, (pushes ++ [instr]), post.
  unfold self_block in *.
  cbn [block code blocks index const_stack in_consts set_in_consts
       set_const_stack].
  rewrite Hblk, <- !app_assoc, !len_app. cbn [app].
  change (len [instr]) with 1.
  match goal with |- context [len [?v]] => change (len [v]) with 1 end.
  repeat split; try lia.
  apply Forall_app. split; [assumption|]. constructor; [exact Hnm|constructor].
Qed.

Lemma replace_load_const_inv nconst e instr res :
  entry e instr -> 0 <= nconst <= len (const_stack e) ->
  tracker_inv (replace_load_const nconst instr res e).
Proof.
  intros (Hok & Hwf & Hflag & pre & pushes & post & Hblk & Hidx & Hlen & Hp)
         Hn.
  destruct (split_tail (const_stack e) nconst Hn) as (stk & tl & Hstk & Htl & Hstk').
  destruct (split_tail pushes nconst ltac:(lia)) as (ps & pt & Hps & Hpt & Hps').
  pose proof (replace_load_const_spec nconst instr res e (pre ++ ps)
                (pt ++ [instr]) post stk tl) as Hspec.
  destruct Hok as [Hb Hall].
  pose proof (len_nonneg pre). pose proof (len_nonneg ps).
  destruct Hspec as (Hblk' & _ & Hstk2 & Hidx' & Hflag').
  - exact Hb.
  - rewrite Hblk, Hps, <- !app_assoc. reflexivity.
  - rewrite Hidx, Hps, !len_app. change (len [instr]) with 1. lia.
  - rewrite len_app. change (len [instr]) with 1. lia.
  - exact Hstk.
  - exact Htl.
  - split; [|split].
    + unfold replace_load_const. cbn zeta.
      destruct (nconst =? 0); block_ok_goal; try (split; assumption);
        try exact Hall.
      * unfold wf_instr. cbn. apply len_nonneg.
      * unfold wf_instr. cbn. apply len_nonneg.
    + rewrite Hidx', len_app. lia.
    + intros _. exists pre, (ps ++ [replace instr "LOAD_CONST"
                      (ArgInt (len (consts (code e))))]), post.
      rewrite Hblk', Hstk2, Hidx', <- !app_assoc, !len_app.
      change (len [res]) with 1.
      change (len [replace instr "LOAD_CONST"
                     (ArgInt (len (consts (code e))))]) with 1.
      repeat split; try lia.
      rewrite Hps in Hp. apply Forall_app in Hp as [Hp _].
      apply Forall_app. split; [assumption|].
      constructor; [reflexivity|constructor].
Qed.

Lemma getitem_neg_len {A : Type} (l : list A) (k : Z) (x : A) :
  0 < k -> getitem l (- k) = Return x -> k <= len l.
Proof.
  intros Hk. unfold getitem, norm_index.
  destruct (Z.ltb_spec (- k) 0); [|lia].
  destruct (Z.ltb_spec (- k + len l) 0); [discriminate|]. lia.
Qed.

Lemma unaryop_inv op e instr s' :
  entry e instr -> unaryop op instr e = Return s' -> tracker_inv s'.
Proof.
  intros He Hr. unfold unaryop in Hr.
  destruct (getitem (const_stack e) (-1)) as [v|err] eqn:Hv; cbn [bind] in Hr.
  - apply (getitem_neg_len _ 1) in Hv; [|lia].
    pose proof (len_nonneg (const_stack e)).
    handler_cases Hr; injection Hr as <-;
      first [apply (entry_inv _ _ He)
            |apply replace_load_const_inv; [assumption|lia]].
  - handler_cases Hr; injection Hr as <-; apply (entry_inv _ _ He).
Qed.

Lemma binop_inv op e instr s' :
  entry e instr -> binop op instr e = Return s' -> tracker_inv s'.
Proof.
  intros He Hr. unfold binop in Hr.
  destruct (getitem (const_stack e) (-2)) as [l|err] eqn:Hl; cbn [bind] in Hr.
  - apply (getitem_neg_len _ 2) in Hl; [|lia].
    handler_cases Hr; injection Hr as <-;
      first [apply (entry_inv _ _ He)
            |apply replace_load_const_inv; [assumption|lia]].
  - handler_cases Hr; injection Hr as <-; apply (entry_inv _ _ He).
Qed.

Lemma replace_container_of_consts_inv container_type e instr s' :
  entry e instr ->
  (exists n, arg instr = ArgInt n /\ n <= len (const_stack e)) ->
  replace_container_of_consts instr container_type e = Return s' ->
  tracker_inv s'.
Proof.
  intros He (n & Harg & Hn) Hr. unfold replace_container_of_consts in Hr.
  rewrite Harg in Hr. cbn [as_int bind] in Hr.
  handler_cases Hr. injection Hr as <-.
  apply replace_load_const_inv; [assumption|].
  destruct He as (_ & Hwf & _). unfold wf_instr in Hwf.
  rewrite Harg in Hwf. lia.
Qed.

Lemma build_tuple_inv container_type e instr r :
  entry e instr ->
  build_tuple instr container_type e = Return r ->
  tracker_inv (fst r) /\ (snd r = false -> fst r = e).
Proof.
  intros He Hr. unfold build_tuple in Hr.
  destruct (arg instr) as [|n|] eqn:Harg; cbn [as_int bind] in Hr;
    try discriminate.
  destruct (Z.gtb_spec n (len (const_stack e))).
  { injection Hr as <-. split; [apply (entry_inv _ _ He)|reflexivity]. }
  handler_cases Hr; injection Hr as <-; cbn [fst snd];
    try (split; [apply (entry_inv _ _ He)|reflexivity]).
  split; [|discriminate].
  eapply replace_container_of_consts_inv; [exact He| |eassumption].
  exists n. split; [assumption|lia].
Qed.

Lemma eval_BUILD_TUPLE_inv e instr s' :
  entry e instr -> eval_BUILD_TUPLE instr e = Return s' -> tracker_inv s'.
Proof.
  intros He Hr. unfold eval_BUILD_TUPLE in Hr.
  destruct (negb (truthy (arg instr)));
    [injection Hr as <-; apply (entry_inv _ _ He)|].
  destruct (arg instr) as [|n|] eqn:Harg; cbn [as_int bind] in Hr;
    try discriminate.
  destruct (Z.leb_spec n (len (const_stack e))).
  - eapply replace_container_of_consts_inv; [exact He| |eassumption].
    exists n. split; [assumption|lia].
  - eapply quiet_inv; [exact He|].
    destruct He as (Hok & Hwf & _).
    eapply build_tuple_unpack_seq_quiet; eassumption.
Qed.

Lemma eval_BUILD_LIST_inv e instr s' :
  entry e instr -> eval_BUILD_LIST instr e = Return s' -> tracker_inv s'.
Proof.
  intros He Hr. unfold eval_BUILD_LIST in Hr.
  destruct (negb (truthy (arg instr)));
    [injection Hr as <-; apply (entry_inv _ _ He)|].
  destruct (build_tuple instr builtin_tuple e) as [r|] eqn:Hbt;
    cbn [bind] in Hr; [|discriminate].
  destruct (build_tuple_inv _ _ _ _ He Hbt) as [Hinv Hsame].
  destruct (snd r); cbn [negb] in Hr.
  - injection Hr as <-. exact Hinv.
  - rewrite (Hsame eq_refl) in Hr.
    eapply quiet_inv; [exact He|].
    destruct He as (Hok & Hwf & _).
    eapply build_tuple_unpack_seq_quiet; eassumption.
Qed.

Lemma eval_BUILD_SET_inv e instr s' :
  entry e instr -> eval_BUILD_SET instr e = Return s' -> tracker_inv s'.
Proof.
  intros He Hr. unfold eval_BUILD_SET in Hr.
  destruct (negb (truthy (arg instr)));
    [injection Hr as <-; apply (entry_inv _ _ He)|].
  destruct (build_tuple instr builtin_frozenset e) as [r|] eqn:Hbt;
    cbn [bind] in Hr; [|discriminate].
  destruct (build_tuple_inv _ _ _ _ He Hbt) as [Hinv _].
  injection Hr as <-. exact Hinv.
Qed.


Lemma getattr_eval_In nm h :
  getattr_eval nm = Some h -> In (nm, h) eval_methods.
Proof.
  unfold getattr_eval. generalize eval_methods as l.
  induction l as [|[k m] t IH]; cbn [lookup_method]; [discriminate|].
  destruct (String.eqb_spec nm k) as [->|_].
  - intros [= <-]. left. reflexivity.
  - intro Hl. right. auto.
Qed.

Lemma dispatch_inv e instr s' :
  entry e instr ->
  match getattr_eval (name instr) with
  | Some meth => meth instr e
  | None =>
      if is_jump instr then optimize_jump_to_cond_jump instr e
      else Return e
  end = Return s' ->
  tracker_inv s'.
Proof.
  intros He Hr.
  assert (Hok : block_ok e) by apply He.
  assert (Hwf : wf_instr instr) by apply He.
  destruct (getattr_eval (name instr)) as [meth|] eqn:Hmeth.
  - apply getattr_eval_In in Hmeth. unfold eval_methods in Hmeth.
    cbn [In] in Hmeth.
    repeat (destruct Hmeth as [Hmeth|Hmeth];
            [injection Hmeth as Hnm <-;
             first [ eapply eval_LOAD_CONST_inv; [exact He|auto|exact Hr]
                   | eapply unaryop_inv; [exact He|exact Hr]
                   | eapply binop_inv; [exact He|exact Hr]
                   | eapply eval_BUILD_TUPLE_inv; [exact He|exact Hr]
                   | eapply eval_BUILD_LIST_inv; [exact He|exact Hr]
                   | eapply eval_BUILD_SET_inv; [exact He|exact Hr]
                   | eapply quiet_inv;
                     [exact He|
                      first [ eapply eval_UNARY_NOT_quiet; eassumption
                            | eapply eval_RETURN_VALUE_quiet; eassumption
                            | eapply eval_COMPARE_OP_quiet; eassumption
                            | eapply jump_if_or_pop_quiet; eassumption ]] ]
            |]).
    destruct Hmeth.
  - destruct (is_jump instr).
    + eapply quiet_inv; [exact He|].
      eapply optimize_jump_to_cond_jump_quiet; eassumption.
    + injection Hr as <-. apply (entry_inv _ _ He).
Qed.

(** Entering the handler: the cursor has moved past [instr] and the stack
    was cleared unless the flag was set. *)
Lemma step_entry s instr :
  tracker_inv s ->
  getitem (self_block s) (index s) = Return instr ->
  entry
    (set_in_consts
       (if negb (in_consts (set_index s (index s + 1)))
        then set_const_stack (set_index s (index s + 1)) []
        else set_index s (index s + 1)) false)
    instr.
Proof.
  intros (Hok & Hidx & Htr) Hget.
  destruct (getitem_split _ _ _ Hidx Hget) as (pre0 & post0 & Hblk & Hpre0).
  cbn [in_consts set_index].
  split; [|split; [eapply wf_read; eassumption|split; [reflexivity|]]].
  { destruct (in_consts s); exact Hok. }
  destruct (in_consts s) eqn:Hflag; cbn [negb].
  - destruct (Htr eq_refl) as (pre & pushes & post & Hb & Hi & Hl & Hp).
    exists pre, pushes, post0.
    change (self_block (set_in_consts (set_index s (index s + 1)) false))
      with (self_block s).
    cbn [index const_stack set_in_consts set_index].
    rewrite Hb, app_assoc in Hblk.
    apply app_eq_len in Hblk as [Hpre Hpost];
      [|rewrite len_app; lia].
    rewrite Hb, Hpost. repeat split; auto. lia.
  - exists pre0, [], post0.
    change (self_block
              (set_in_consts
                 (set_const_stack (set_index s (index s + 1)) []) false))
      with (self_block s).
    cbn [index const_stack set_in_consts set_const_stack set_index app].
    rewrite Hblk. repeat split; auto.
    change (len (@nil Instr)) with 0. lia.
Qed.

Lemma step_inv s s' : tracker_inv s -> step s = Return s' -> tracker_inv s'.
Proof.
  intros Hinv Hr. unfold step in Hr.
  destruct (getitem (self_block s) (index s)) as [instr|] eqn:Hget;
    cbn [bind] in Hr; [|discriminate].
  unfold visit in Hr. cbn zeta in Hr.
  eapply dispatch_inv; [|exact Hr].
  apply step_entry; assumption.
Qed.

Lemma loop_reaches_inv start s :
  tracker_inv start -> loop_reaches start s -> tracker_inv s.
Proof.
  intros Hstart Hreach. induction Hreach as [|s s' _ IH _ Hstep];
    [assumption|].
  eapply step_inv; eassumption.
Qed.

Lemma clean_start_inv start :
  block_ok start -> index start = 0 -> in_consts start = false ->
  tracker_inv start.
Proof.
  intros Hok Hidx Hflag. split; [assumption|]. split; [lia|]. congruence.
Qed.

End TrackerFacts.

(** ** No step makes the block longer when the pushes are in the block *)

Section LengthFacts.
Context {A : Type}.

Lemma len_setslice_window (l : list A) (a b : Z) (r : list A) :
  0 <= a <= b -> b <= len l ->
  len (setslice l a b r) = len l - (b - a) + len r.
Proof.
  intros Hab Hb. unfold setslice.
  rewrite !adjust_in_range by lia. rewrite Z.max_r by lia.
  rewrite !len_app. unfold len in *.
  rewrite length_firstn, length_skipn. lia.
Qed.

Lemma len_replace_nth (l : list A) (j : nat) (x : A) :
  (j < List.length l)%nat -> len (firstn j l ++ x :: skipn (S j) l) = len l.
Proof.
  intro Hj. rewrite len_app, len_cons. unfold len.
  rewrite length_firstn, length_skipn. lia.
Qed.

Lemma len_remove_nth (l : list A) (j : nat) :
  len (firstn j l ++ skipn (S j) l) <= len l.
Proof.
  rewrite len_app. unfold len. rewrite length_firstn, length_skipn. lia.
Qed.

Lemma len_setitem (l : list A) (i : Z) (x : A) (l' : list A) :
  setitem l i x = Return l' -> len l' = len l.
Proof.
  unfold setitem, norm_index.
  destruct ((_ <? 0) || (len l <=? _)) eqn:Hr; cbn [bind]; [discriminate|].
  apply orb_false_iff in Hr as [Hlo Hhi].
  apply Z.ltb_ge in Hlo. apply Z.leb_gt in Hhi.
  intros [= <-]. apply len_replace_nth. unfold len in *. lia.
Qed.

Lemma len_delitem (l : list A) (i : Z) (l' : list A) :
  delitem l i = Return l' -> len l' <= len l.
Proof.
  unfold delitem, norm_index.
  destruct ((_ <? 0) || (len l <=? _)) eqn:Hr; cbn [bind]; [discriminate|].
  intros [= <-]. apply len_remove_nth.
Qed.

Lemma getitem_lt (l : list A) (i : Z) (x : A) :
  0 <= i -> getitem l i = Return x -> i < len l.
Proof.
  intros Hi Hget.
  destruct (getitem_split _ _ _ Hi Hget) as (pre & post & -> & <-).
  rewrite len_app, len_cons. pose proof (len_nonneg post). lia.
Qed.

End LengthFacts.

Section NoGrowth.
Context {H : Host}.

Ltac handler_cases Hr :=
  repeat match type of Hr with
         | bind ?m _ = Return _ =>
             let E := fresh "E" in
             destruct m eqn:E; cbn [bind] in Hr; [|discriminate Hr]
         | Raise _ = Return _ => discriminate Hr
         | context [match ?x with _ => _ end] =>
             let E := fresh "E" in destruct x eqn:E
         end.

(** The block of the result, read back through the setters. *)
Ltac read_block Hb :=
  repeat match goal with
         | |- context [self_block (set_index ?s ?i)] =>
             change (self_block (set_index s i)) with (self_block s)
         | |- context [self_block (set_const_stack ?s ?c)] =>
             change (self_block (set_const_stack s c)) with (self_block s)
         | |- context [self_block (set_self_block ?s ?b)] =>
             rewrite (self_block_set_self_block s b Hb)
         end.

Ltac window Hi E :=
  unfold delslice; rewrite len_setslice_window;
  [change (len (@nil Instr)) with 0; cbn [List.length len];
   rewrite ?len_cons; change (len (@nil Instr)) with 0; lia
  |lia
  |try (apply getitem_lt in E; lia); lia].

Lemma eval_UNARY_NOT_len instr s s' :
  block_bound s -> 1 <= index s ->
  eval_UNARY_NOT instr s = Return s' ->
  block_len s' <= block_len s.
Proof.
  intros Hb Hi Hr. unfold block_len, eval_UNARY_NOT in *.
  handler_cases Hr; injection Hr as <-; read_block Hb; [|lia].
  window Hi E.
Qed.


Lemma eval_RETURN_VALUE_len instr s s' :
  block_bound s -> 1 <= index s ->
  eval_RETURN_VALUE instr s = Return s' ->
  block_len s' <= block_len s.
Proof.
  intros Hb Hi Hr. unfold block_len, eval_RETURN_VALUE in *.
  handler_cases Hr; injection Hr as <-; read_block Hb; try lia.
  - window Hi E0.
  - eapply len_delitem. eassumption.
Qed.

Lemma build_tuple_unpack_seq_len instr s s' :
  block_bound s -> 1 <= index s ->
  build_tuple_unpack_seq instr s = Return s' ->
  block_len s' <= block_len s.
Proof.
  intros Hb Hi Hr. unfold block_len, build_tuple_unpack_seq in *.
  handler_cases Hr; injection Hr as <-; read_block Hb; try lia;
    window Hi E1.
Qed.

Lemma eval_COMPARE_OP_len instr s s' :
  block_bound s -> 1 <= index s ->
  eval_COMPARE_OP instr s = Return s' ->
  block_len s' <= block_len s.
Proof.
  intros Hb Hi Hr. unfold block_len, eval_COMPARE_OP in *.
  handler_cases Hr; injection Hr as <-; read_block Hb; try lia.
  window Hi E0.
Qed.

Lemma optimize_jump_to_cond_jump_len instr s s' :
  block_bound s ->
  optimize_jump_to_cond_jump instr s = Return s' ->
  block_len s' <= block_len s.
Proof.
  intros Hb Hr. unfold block_len, optimize_jump_to_cond_jump in *.
  handler_cases Hr; injection Hr as <-; read_block Hb; try lia;
    match goal with
    | Hs : setitem _ _ _ = Return _ |- _ => rewrite (len_setitem _ _ _ _ Hs)
    end; lia.
Qed.

Lemma jump_if_or_pop_len instr s s' :
  block_bound s ->
  jump_if_or_pop instr s = Return s' ->
  block_len s' <= block_len s.
Proof.
  intros Hb Hr. unfold jump_if_or_pop in Hr.
  destruct (code_getitem (code s) (arg instr)) as [t|] eqn:Ht;
    cbn [bind] in Hr; [|discriminate].
  destruct (getitem t 0) as [ti|] eqn:Hti; cbn [bind] in Hr; [|discriminate].
  destruct (negb (is_cond_jump ti)).
  { eapply optimize_jump_to_cond_jump_len; eassumption. }
  unfold block_len.
  handler_cases Hr; injection Hr as <-; read_block Hb; try lia;
    match goal with
    | Hs : setitem _ _ _ = Return _ |- _ => rewrite (len_setitem _ _ _ _ Hs)
    end; lia.
Qed.

Lemma entry_index e instr : entry e instr -> 1 <= index e.
Proof.
  intros (_ & _ & _ & pre & pushes & post & _ & Hidx & _).
  pose proof (len_nonneg pre). pose proof (len_nonneg pushes). lia.
Qed.

Lemma replace_load_const_len nconst e instr res :
  entry e instr -> 0 <= nconst <= len (const_stack e) ->
  block_len (replace_load_const nconst instr res e) <= block_len e.
Proof.
  intros (Hok & Hwf & Hflag & pre & pushes & post & Hblk & Hidx & Hlen & Hp)
         Hn.
  destruct (split_tail (const_stack e) nconst Hn)
    as (stk & tl & Hstk & Htl & _).
  destruct (split_tail pushes nconst ltac:(lia)) as (ps & pt & Hps & Hpt & _).
  destruct (replace_load_const_spec nconst instr res e (pre ++ ps)
              (pt ++ [instr]) post stk tl) as (Hblk' & _).
  - apply Hok.
  - rewrite Hblk, Hps, <- !app_assoc. reflexivity.
  - rewrite Hidx, Hps, !len_app. change (len [instr]) with 1. lia.
  - rewrite len_app. change (len [instr]) with 1. lia.
  - exact Hstk.
  - exact Htl.
  - unfold block_len. rewrite Hblk', Hblk, Hps, !len_app, !len_cons.
    change (len (@nil Instr)) with 0.
    pose proof (len_nonneg pt). lia.
Qed.

Lemma unaryop_len op e instr s' :
  entry e instr -> unaryop op instr e = Return s' ->
  block_len s' <= block_len e.
Proof.
  intros He Hr. unfold unaryop in Hr.
  destruct (getitem (const_stack e) (-1)) as [v|err] eqn:Hv; cbn [bind] in Hr.
  - apply (getitem_neg_len _ 1) in Hv; [|lia].
    handler_cases Hr; injection Hr as <-;
      first [lia|apply replace_load_const_len; [assumption|lia]].
  - handler_cases Hr; injection Hr as <-; lia.
Qed.

Lemma binop_len op e instr s' :
  entry e instr -> binop op instr e = Return s' ->
  block_len s' <= block_len e.
Proof.
  intros He Hr. unfold binop in Hr.
  destruct (getitem (const_stack e) (-2)) as [l|err] eqn:Hl; cbn [bind] in Hr.
  - apply (getitem_neg_len _ 2) in Hl; [|lia].
    handler_cases Hr; injection Hr as <-;
      first [lia|apply replace_load_const_len; [assumption|lia]].
  - handler_cases Hr; injection Hr as <-; lia.
Qed.

Lemma replace_container_of_consts_len container_type e instr s' :
  entry e instr ->
  (exists n, arg instr = ArgInt n /\ n <= len (const_stack e)) ->
  replace_container_of_consts instr container_type e = Return s' ->
  block_len s' <= block_len e.
Proof.
  intros He (n & Harg & Hn) Hr. unfold replace_container_of_consts in Hr.
  rewrite Harg in Hr. cbn [as_int bind] in Hr.
  handler_cases Hr. injection Hr as <-.
  apply replace_load_const_len; [assumption|].
  destruct He as (_ & Hwf & _). unfold wf_instr in Hwf.
  rewrite Harg in Hwf. lia.
Qed.

Lemma build_tuple_len container_type e instr r :
  entry e instr ->
  build_tuple instr container_type e = Return r ->
  block_len (fst r) <= block_len e /\ (snd r = false -> fst r = e).
Proof.
  intros He Hr. unfold build_tuple in Hr.
  destruct (arg instr) as [|n|] eqn:Harg; cbn [as_int bind] in Hr;
    try discriminate.
  destruct (Z.gtb_spec n (len (const_stack e))).
  { injection Hr as <-. split; [cbn [fst]; lia|reflexivity]. }
  handler_cases Hr; injection Hr as <-; cbn [fst snd];
    try (split; [lia|reflexivity]).
  split; [|discriminate].
  eapply replace_container_of_consts_len; [exact He| |eassumption].
  exists n. split; [assumption|lia].
Qed.

Lemma eval_BUILD_TUPLE_len e instr s' :
  entry e instr -> eval_BUILD_TUPLE instr e = Return s' ->
  block_len s' <= block_len e.
Proof.
  intros He Hr. unfold eval_BUILD_TUPLE in Hr.
  destruct (negb (truthy (arg instr))); [injection Hr as <-; lia|].
  destruct (arg instr) as [|n|] eqn:Harg; cbn [as_int bind] in Hr;
    try discriminate.
  destruct (Z.leb_spec n (len (const_stack e))).
  - eapply replace_container_of_consts_len; [exact He| |eassumption].
    exists n. split; [assumption|lia].
  - eapply build_tuple_unpack_seq_len;
      [apply He|eapply entry_index; exact He|eassumption].
Qed.

Lemma eval_BUILD_LIST_len e instr s' :
  entry e instr -> eval_BUILD_LIST instr e = Return s' ->
  block_len s' <= block_len e.
Proof.
  intros He Hr. unfold eval_BUILD_LIST in Hr.
  destruct (negb (truthy (arg instr))); [injection Hr as <-; lia|].
  destruct (build_tuple instr builtin_tuple e) as [r|] eqn:Hbt;
    cbn [bind] in Hr; [|discriminate].
  destruct (build_tuple_len _ _ _ _ He Hbt) as [Hlen Hsame].
  destruct (snd r); cbn [negb] in Hr.
  - injection Hr as <-. exact Hlen.
  - rewrite (Hsame eq_refl) in Hr.
    eapply build_tuple_unpack_seq_len;
      [apply He|eapply entry_index; exact He|eassumption].
Qed.

Lemma eval_BUILD_SET_len e instr s' :
  entry e instr -> eval_BUILD_SET instr e = Return s' ->
  block_len s' <= block_len e.
Proof.
  intros He Hr. unfold eval_BUILD_SET in Hr.
  destruct (negb (truthy (arg instr))); [injection Hr as <-; lia|].
  destruct (build_tuple instr builtin_frozenset e) as [r|] eqn:Hbt;
    cbn [bind] in Hr; [|discriminate].
  destruct (build_tuple_len _ _ _ _ He Hbt) as [Hlen _].
  injection Hr as <-. exact Hlen.
Qed.

Lemma dispatch_len e instr s' :
  entry e instr ->
  match getattr_eval (name instr) with
  | Some meth => meth instr e
  | None =>
      if is_jump instr then optimize_jump_to_cond_jump instr e
      else Return e
  end = Return s' ->
  block_len s' <= block_len e.
Proof.
  intros He Hr.
  assert (Hb : block_bound e) by apply He.
  pose proof (entry_index _ _ He) as Hi.
  destruct (getattr_eval (name instr)) as [meth|] eqn:Hmeth.
  - apply getattr_eval_In in Hmeth. unfold eval_methods in Hmeth.
    cbn [In] in Hmeth.
    repeat (destruct Hmeth as [Hmeth|Hmeth];
            [injection Hmeth as Hnm <-;
             first [ unfold eval_LOAD_CONST in Hr; handler_cases Hr;
                     injection Hr as <-; exact (Z.le_refl (block_len e))
                   | eapply unaryop_len; [exact He|exact Hr]
                   | eapply binop_len; [exact He|exact Hr]
                   | eapply eval_BUILD_TUPLE_len; [exact He|exact Hr]
                   | eapply eval_BUILD_LIST_len; [exact He|exact Hr]
                   | eapply eval_BUILD_SET_len; [exact He|exact Hr]
                   | eapply eval_UNARY_NOT_len; eassumption
                   | eapply eval_RETURN_VALUE_len; eassumption
                   | eapply eval_COMPARE_OP_len; eassumption
                   | eapply jump_if_or_pop_len; eassumption ]
            |]).
    destruct Hmeth.
  - destruct (is_jump instr).
    + eapply optimize_jump_to_cond_jump_len; eassumption.
    + injection Hr as <-. lia.
Qed.

(** When the tracked constants are those of the pushes before the cursor,
    a step never makes the block longer. *)
Lemma step_len s s' :
  tracker_inv s -> step s = Return s' -> block_len s' <= block_len s.
Proof.
  intros Hinv Hr. unfold step in Hr.
  destruct (getitem (self_block s) (index s)) as [instr|] eqn:Hget;
    cbn [bind] in Hr; [|discriminate].
  unfold visit in Hr. cbn zeta in Hr.
  pose proof (step_entry s instr Hinv Hget) as He.
  apply (dispatch_len _ _ _ He) in Hr.
  cbn [in_consts set_index] in Hr.
  destruct (in_consts s); exact Hr.
Qed.

(** In the loop over a block entered with the flag off, the block never
    gets longer than it was. *)
Lemma loop_never_grows start s :
  block_ok start -> index start = 0 -> in_consts start = false ->
  loop_reaches start s ->
  block_len s <= block_len start.
Proof.
  intros Hok Hidx Hflag Hreach.
  pose proof (clean_start_inv _ Hok Hidx Hflag) as Hinv.
  induction Hreach as [|s s' Hreach IH _ Hstep]; [lia|].
  pose proof (loop_reaches_inv _ _ Hinv Hreach) as Hs.
  pose proof (step_len _ _ Hs Hstep). lia.
Qed.

End NoGrowth.

(** ** The rewrite rules *)

Section Rules.
Context {H : Host}.

(** The fold seen from inside the handler, on a block split around the
    cursor. *)
Lemma binop_fold_at_cursor
    (nm : string) (op : value -> value -> result value)
    (self : Optimizer) (push1 push2 instr : Instr) (pre post : Block)
    (stk : list value) (l r v : value) :
  In (nm, op) binary_operators ->
  name instr = nm ->
  block_bound self ->
  self_block self = pre ++ [push1; push2; instr] ++ post ->
  index self = len pre + 3 ->
  const_stack self = stk ++ [l; r] ->
  op l r = Return v ->
  check_result v = true ->
  exists (meth : handler) (self' : Optimizer),
    getattr_eval (name instr) = Some meth
    /\ meth instr self = Return self'
    /\ self_block self'
       = pre ++ [replace instr "LOAD_CONST"
                   (ArgInt (len (consts (code self))))] ++ post
    /\ consts (code self') = consts (code self) ++ [v]
    /\ const_stack self' = stk ++ [v]
    /\ index self' = len pre + 1
    /\ in_consts self' = true.
Proof.
  intros Hin Hnm Hb Hblk Hidx Hstk Hop Hchk.
  exists (binop op), (replace_load_const 2 instr v self).
  split; [rewrite Hnm; apply getattr_binary, Hin|].
  split; [apply (binop_spec op instr self stk l r v); auto|].
  apply (replace_load_const_spec 2 instr v self pre
           [push1; push2; instr] post stk [l; r]); auto.
Qed.

(** X25: in the loop over a block that was entered with the flag
    [in_consts] off, whenever the instruction at the cursor is a
    binary-fold opcode (add, subtract, multiply, true-divide, floor-divide,
    modulo, power, shifts, bitwise and/or/xor, subscript), the flag is set
    and the constant stack holds [l], [r] on top: the two instructions
    before the cursor are pushes, and when the host operation returns [v]
    and [v] passes the size guard, the step replaces the two pushes and
    the binary instruction by one [LOAD_CONST] of [v], appended to the
    constants table, and [v] takes the place of [l], [r] on the constant
    stack. *)
Theorem binary_fold_replaces_pushes
    (start self : Optimizer) (instr : Instr)
    (op : value -> value -> result value)
    (stk : list value) (l r v : value) :
  block_ok start ->
  index start = 0 ->
  in_consts start = false ->
  loop_reaches start self ->
  getitem (self_block self) (index self) = Return instr ->
  In (name instr, op) binary_operators ->
  in_consts self = true ->
  const_stack self = stk ++ [l; r] ->
  op l r = Return v ->
  check_result v = true ->
  exists (pre post : Block) (push1 push2 : Instr) (self' : Optimizer),
    self_block self = pre ++ [push1; push2; instr] ++ post
    /\ index self = len pre + 2
    /\ name push1 = "LOAD_CONST"
    /\ name push2 = "LOAD_CONST"
    /\ step self = Return self'
    /\ self_block self'
       = pre ++ [replace instr "LOAD_CONST"
                   (ArgInt (len (consts (code self))))] ++ post
    /\ consts (code self') = consts (code self) ++ [v]
    /\ const_stack self' = stk ++ [v]
    /\ index self' = len pre + 1
    /\ in_consts self' = true.
Proof.
  intros Hok Hidx0 Hflag0 Hreach Hget Hin Hflag Hstk Hop Hchk.
  destruct (loop_reaches_inv _ _ (clean_start_inv _ Hok Hidx0 Hflag0) Hreach)
    as (Hoks & Hidx & Htr).
  destruct (Htr Hflag) as (pre & pushes & post & Hblk & Hi & Hlen & Hp).
  assert (Hstklen : len (const_stack self) = len stk + 2)
    by (rewrite Hstk, len_app; reflexivity).
  pose proof (len_nonneg stk) as Hstk0.
  destruct (split_tail pushes 2) as (ps & pt & Hps & Hpt & _); [lia|].
  destruct pt as [|push1 [|push2 [|push3 pt]]];
    try (unfold len in Hpt; cbn [List.length] in Hpt; lia).
  destruct (getitem_split _ _ _ Hidx Hget) as (pre0 & post0 & Hsplit & Hpre0).
  subst pushes. rewrite len_app in Hi.
  change (len [push1; push2]) with 2 in Hi.
  assert (Hshape : self_block self
                   = (pre ++ ps) ++ [push1; push2; instr] ++ post0).
  { rewrite Hblk, app_assoc in Hsplit.
    apply app_eq_len in Hsplit as [_ ->];
      [|rewrite !len_app; change (len [push1; push2]) with 2; lia].
    rewrite Hblk, <- !app_assoc. reflexivity. }
  assert (Hcur : index self = len (pre ++ ps) + 2).
  { rewrite Hi, !len_app. lia. }
  apply Forall_app in Hp as [_ Hp].
  inversion Hp as [|? ? Hp1 Hp']; subst. inversion Hp' as [|? ? Hp2 _]; subst.
  set (e := set_in_consts (set_index self (index self + 1)) false).
  destruct (binop_fold_at_cursor (name instr) op e push1 push2 instr
              (pre ++ ps) post0 stk l r v)
    as (meth & self' & Hmeth & Hcall & Hres); auto.
  { apply Hoks. }
  { subst e. cbn [index set_in_consts set_index]. lia. }
  exists (pre ++ ps), post0, push1, push2, self'.
  do 4 (split; [assumption|]).
  split; [|exact Hres].
  unfold step. rewrite Hget. cbn [bind]. unfold visit. cbn zeta.
  cbn [in_consts set_index]. rewrite Hflag. cbn [negb].
  fold e. rewrite Hmeth. exact Hcall.
Qed.

(** C7 (amended): when [UNARY_NOT] is immediately followed in its block by
    [POP_JUMP_IF_FALSE], the pair is replaced by one [POP_JUMP_IF_TRUE]
    with the same target and the cursor is moved back onto it, whatever
    the constant stack holds: the handler never reads it. *)
Theorem not_jump_fusion
    (self : Optimizer) (instr nxt : Instr) (pre post : Block) :
  name instr = "UNARY_NOT" ->
  name nxt = "POP_JUMP_IF_FALSE" ->
  block_bound self ->
  self_block self = pre ++ [instr; nxt] ++ post ->
  index self = len pre + 1 ->
  exists (meth : handler) (self' : Optimizer),
    getattr_eval (name instr) = Some meth
    /\ meth instr self = Return self'
    /\ self_block self'
       = pre ++ [replace instr "POP_JUMP_IF_TRUE" (arg nxt)] ++ post
    /\ index self' = len pre
    /\ const_stack self' = const_stack self
    /\ consts (code self') = consts (code self).
Proof.
  intros Hnm Hnxt Hb Hblk Hidx.
  exists eval_UNARY_NOT. eexists.
  split; [rewrite Hnm; reflexivity|].
  unfold eval_UNARY_NOT. rewrite Hblk, Hidx.
  cbn [app]. rewrite getitem_second. cbn [bind]. rewrite Hnxt.
  cbn [String.eqb Ascii.eqb Bool.eqb].
  replace (len pre + 1 - 1) with (len pre) by lia.
  replace (len pre + 1 + 1) with (len pre + 2) by lia.
  rewrite setslice_pair.
  split; [reflexivity|].
  split; [rewrite self_block_set_index, self_block_set_self_block
            by assumption; reflexivity|].
  repeat split. cbn. lia.
Qed.

(** C8 (amended): [eval_RETURN_VALUE] looks at the two instructions after
    the cursor.  With at least two of them, [x] then [y]: if [y] is a
    [RETURN_VALUE], both are deleted; otherwise, if [x] is [JUMP_ABSOLUTE]
    or [JUMP_FORWARD], [x] alone is deleted; otherwise the block is kept.
    With fewer than two instructions after the cursor the block is kept,
    whatever they are. *)
Theorem return_lookahead
    (self : Optimizer) (instr : Instr) (pre post : Block) :
  name instr = "RETURN_VALUE" ->
  block_bound self ->
  self_block self = pre ++ post ->
  index self = len pre ->
  exists (meth : handler) (self' : Optimizer),
    getattr_eval (name instr) = Some meth
    /\ meth instr self = Return self'
    /\ index self' = index self
    /\ (forall x y rest,
          post = x :: y :: rest -> name y = "RETURN_VALUE" ->
          self_block self' = pre ++ rest)
    /\ (forall x y rest,
          post = x :: y :: rest -> name y <> "RETURN_VALUE" ->
          name x = "JUMP_ABSOLUTE" \/ name x = "JUMP_FORWARD" ->
          self_block self' = pre ++ y :: rest)
    /\ (forall x y rest,
          post = x :: y :: rest -> name y <> "RETURN_VALUE" ->
          name x <> "JUMP_ABSOLUTE" -> name x <> "JUMP_FORWARD" ->
          self' = self)
    /\ (len post < 2 -> self' = self).
Proof.
  intros Hnm Hb Hblk Hidx.
  exists eval_RETURN_VALUE.
  assert (Hmeth : getattr_eval (name instr) = Some eval_RETURN_VALUE)
    by (rewrite Hnm; reflexivity).
  unfold eval_RETURN_VALUE. rewrite Hblk, Hidx, len_app.
  replace (len pre + len post - len pre) with (len post) by lia.
  destruct post as [|x [|y rest]].
  - exists self. split; [assumption|]. split; [reflexivity|].
    split; [exact Hidx|].
    repeat split; intros; try discriminate; reflexivity.
  - exists self. split; [assumption|]. split; [reflexivity|].
    split; [exact Hidx|].
    repeat split; intros; try discriminate; reflexivity.
  - assert (Hlen : (len (x :: y :: rest) <? 2) = false).
    { rewrite !len_cons. pose proof (len_nonneg rest).
      apply Z.ltb_ge. lia. }
    rewrite Hlen, getitem_second. cbn [bind].
    destruct (String.eqb_spec (name y) "RETURN_VALUE") as [Hy|Hy].
    + eexists. split; [assumption|]. split; [reflexivity|].
      split; [exact Hidx|].
      assert (Hres : self_block
                (set_self_block self
                   (delslice (pre ++ x :: y :: rest) (len pre)
                      (len pre + 2))) = pre ++ rest).
      { rewrite self_block_set_self_block by assumption.
        unfold delslice. rewrite setslice_pair. reflexivity. }
      repeat split.
      * intros x' y' rest' Heq _. injection Heq as _ _ <-. exact Hres.
      * intros x' y' rest' Heq Hy'. injection Heq as _ <- _. contradiction.
      * intros x' y' rest' Heq Hy'. injection Heq as _ <- _. contradiction.
      * rewrite !len_cons. pose proof (len_nonneg rest). lia.
    + rewrite getitem_middle. cbn [bind].
      destruct (name_in (name x) ["JUMP_ABSOLUTE"; "JUMP_FORWARD"]) eqn:Hx.
      * rewrite delitem_middle. cbn [bind].
        eexists. split; [assumption|]. split; [reflexivity|].
        split; [exact Hidx|].
        repeat split.
        -- intros x' y' rest' Heq Hy'. injection Heq as _ <- _. contradiction.
        -- intros x' y' rest' Heq _ _. injection Heq as _ <- <-.
           apply self_block_set_self_block; assumption.
        -- intros x' y' rest' Heq _ Ha Hf. injection Heq as <- _ _.
           unfold name_in in Hx. cbn [existsb] in Hx.
           destruct (String.eqb_spec (name x) "JUMP_ABSOLUTE"); [contradiction|].
           destruct (String.eqb_spec (name x) "JUMP_FORWARD"); [contradiction|].
           discriminate.
        -- rewrite !len_cons. pose proof (len_nonneg rest). lia.
      * exists self. split; [assumption|]. split; [reflexivity|].
        split; [exact Hidx|].
        repeat split.
        -- intros x' y' rest' Heq Hy'. injection Heq as _ <- _. contradiction.
        -- intros x' y' rest' Heq _ [Ha|Hf]; injection Heq as <- _ _;
             unfold name_in in Hx; cbn [existsb] in Hx.
           ++ rewrite Ha in Hx. discriminate.
           ++ rewrite Hf in Hx. discriminate.
Qed.

(** C9 (amended): [BUILD_TUPLE n] with 1 <= n <= 3, entered with fewer
    than [n] tracked constants on the constant stack and immediately
    followed in its block by [UNPACK_SEQUENCE n]: for n = 1 both
    instructions are deleted, for n = 2 they are replaced by [ROT_TWO], for
    n = 3 by [ROT_THREE] then [ROT_TWO]; in each case the constant stack is
    empty afterwards and the constants table is untouched. *)
Theorem tuple_unpack_rewrite
    (self : Optimizer) (instr nxt : Instr) (pre post : Block) (n : Z) :
  name instr = "BUILD_TUPLE" ->
  arg instr = ArgInt n ->
  1 <= n <= 3 ->
  len (const_stack self) < n ->
  name nxt = "UNPACK_SEQUENCE" ->
  arg nxt = ArgInt n ->
  block_bound self ->
  self_block self = pre ++ [instr; nxt] ++ post ->
  index self = len pre + 1 ->
  exists (meth : handler) (self' : Optimizer),
    getattr_eval (name instr) = Some meth
    /\ meth instr self = Return self'
    /\ const_stack self' = []
    /\ consts (code self') = consts (code self)
    /\ (n = 1 -> self_block self' = pre ++ post)
    /\ (n = 2 ->
        self_block self' = pre ++ [mkInstr (lineno instr) "ROT_TWO"] ++ post)
    /\ (n = 3 ->
        self_block self'
        = pre ++ [mkInstr (lineno instr) "ROT_THREE";
                  mkInstr (lineno instr) "ROT_TWO"] ++ post).
Proof.
  intros Hnm Harg Hn Hstk Hnxt Hnarg Hb Hblk Hidx.
  exists eval_BUILD_TUPLE.
  assert (Hmeth : getattr_eval (name instr) = Some eval_BUILD_TUPLE)
    by (rewrite Hnm; reflexivity).
  unfold eval_BUILD_TUPLE, build_tuple_unpack_seq.
  rewrite Harg. cbn [truthy as_int bind].
  destruct (Z.eqb_spec n 0) as [?|_]; [lia|]. cbn [negb].
  destruct (Z.leb_spec n (len (const_stack self))) as [?|_]; [lia|].
  rewrite Hblk, Hidx. cbn [app]. rewrite getitem_second. cbn [bind].
  rewrite Hnxt, Hnarg. cbn [String.eqb Ascii.eqb Bool.eqb argument_eqb].
  rewrite Z.eqb_refl. cbn [andb negb].
  replace (len pre + 1 - 1) with (len pre) by lia.
  replace (len pre + 1 + 1) with (len pre + 2) by lia.
  unfold delslice. rewrite !setslice_pair.
  assert (Hcases : n = 1 \/ n = 2 \/ n = 3) by lia.
  destruct Hcases as [->|[->| ->]]; cbn [Z.leb Z.eqb Z.compare Pos.compare
    Pos.compare_cont Pos.eqb andb negb];
    eexists; (split; [exact Hmeth|]); (split; [reflexivity|]).
  - split.
    { cbn. destruct (const_stack self) as [|c t]; [reflexivity|].
      rewrite len_cons in Hstk. pose proof (len_nonneg t). lia. }
    split; [reflexivity|].
    repeat split; intro; try lia.
    apply self_block_set_self_block; assumption.
  - split; [reflexivity|]. split; [reflexivity|].
    repeat split; intro; try lia.
    rewrite self_block_set_const_stack, self_block_set_index.
    apply self_block_set_self_block; assumption.
  - split; [reflexivity|]. split; [reflexivity|].
    repeat split; intro; try lia.
    rewrite self_block_set_const_stack, self_block_set_index.
    apply self_block_set_self_block; assumption.
Qed.

Lemma getitem_last_byte (l : list Z) :
  l <> [] -> getitem l (len l - 1) = Return (last l 0).
Proof.
  intro Hl. rewrite (app_removelast_last 0 Hl) at 1 2.
  rewrite len_app. change (len [last l 0]) with 1.
  replace (len (removelast l) + 1 - 1) with (len (removelast l)) by lia.
  apply getitem_middle.
Qed.

(** C2 (amended): when the module global [MIMICK_C_IMPL] is true, a code
    object whose line-number table contains 255, or whose code is longer
    than 32700, or whose code is not empty and does not end with the
    [RETURN_VALUE] opcode, is returned by [optimize] as it is, without
    being disassembled; with the value [False] the module ships, the guard
    lets every code object through to the rewriting pass. *)
Theorem bypass_when_mimicking
    (disassemble : code_object -> result Code)
    (assemble : Code -> result code_object)
    (fuel : nat) (code_obj : code_object) :
  In 255 (co_lnotab code_obj)
  \/ len (co_code code_obj) > 32700
  \/ (co_code code_obj <> []
      /\ last (co_code code_obj) 0 <> opmap_RETURN_VALUE) ->
  optimize disassemble assemble true fuel code_obj = Some (Return code_obj)
  /\ check_bypass_optim MIMICK_C_IMPL code_obj = Return false.
Proof.
  intro Hcond. split; [|reflexivity].
  unfold optimize, check_bypass_optim. cbn [negb].
  destruct (existsb (Z.eqb 255) (co_lnotab code_obj)) eqn:Hln;
    [reflexivity|].
  destruct (Z.gtb_spec (len (co_code code_obj)) 32700) as [?|Hle];
    [reflexivity|].
  destruct Hcond as [Hin|[Hgt|[Hne Hlast]]].
  - assert (Hex : existsb (Z.eqb 255) (co_lnotab code_obj) = true).
    { apply existsb_exists. exists 255. split; [assumption|].
      apply Z.eqb_refl. }
    congruence.
  - lia.
  - rewrite getitem_last_byte by assumption. cbn [bind].
    destruct (Z.eqb_spec (last (co_code code_obj) 0) opmap_RETURN_VALUE);
      [contradiction|reflexivity].
Qed.

End Rules.

(** ** The rules at work, and where the code departs from them *)

(** [push(2); push(3); add; return] becomes [push(5); return]. *)
Example fold_two_plus_three :
  outcome_of code (_optimize 10 prog_add)
  = Some (Return
      {| blocks := [[ins "LOAD_CONST" (ArgInt 2); ins "RETURN_VALUE" UNSET]];
         consts := [PyInt 2; PyInt 3; PyInt 5] |}).
Proof. by_running. Qed.

(** C3: [unaryop] catches [IndexError] only.  Negating the tracked tuple
    [(1,)] raises [TypeError], which leaves the handler and ends the whole
    pass; [binop], whose clause is [except Exception], abandons the fold of
    [2 / 0] and returns with the program as it was. *)
Theorem unary_fold_error_escapes :
  eval_UNARY_NEGATIVE (ins "UNARY_NEGATIVE" UNSET)
    (entered prog_neg_tuple 0 2 [PyTuple [PyInt 1]]) = Raise TypeError
  /\ _optimize 10 prog_neg_tuple = Some (Raise TypeError)
  /\ eval_BINARY_TRUE_DIVIDE (ins "BINARY_TRUE_DIVIDE" UNSET)
       (entered prog_div_zero 0 3 [PyInt 2; PyInt 0])
     = Return (entered prog_div_zero 0 3 [PyInt 2; PyInt 0])
  /\ outcome_of code (_optimize 10 prog_div_zero)
     = Some (Return prog_div_zero).
Proof. by_running. Qed.

(** C4: [eval_UNARY_NOT] reads the instruction after the cursor without a
    bound check.  In [c and not x] the negation is the last instruction of
    its block: the read raises [IndexError] and the pass ends with it.
    [eval_COMPARE_OP], which catches the same error, returns normally when
    the comparison ends its block. *)
Theorem lookahead_past_block_end_raises :
  eval_UNARY_NOT (ins "UNARY_NOT" UNSET) (entered prog_and_not 1 2 [])
  = Raise IndexError
  /\ _optimize 10 prog_and_not = Some (Raise IndexError)
  /\ eval_COMPARE_OP (ins "COMPARE_OP" (ArgInt PyCmp_IS))
       (entered prog_is 0 3 [])
     = Return (entered prog_is 0 3 []).
Proof. by_running. Qed.

(** C10: the constant stack is made once, in [_optimize], and the flag
    [in_consts] is not reset between blocks.  The second block of
    [prog_or_add] ends on a push, so the loop over it ends with that
    constant tracked and the flag set; the third block is entered in that
    state, its push is stacked on the constant of the second block, and
    [BINARY_ADD] folds the two. *)
Theorem const_stack_survives_block_end :
  and_then (next_block 10 (init prog_or_add)) (next_block 10)
  = Some (Return second_block_end)
  /\ const_stack second_block_end = [PyTuple [PyInt 1]]
  /\ set_index (set_block (set_block_index second_block_end 3) 2) 0
     = third_block_start
  /\ result_map const_stack (step third_block_start)
     = Return [PyTuple [PyInt 1]; nine_twos]
  /\ result_map consts_of (s <- step third_block_start ;; step s)
     = Return (consts prog_or_add
               ++ [PyTuple (PyInt 1 :: repeat (PyInt 2) 9)]).
Proof. by_running. Qed.

(** C5: [BINARY_ADD] of the third block of [prog_or_add] is reached with
    two tracked constants on the constant stack, the host addition of the
    two succeeds and its result passes the size guard; one of the two was
    pushed in the second block, so only one push stands before the
    cursor.  The step appends the sum to the constants table and inserts
    a push of it after [BINARY_ADD]: the push and the binary instruction
    are both kept, and so they are in the program the pass returns. *)
Theorem binary_fold_keeps_push_of_carried_constant :
  step third_block_start = Return third_block_pushed
  /\ self_block third_block_pushed
     = [ins "LOAD_CONST" (ArgInt 1); ins "BINARY_ADD" UNSET;
        ins "RETURN_VALUE" UNSET]
  /\ getitem (self_block third_block_pushed) (index third_block_pushed)
     = Return (ins "BINARY_ADD" UNSET)
  /\ in_consts third_block_pushed = true
  /\ const_stack third_block_pushed = [PyTuple [PyInt 1]; nine_twos]
  /\ operator_add (PyTuple [PyInt 1]) nine_twos
     = Return (PyTuple (PyInt 1 :: repeat (PyInt 2) 9))
  /\ check_result (PyTuple (PyInt 1 :: repeat (PyInt 2) 9)) = true
  /\ result_map self_block (step third_block_pushed)
     = Return [ins "LOAD_CONST" (ArgInt 1); ins "BINARY_ADD" UNSET;
               ins "LOAD_CONST" (ArgInt 2); ins "RETURN_VALUE" UNSET]
  /\ result_map consts_of (step third_block_pushed)
     = Return (consts prog_or_add
               ++ [PyTuple (PyInt 1 :: repeat (PyInt 2) 9)])
  /\ outcome_of (fun self => nth 2 (blocks (code self)) [])
       (_optimize 100 prog_or_add)
     = Some (Return [ins "LOAD_CONST" (ArgInt 1); ins "BINARY_ADD" UNSET;
                     ins "LOAD_CONST" (ArgInt 2);
                     ins "LOAD_CONST" (ArgInt 3);
                     ins "RETURN_VALUE" UNSET]).
Proof. by_running. Qed.

(** C6: entered with two tracked constants of which only one was pushed
    in the current block, [replace_load_const] computes a negative slice
    start, which Python counts from the end of the block: the slice is
    empty and the new push is inserted.  The call of the handler of
    [BINARY_ADD] takes the third block of [prog_or_add] from 3 to 4
    instructions, and the whole pass takes the program from 6 to 8. *)
Theorem fold_across_blocks_grows_block :
  result_map block_len (step third_block_start) = Return 3
  /\ result_map block_len (s <- step third_block_start ;; step s)
     = Return 4
  /\ count_instrs prog_or_add = 6
  /\ outcome_of (fun self => count_instrs (code self))
       (_optimize 100 prog_or_add) = Some (Return 8).
Proof. by_running. Qed.

(** C1: [return (x or (1,)) + (2,)*9] is rewritten into a program that
    pushes two folded constants after the addition and returns the last
    one.  For x = 0 the original returns a tuple of 10 items and the
    rewritten program one of 19. *)
Theorem optimized_program_returns_other_value :
  outcome_of code (_optimize 100 prog_or_add)
  = Some (Return prog_or_add_optimized)
  /\ Interp.run 20 prog_or_add [PyInt 0]
     = Some (Return (PyTuple (PyInt 1 :: repeat (PyInt 2) 9)))
  /\ Interp.run 20 prog_or_add_optimized [PyInt 0]
     = Some (Return (PyTuple (PyInt 1 :: repeat (PyInt 2) 18))).
Proof. by_running. Qed.

Lemma binary_fold_replaces_pushes_witness :
  exists (pre post : Block) (push1 push2 : Instr) (self' : Optimizer),
    self_block add_reached
    = pre ++ [push1; push2; ins "BINARY_ADD" UNSET] ++ post
    /\ index add_reached = len pre + 2
    /\ name push1 = "LOAD_CONST"
    /\ name push2 = "LOAD_CONST"
    /\ step add_reached = Return self'
    /\ self_block self'
       = pre ++ [replace (ins "BINARY_ADD" UNSET) "LOAD_CONST"
                   (ArgInt (len (consts (code add_reached))))] ++ post
    /\ consts (code self') = consts (code add_reached) ++ [PyInt 5]
    /\ const_stack self' = [] ++ [PyInt 5]
    /\ index self' = len pre + 1
    /\ in_consts self' = true.
Proof.
  apply (binary_fold_replaces_pushes
           (set_index (set_block_index (init prog_add) 1) 0) add_reached
           (ins "BINARY_ADD" UNSET) operator_add [] (PyInt 2) (PyInt 3)
           (PyInt 5)); try reflexivity.
  - split; [unfold block_bound; simpl; lia|].
    repeat constructor; unfold wf_instr; simpl; lia.
  - eapply reaches_step;
      [eapply reaches_step; [apply reaches_start|reflexivity|reflexivity]
      |reflexivity|reflexivity].
  - left. reflexivity.
Defined.

Lemma not_jump_fusion_witness :
  exists (meth : handler) (self' : Optimizer),
    getattr_eval "UNARY_NOT" = Some meth
    /\ meth (ins "UNARY_NOT" UNSET)
         (entered prog_not_const 0 2 [PyInt 1]) = Return self'
    /\ self_block self'
       = [ins "LOAD_CONST" (ArgInt 0);
          ins "POP_JUMP_IF_TRUE" (block_label 2)]
    /\ index self' = 1
    /\ const_stack self' = [PyInt 1]
    /\ consts (code self') = [PyInt 1; PyInt 2; PyInt 3].
Proof.
  apply (not_jump_fusion (entered prog_not_const 0 2 [PyInt 1])
           (ins "UNARY_NOT" UNSET) (ins "POP_JUMP_IF_FALSE" (block_label 2))
           [ins "LOAD_CONST" (ArgInt 0)] []); try reflexivity.
  unfold block_bound. simpl. lia.
Defined.

(** C7, as stated, fails: the operand of the negation of [prog_not_const]
    is a tracked constant when [UNARY_NOT] is reached, and the negation is
    fused with the jump all the same. *)
Lemma not_of_tracked_constant_is_fused :
  result_map const_stack
    (step (set_index (set_block_index (init prog_not_const) 1) 0))
  = Return [PyInt 1]
  /\ result_map self_block
       (s <- step (set_index (set_block_index (init prog_not_const) 1) 0) ;;
        step s)
     = Return [ins "LOAD_CONST" (ArgInt 0);
               ins "POP_JUMP_IF_TRUE" (block_label 2)]
  /\ outcome_of code (_optimize 10 prog_not_const)
     = Some (Return
         {| blocks := [[ins "LOAD_CONST" (ArgInt 0);
                        ins "POP_JUMP_IF_TRUE" (block_label 2)];
                       [ins "LOAD_CONST" (ArgInt 1);
                        ins "RETURN_VALUE" UNSET];
                       [ins "LOAD_CONST" (ArgInt 2);
                        ins "RETURN_VALUE" UNSET]];
            consts := [PyInt 1; PyInt 2; PyInt 3] |}).
Proof. by_running. Qed.

Lemma return_lookahead_witness :
  exists (meth : handler) (self' : Optimizer),
    getattr_eval "RETURN_VALUE" = Some meth
    /\ meth (ins "RETURN_VALUE" UNSET) (entered prog_dead_return 0 2 [])
       = Return self'
    /\ self_block self'
       = [ins "LOAD_FAST" (ArgInt 0); ins "RETURN_VALUE" UNSET].
Proof.
  destruct (return_lookahead (entered prog_dead_return 0 2 [])
              (ins "RETURN_VALUE" UNSET)
              [ins "LOAD_FAST" (ArgInt 0); ins "RETURN_VALUE" UNSET]
              [ins "LOAD_CONST" (ArgInt 0); ins "RETURN_VALUE" UNSET])
    as (meth & self' & Hmeth & Hcall & _ & Hdel & _);
    try reflexivity.
  - unfold block_bound. simpl. lia.
  - exists meth, self'. split; [exact Hmeth|]. split; [exact Hcall|].
    apply (Hdel (ins "LOAD_CONST" (ArgInt 0)) (ins "RETURN_VALUE" UNSET) []);
      reflexivity.
Defined.

(** C8, as stated, fails: a return immediately followed by a return is
    kept when the instruction after the pair is not a return, and a jump
    that follows a return is kept when it ends the block. *)
Lemma return_pair_and_trailing_jump_kept :
  outcome_of code (_optimize 10 prog_return_return)
  = Some (Return prog_return_return)
  /\ outcome_of code (_optimize 10 prog_return_jump)
     = Some (Return prog_return_jump).
Proof. by_running. Qed.

Lemma tuple_unpack_rewrite_witness :
  exists (meth : handler) (self' : Optimizer),
    getattr_eval "BUILD_TUPLE" = Some meth
    /\ meth (ins "BUILD_TUPLE" (ArgInt 2)) (entered prog_swap 0 3 [])
       = Return self'
    /\ const_stack self' = []
    /\ self_block self'
       = [ins "LOAD_FAST" (ArgInt 1); ins "LOAD_FAST" (ArgInt 0);
          ins "ROT_TWO" UNSET;
          ins "STORE_FAST" (ArgInt 0); ins "STORE_FAST" (ArgInt 1);
          ins "LOAD_CONST" (ArgInt 0); ins "RETURN_VALUE" UNSET].
Proof.
  destruct (tuple_unpack_rewrite (entered prog_swap 0 3 [])
              (ins "BUILD_TUPLE" (ArgInt 2))
              (ins "UNPACK_SEQUENCE" (ArgInt 2))
              [ins "LOAD_FAST" (ArgInt 1); ins "LOAD_FAST" (ArgInt 0)]
              [ins "STORE_FAST" (ArgInt 0); ins "STORE_FAST" (ArgInt 1);
               ins "LOAD_CONST" (ArgInt 0); ins "RETURN_VALUE" UNSET] 2)
    as (meth & self' & Hmeth & Hcall & Hstk & _ & _ & Hrot & _);
    try reflexivity.
  - lia.
  - unfold block_bound. simpl. lia.
  - exists meth, self'. split; [exact Hmeth|]. split; [exact Hcall|].
    split; [exact Hstk|]. apply Hrot. reflexivity.
Defined.

(** C9, as stated, fails: with the two items of the tuple tracked,
    [BUILD_TUPLE 2] followed by [UNPACK_SEQUENCE 2] is folded into the
    push of the constant tuple, the unpack is kept, and the constant
    stack holds the tuple. *)
Lemma tracked_pair_is_folded_not_swapped :
  result_map const_stack
    (s <- step (set_index (set_block_index (init prog_pair) 1) 0) ;; step s)
  = Return [PyInt 1; PyInt 2]
  /\ result_map const_stack
       (s <- step (set_index (set_block_index (init prog_pair) 1) 0) ;;
        s <- step s ;; step s)
     = Return [PyTuple [PyInt 1; PyInt 2]]
  /\ outcome_of code (_optimize 10 prog_pair)
     = Some (Return
         {| blocks := [[ins "LOAD_CONST" (ArgInt 2);
                        ins "UNPACK_SEQUENCE" (ArgInt 2);
                        ins "STORE_FAST" (ArgInt 0);
                        ins "STORE_FAST" (ArgInt 1);
                        ins "LOAD_FAST" (ArgInt 0);
                        ins "RETURN_VALUE" UNSET]];
            consts := [PyInt 1; PyInt 2; PyTuple [PyInt 1; PyInt 2]] |}).
Proof. by_running. Qed.

Lemma bypass_when_mimicking_witness :
  optimize (fun _ => Return prog_gap) (fun _ => Raise ValueError)
    true 0 gap_code = Some (Return gap_code)
  /\ check_bypass_optim MIMICK_C_IMPL gap_code = Return false.
Proof.
  apply (bypass_when_mimicking (fun _ => Return prog_gap)
           (fun _ => Raise ValueError) 0 gap_code).
  left. simpl. tauto.
Defined.

(** C2, as stated, fails: the line-number table of [gap_code] contains
    255, and the entry point, which runs under the shipped value of
    [MIMICK_C_IMPL], hands it to the rewriting pass: whatever the
    disassembler and the assembler, the result is the assembly of the
    folded program. *)
Lemma guard_is_off_as_shipped :
  In 255 (co_lnotab gap_code)
  /\ check_bypass_optim MIMICK_C_IMPL gap_code = Return false
  /\ outcome_of code (_optimize 10 prog_gap) = Some (Return prog_gap_folded)
  /\ prog_gap_folded <> prog_gap
  /\ (forall (disassemble : code_object -> result Code)
             (assemble : Code -> result code_object),
        disassemble gap_code = Return prog_gap ->
        code_transformer disassemble assemble 10 gap_code
        = Some (assemble prog_gap_folded)).
Proof.
  split; [simpl; tauto|].
  split; [reflexivity|].
  split; [reflexivity|].
  split; [discriminate|].
  intros disassemble assemble Hdis.
  unfold code_transformer, optimize.
  change (check_bypass_optim MIMICK_C_IMPL gap_code) with (@Return bool false).
  cbn iota. rewrite Hdis. reflexivity.
Qed.

(** ** A loop that sets its cursor back *)

Section Insertion.
Context {A : Type}.

(** A slice that starts at the last item and stops before it is empty:
    the assignment inserts before the last item. *)
Lemma setslice_before_last (pre : list A) (x : A) (stop : Z) (r : list A) :
  0 <= stop <= len pre ->
  setslice (pre ++ [x]) (-1) stop r = pre ++ r ++ [x].
Proof.
  intro Hstop. unfold setslice, adjust. rewrite len_app.
  change (len [x]) with 1. pose proof (len_nonneg pre).
  destruct (Z.ltb_spec (-1) 0); [|lia].
  destruct (Z.ltb_spec stop 0); [lia|].
  rewrite (Z.max_r 0) by lia. rewrite Z.min_l by lia.
  rewrite Z.max_l by lia.
  replace (Z.to_nat (-1 + (len pre + 1))) with (List.length pre)
    by (unfold len; lia).
  rewrite firstn_app, firstn_all, Nat.sub_diag, firstn_O, app_nil_r.
  rewrite skipn_app, skipn_all, Nat.sub_diag. reflexivity.
Qed.

End Insertion.

Lemma folded_pushes_S k :
  folded_pushes (S k)
  = folded_pushes k ++ [ins "LOAD_CONST" (ArgInt (Z.of_nat k + 2))].
Proof. unfold folded_pushes. rewrite seq_S, map_app. reflexivity. Qed.

Lemma folded_consts_S k :
  folded_consts (S k) = folded_consts k ++ [PyInt (2 * Z.of_nat k + 3)].
Proof. unfold folded_consts. rewrite seq_S, map_app. reflexivity. Qed.

Lemma len_folded_pushes k : len (folded_pushes k) = Z.of_nat k.
Proof. unfold len, folded_pushes. now rewrite length_map, length_seq. Qed.

Lemma len_folded_consts k : len (folded_consts k) = Z.of_nat k.
Proof. unfold len, folded_consts. now rewrite length_map, length_seq. Qed.


Lemma push_step k : step (back_at_start k) = Return (after_push k).
Proof.
  unfold step.
  change (getitem (self_block (back_at_start k)) (index (back_at_start k)))
    with (getitem ([] ++ ins "LOAD_CONST" (ArgInt 1)
                      :: (ins "BINARY_ADD" UNSET :: folded_pushes k
                          ++ [ins "RETURN_VALUE" UNSET]))
            (len (@nil Instr))).
  rewrite getitem_middle. cbn [bind].
  unfold visit. cbn zeta.
  change (getattr_eval (name (ins "LOAD_CONST" (ArgInt 1))))
    with (Some eval_LOAD_CONST).
  cbv beta iota. unfold eval_LOAD_CONST.
  change (as_int (arg (ins "LOAD_CONST" (ArgInt 1)))) with (@Return Z 1).
  cbn [bind].
  match goal with
  | |- context [getitem ?c 1] =>
      change (getitem c 1)
        with (getitem ([PyInt 1] ++ PyInt 2 :: folded_consts k)
                (len [PyInt 1]))
  end.
  rewrite getitem_middle. cbn [bind]. reflexivity.
Qed.

Lemma optimizer_ext (s t : Optimizer) :
  blocks (code s) = blocks (code t) ->
  consts (code s) = consts (code t) ->
  const_stack s = const_stack t ->
  block_index s = block_index t ->
  block s = block t ->
  index s = index t ->
  in_consts s = in_consts t ->
  s = t.
Proof.
  destruct s as [[bs cs] stk bi b i f], t as [[bs' cs'] stk' bi' b' i' f'].
  cbn. intros. subst. reflexivity.
Qed.

(** The fold after [k] folds inserts a push of index [k + 2]; the folds
    are counted as far as this index is one that the program model takes
    for the argument of an instruction. *)
Lemma fold_step k :
  Z.of_nat k < 50000 -> step (after_push k) = Return (back_at_start (S k)).
Proof.
  intros _. unfold step.
  change (getitem (self_block (after_push k)) (index (after_push k)))
    with (getitem ([] ++ ins "LOAD_CONST" (ArgInt 1)
                      :: ins "BINARY_ADD" UNSET
                      :: (folded_pushes k ++ [ins "RETURN_VALUE" UNSET]))
            (len (@nil Instr) + 1)).
  rewrite getitem_second. cbn [bind].
  unfold visit. cbn zeta.
  change (getattr_eval (name (ins "BINARY_ADD" UNSET)))
    with (Some eval_BINARY_ADD).
  cbv beta iota. unfold eval_BINARY_ADD.
  cbn [in_consts set_index after_push negb].
  rewrite (binop_spec (H:=PyFragment) operator_add _ _ []
             (PyInt (2 * Z.of_nat k + 1))
             (PyInt 2) (PyInt (2 * Z.of_nat k + 1 + 2)));
    try reflexivity.
  f_equal. unfold replace_load_const. cbn zeta.
  change (2 =? 0) with false. cbv iota.
  pose proof (len_folded_pushes k) as Hp.
  pose proof (len_folded_consts k) as Hc.
  unfold after_push. apply optimizer_ext;
    cbn [code blocks consts const_stack block_index block index in_consts
         set_in_consts set_const_stack set_index set_consts set_self_block
         back_at_start rewinding_code self_block nth list_update].
  - do 3 f_equal.
    change ([ins "LOAD_CONST" (ArgInt 1); ins "BINARY_ADD" UNSET]
              ++ folded_pushes k ++ [ins "RETURN_VALUE" UNSET])
      with (([ins "LOAD_CONST" (ArgInt 1); ins "BINARY_ADD" UNSET]
               ++ folded_pushes k) ++ [ins "RETURN_VALUE" UNSET]).
    change (1 + 1 - 2 - 1) with (-1). change (1 + 1) with 2.
    rewrite setslice_before_last;
      [|rewrite len_app, Hp;
        change (len [ins "LOAD_CONST" (ArgInt 1); ins "BINARY_ADD" UNSET])
          with 2; lia].
    rewrite folded_pushes_S. change (@value PyFragment) with pyval.
    rewrite len_app, Hc. change (len [PyInt 1; PyInt 2]) with 2.
    replace (2 + Z.of_nat k) with (Z.of_nat k + 2) by lia.
    rewrite <- !app_assoc. reflexivity.
  - rewrite folded_consts_S.
    replace (2 * Z.of_nat k + 1 + 2) with (2 * Z.of_nat k + 3) by lia.
    rewrite <- !app_assoc. reflexivity.
  - change (delslice_from [PyInt (2 * Z.of_nat k + 1); PyInt 2] (- (2)))
      with (@nil pyval).
    cbn [app]. do 2 f_equal. lia.
  - reflexivity.
  - reflexivity.
  - reflexivity.
  - reflexivity.
Qed.

Lemma len_rewinding_block k :
  len (self_block (back_at_start k)) = Z.of_nat k + 3.
Proof.
  change (self_block (back_at_start k))
    with ([ins "LOAD_CONST" (ArgInt 1); ins "BINARY_ADD" UNSET]
            ++ folded_pushes k ++ [ins "RETURN_VALUE" UNSET]).
  rewrite !len_app, len_folded_pushes.
  change (len [ins "LOAD_CONST" (ArgInt 1); ins "BINARY_ADD" UNSET]) with 2.
  change (len [ins "RETURN_VALUE" UNSET]) with 1. lia.
Qed.

Lemma folded_pushes_in_range k :
  Forall (fun i : Instr =>
            forall n, arg i = ArgInt n -> 0 <= n <= Z.of_nat k + 1)
    (self_block (back_at_start k)).
Proof.
  change (self_block (back_at_start k))
    with ([ins "LOAD_CONST" (ArgInt 1); ins "BINARY_ADD" UNSET]
            ++ folded_pushes k ++ [ins "RETURN_VALUE" UNSET]).
  repeat first [apply Forall_app; split | apply Forall_cons | apply Forall_nil];
    try (cbn [arg ins]; intros n Hn; first [discriminate Hn|idtac]).
  - injection Hn as <-. lia.
  - apply Forall_forall. intros i Hi n Hn. unfold folded_pushes in Hi.
    apply in_map_iff in Hi as (j & <- & Hj). apply in_seq in Hj.
    cbn [arg ins] in Hn. injection Hn as <-. lia.
Qed.

Lemma rewinding_loop_reaches k :
  Z.of_nat k <= 50000 ->
  loop_reaches (back_at_start 0) (back_at_start k).
Proof.
  induction k as [|k IH]; intro Hk; [apply reaches_start|].
  pose proof (len_rewinding_block k) as Hlen.
  apply (reaches_step _ (after_push k));
    [|change (index (after_push k)) with 1;
      change (self_block (after_push k)) with (self_block (back_at_start k));
      lia
     |apply fold_step; lia].
  apply (reaches_step _ (back_at_start k));
    [apply IH; lia|change (index (back_at_start k)) with 0; lia
    |apply push_step].
Qed.

(** The loop over the third block of [prog_or_int] is still running after
    [fuel] turns: every second turn it is back at the start of a longer
    block.  The turns are counted up to 100000, for which the pushes that
    the folds insert name an index of at most 50001. *)
Lemma rewinding_loop_goes_on (fuel k : nat) :
  (Z.of_nat fuel + 2 * Z.of_nat k <= 100000 ->
   disassemble_loop fuel (back_at_start k) = None)
  /\ (Z.of_nat fuel + 2 * Z.of_nat k + 1 <= 100000 ->
      disassemble_loop fuel (after_push k) = None).
Proof.
  revert k. induction fuel as [|fuel IH]; intro k;
    [split; reflexivity|].
  pose proof (len_rewinding_block k) as Hlen.
  split; intro Hb; cbn [disassemble_loop].
  - change (index (back_at_start k)) with 0.
    destruct (Z.ltb_spec 0 (len (self_block (back_at_start k)))); [|lia].
    rewrite push_step. apply (IH k). lia.
  - change (index (after_push k)) with 1.
    change (self_block (after_push k)) with (self_block (back_at_start k)).
    destruct (Z.ltb_spec 1 (len (self_block (back_at_start k)))); [|lia].
    rewrite fold_step by lia. apply (IH (S k)). lia.
Qed.

(** X19: the loop of [disassemble] can set its cursor back time and
    again.  In the pass over [return (x or 1) + 2] the third block is
    entered with the constant of the second block tracked; each fold then
    inserts a push and moves the cursor back to the start of the block.
    With up to 100000 turns allowed to the loop over a block, [_optimize]
    has not returned; after [2 * k] of these turns the third block has
    grown from 3 to [k + 3] instructions, whose arguments are indices of
    at most [k + 1]. *)
Theorem pass_has_not_returned_within (fuel : nat) :
  Z.of_nat fuel <= 100000 ->
  _optimize fuel prog_or_int = None
  /\ forall k : nat,
       (2 * k <= fuel)%nat ->
       loop_reaches (back_at_start 0) (back_at_start k)
       /\ len (self_block (back_at_start k)) = Z.of_nat k + 3
       /\ Forall (fun i : Instr =>
                    forall n, arg i = ArgInt n -> 0 <= n <= Z.of_nat k + 1)
            (self_block (back_at_start k)).
Proof.
  intro Hfuel. split.
  - destruct fuel as [|[|[|fuel]]]; try reflexivity.
    unfold _optimize.
    change (blocks_loop (List.length (blocks prog_or_int))
              (S (S (S fuel))) (init prog_or_int))
      with (match disassemble_loop (S (S (S fuel))) (back_at_start 0) with
            | Some (Return self') => blocks_loop 0 (S (S (S fuel))) self'
            | other => other
            end).
    destruct (rewinding_loop_goes_on (S (S (S fuel))) 0) as [Hloop _].
    rewrite Hloop by lia. reflexivity.
  - intros k Hk. split; [apply rewinding_loop_reaches; lia|].
    split; [apply len_rewinding_block|apply folded_pushes_in_range].
Qed.

(** ** The frame of the loop: what no handler touches *)

Section FrameFacts.
Context {H : Host}.

Ltac handler_cases Hr :=
  repeat match type of Hr with
         | bind ?m _ = Return _ =>
             let E := fresh "E" in
             destruct m eqn:E; cbn [bind] in Hr; [|discriminate Hr]
         | Raise _ = Return _ => discriminate Hr
         | context [match ?x with _ => _ end] =>
             let E := fresh "E" in destruct x eqn:E
         end.

Lemma nth_error_list_update {A : Type} (l : list A) (n b : nat) (x : A) :
  b <> n -> nth_error (list_update l n x) b = nth_error l b.
Proof.
  revert n b. induction l as [|h t IH]; intros [|n] [|b] Hb; cbn; auto;
    congruence.
Qed.

Lemma same_frame_refl s : same_frame s s.
Proof.
  repeat split; auto. exists []. now rewrite app_nil_r.
Qed.

Lemma same_frame_trans s t u :
  same_frame s t -> same_frame t u -> same_frame s u.
Proof.
  intros (Hl & Hb & Hi & (e1 & Hc) & Ho) (Hl' & Hb' & Hi' & (e2 & Hc') & Ho').
  split; [congruence|]. split; [congruence|]. split; [congruence|]. split.
  - exists (e1 ++ e2). rewrite Hc', Hc, app_assoc. reflexivity.
  - intros b Hne. rewrite Ho' by congruence. apply Ho, Hne.
Qed.

Lemma same_frame_set_self_block s b : same_frame s (set_self_block s b).
Proof.
  repeat split; cbn.
  - apply list_update_length.
  - exists []. now rewrite app_nil_r.
  - intros b' Hne. apply nth_error_list_update, Hne.
Qed.

Lemma same_frame_set_consts s ext :
  same_frame s (set_consts s (consts (code s) ++ ext)).
Proof. repeat split; cbn. exists ext. reflexivity. Qed.

(** The setters of the cursor, the stack and the flag keep the frame. *)
Lemma same_frame_step_to s t t' :
  same_frame s t ->
  code t' = code t -> block t' = block t -> block_index t' = block_index t ->
  same_frame s t'.
Proof.
  intros (Hl & Hb & Hi & Hc & Ho) Hcode Hblk Hidx.
  unfold same_frame. rewrite Hcode, Hblk, Hidx. repeat split; auto.
Qed.

Ltac frame_goal :=
  repeat match goal with
         | |- same_frame ?s ?s => apply same_frame_refl
         | |- same_frame _ (set_index ?t _) =>
             apply (same_frame_step_to _ t); [|reflexivity..]
         | |- same_frame _ (set_const_stack ?t _) =>
             apply (same_frame_step_to _ t); [|reflexivity..]
         | |- same_frame _ (set_in_consts ?t _) =>
             apply (same_frame_step_to _ t); [|reflexivity..]
         | |- same_frame ?s (set_self_block ?t _) =>
             apply (same_frame_trans s t); [|apply same_frame_set_self_block]
         | |- same_frame ?s (set_consts ?t (consts (code ?t) ++ _)) =>
             apply (same_frame_trans s t); [|apply same_frame_set_consts]
         end.

Lemma same_frame_replace_load_const nconst instr res s :
  same_frame s (replace_load_const nconst instr res s).
Proof.
  unfold replace_load_const. cbn zeta.
  destruct (nconst =? 0); frame_goal.
Qed.

Ltac frame_leaf Hr :=
  injection Hr as <-;
  first [apply same_frame_replace_load_const | frame_goal].

Lemma same_frame_unaryop op instr s s' :
  unaryop op instr s = Return s' -> same_frame s s'.
Proof. intro Hr. unfold unaryop in Hr. handler_cases Hr; frame_leaf Hr. Qed.

Lemma same_frame_binop op instr s s' :
  binop op instr s = Return s' -> same_frame s s'.
Proof. intro Hr. unfold binop in Hr. handler_cases Hr; frame_leaf Hr. Qed.

Lemma same_frame_container instr container_type s s' :
  replace_container_of_consts instr container_type s = Return s' ->
  same_frame s s'.
Proof.
  intro Hr. unfold replace_container_of_consts in Hr.
  handler_cases Hr; frame_leaf Hr.
Qed.

Lemma same_frame_unpack_seq instr s s' :
  build_tuple_unpack_seq instr s = Return s' -> same_frame s s'.
Proof.
  intro Hr. unfold build_tuple_unpack_seq in Hr.
  handler_cases Hr; frame_leaf Hr.
Qed.

Lemma same_frame_build_tuple instr container_type s r :
  build_tuple instr container_type s = Return r ->
  same_frame s (fst r) /\ (snd r = false -> fst r = s).
Proof.
  intro Hr. unfold build_tuple in Hr.
  destruct (as_int (arg instr)) as [n|]; cbn [bind] in Hr; [|discriminate].
  destruct (n >? len (const_stack s)).
  { injection Hr as <-. split; [apply same_frame_refl|reflexivity]. }
  destruct (getitem (self_block s) (index s)) as [nx|]; cbn [bind] in Hr;
    [|discriminate].
  destruct (negb (String.eqb (name nx) "COMPARE_OP")).
  { injection Hr as <-. split; [apply same_frame_refl|reflexivity]. }
  destruct (negb _).
  { injection Hr as <-. split; [apply same_frame_refl|reflexivity]. }
  destruct (replace_container_of_consts instr container_type s) as [t|] eqn:Ht;
    cbn [bind] in Hr; [|discriminate].
  injection Hr as <-. split; [|discriminate].
  eapply same_frame_container, Ht.
Qed.

Lemma same_frame_jump instr s s' :
  optimize_jump_to_cond_jump instr s = Return s' -> same_frame s s'.
Proof.
  intro Hr. unfold optimize_jump_to_cond_jump in Hr.
  handler_cases Hr; frame_leaf Hr.
Qed.

Lemma same_frame_jump_if_or_pop instr s s' :
  jump_if_or_pop instr s = Return s' -> same_frame s s'.
Proof.
  intro Hr. unfold jump_if_or_pop in Hr.
  destruct (code_getitem (code s) (arg instr)) as [t|]; cbn [bind] in Hr;
    [|discriminate].
  destruct (getitem t 0) as [ti|]; cbn [bind] in Hr; [|discriminate].
  destruct (negb (is_cond_jump ti)); [eapply same_frame_jump, Hr|].
  handler_cases Hr; frame_leaf Hr.
Qed.

Lemma same_frame_handler (meth : handler) nm instr s s' :
  In (nm, meth) eval_methods ->
  meth instr s = Return s' -> same_frame s s'.
Proof.
  unfold eval_methods. cbn [In]. intros Hin Hr.
  repeat (destruct Hin as [Hin|Hin];
          [injection Hin as _ <-;
           first [ eapply same_frame_unaryop, Hr
                 | eapply same_frame_binop, Hr
                 | eapply same_frame_jump_if_or_pop, Hr
                 | idtac ]
          |]); try contradiction.
  - unfold eval_LOAD_CONST in Hr. handler_cases Hr; frame_leaf Hr.
  - unfold eval_UNARY_NOT in Hr. handler_cases Hr; frame_leaf Hr.
  - unfold eval_RETURN_VALUE in Hr. handler_cases Hr; frame_leaf Hr.
  - unfold eval_BUILD_TUPLE in Hr.
    destruct (negb (truthy (arg instr))); [frame_leaf Hr|].
    destruct (as_int (arg instr)) as [n|]; cbn [bind] in Hr; [|discriminate].
    destruct (n <=? len (const_stack s));
      [eapply same_frame_container, Hr|eapply same_frame_unpack_seq, Hr].
  - unfold eval_BUILD_LIST in Hr.
    destruct (negb (truthy (arg instr))); [frame_leaf Hr|].
    destruct (build_tuple instr builtin_tuple s) as [r|] eqn:Hbt;
      cbn [bind] in Hr; [|discriminate].
    destruct (same_frame_build_tuple _ _ _ _ Hbt) as [Hf Hsame].
    destruct (snd r); cbn [negb] in Hr.
    + injection Hr as <-. exact Hf.
    + rewrite (Hsame eq_refl) in Hr. eapply same_frame_unpack_seq, Hr.
  - unfold eval_BUILD_SET in Hr.
    destruct (negb (truthy (arg instr))); [frame_leaf Hr|].
    destruct (build_tuple instr builtin_frozenset s) as [r|] eqn:Hbt;
      cbn [bind] in Hr; [|discriminate].
    destruct (same_frame_build_tuple _ _ _ _ Hbt) as [Hf _].
    injection Hr as <-. exact Hf.
  - unfold eval_COMPARE_OP in Hr. handler_cases Hr; frame_leaf Hr.
Qed.

Lemma same_frame_visit instr s s' :
  visit instr s = Return s' -> same_frame s s'.
Proof.
  unfold visit. cbn zeta. intro Hr.
  set (e := set_in_consts _ false) in Hr.
  assert (He : same_frame s e).
  { subst e. destruct (negb (in_consts s)); frame_goal. }
  apply (same_frame_trans _ _ _ He).
  destruct (getattr_eval (name instr)) as [meth|] eqn:Hm.
  - eapply same_frame_handler; [eapply getattr_eval_In, Hm|exact Hr].
  - destruct (is_jump instr); [eapply same_frame_jump, Hr|].
    injection Hr as <-. apply same_frame_refl.
Qed.

Lemma same_frame_step s s' : step s = Return s' -> same_frame s s'.
Proof.
  unfold step. intro Hr.
  destruct (getitem (self_block s) (index s)) as [instr|]; cbn [bind] in Hr;
    [|discriminate].
  apply same_frame_visit in Hr.
  eapply same_frame_trans; [|exact Hr]. frame_goal.
Qed.

Lemma same_frame_loop fuel s s' :
  disassemble_loop fuel s = Some (Return s') -> same_frame s s'.
Proof.
  revert s. induction fuel as [|fuel IH]; intros s Hr; [discriminate|].
  cbn [disassemble_loop] in Hr.
  destruct (index s <? len (self_block s)).
  - destruct (step s) as [t|] eqn:Ht; [|discriminate].
    eapply same_frame_trans; [eapply same_frame_step, Ht|apply IH, Hr].
  - injection Hr as <-. apply same_frame_refl.
Qed.

End FrameFacts.

(** ** The frame of the pass *)

Section PassFacts.
Context {H : Host}.

Ltac handler_cases Hr :=
  repeat match type of Hr with
         | bind ?m _ = Return _ =>
             let E := fresh "E" in
             destruct m eqn:E; cbn [bind] in Hr; [|discriminate Hr]
         | Raise _ = Return _ => discriminate Hr
         | context [match ?x with _ => _ end] =>
             let E := fresh "E" in destruct x eqn:E
         end.

Lemma next_block_frame fuel s s' :
  next_block fuel s = Some (Return s') ->
  List.length (blocks (code s')) = List.length (blocks (code s))
  /\ (exists ext, consts (code s') = consts (code s) ++ ext)
  /\ block_index s' = block_index s + 1.
Proof.
  unfold next_block, optimize_block. intro Hr.
  apply same_frame_loop in Hr as (Hl & _ & Hi & Hc & _).
  repeat split; assumption.
Qed.

Lemma blocks_loop_frame n fuel s s' :
  blocks_loop n fuel s = Some (Return s') ->
  block_index s <= len (blocks (code s)) ->
  List.length (blocks (code s')) = List.length (blocks (code s))
  /\ (exists ext, consts (code s') = consts (code s) ++ ext)
  /\ block_index s' = len (blocks (code s)).
Proof.
  revert s. induction n as [|n IH]; intros s Hr Hle.
  - cbn [blocks_loop] in Hr.
    destruct (Z.ltb_spec (block_index s) (len (blocks (code s))));
      [discriminate|].
    injection Hr as <-. repeat split; [|lia].
    exists []. now rewrite app_nil_r.
  - cbn [blocks_loop] in Hr.
    destruct (Z.ltb_spec (block_index s) (len (blocks (code s)))).
    + destruct (next_block fuel s) as [[t|]|] eqn:Ht; try discriminate.
      apply next_block_frame in Ht as (Hl & (e1 & Hc) & Hi).
      assert (Hlen : len (blocks (code t)) = len (blocks (code s)))
        by (unfold len; congruence).
      destruct (IH t Hr) as (Hl' & (e2 & Hc') & Hi'); [lia|].
      repeat split; try congruence.
      exists (e1 ++ e2). rewrite Hc', Hc, app_assoc. reflexivity.
    + injection Hr as <-. repeat split; [|lia].
      exists []. now rewrite app_nil_r.
Qed.

End PassFacts.

(** ** Every push names a constant of the table *)

Section ValidFacts.
Context {H : Host}.

Ltac handler_cases Hr :=
  repeat match type of Hr with
         | bind ?m _ = Return _ =>
             let E := fresh "E" in
             destruct m eqn:E; cbn [bind] in Hr; [|discriminate Hr]
         | Raise _ = Return _ => discriminate Hr
         | context [match ?x with _ => _ end] =>
             let E := fresh "E" in destruct x eqn:E
         end.

Lemma valid_push_grow cs ext i : valid_push cs i -> valid_push (cs ++ ext) i.
Proof.
  intros Hv Hn. destruct (Hv Hn) as (n & Ha & Hr). exists n.
  split; [assumption|]. rewrite len_app. pose proof (len_nonneg ext). lia.
Qed.

Lemma valid_other_name cs i :
  name i <> "LOAD_CONST" -> valid_push cs i.
Proof. intros Hne Hn. contradiction. Qed.

Lemma pushes_valid_self_block s :
  pushes_valid s -> Forall (valid_push (consts (code s))) (self_block s).
Proof.
  intro Hv. unfold self_block.
  destruct (nth_in_or_default (block s) (blocks (code s)) []) as [Hin| ->];
    [|constructor].
  unfold pushes_valid, code_valid in Hv. rewrite Forall_forall in Hv. auto.
Qed.

Lemma pushes_valid_set_self_block s b :
  pushes_valid s -> Forall (valid_push (consts (code s))) b ->
  pushes_valid (set_self_block s b).
Proof.
  intros Hv Hb. unfold pushes_valid, code_valid. cbn.
  apply Forall_list_update; assumption.
Qed.

Lemma pushes_valid_set_consts s ext :
  pushes_valid s -> pushes_valid (set_consts s (consts (code s) ++ ext)).
Proof.
  unfold pushes_valid, code_valid. cbn. intro Hv.
  eapply Forall_impl; [|exact Hv]. intros b Hb.
  eapply Forall_impl; [|exact Hb]. intros i. apply valid_push_grow.
Qed.

Lemma valid_read s i instr :
  pushes_valid s -> getitem (self_block s) i = Return instr ->
  valid_push (consts (code s)) instr.
Proof.
  intros Hv Hget. apply getitem_In in Hget.
  pose proof (pushes_valid_self_block s Hv) as Hall.
  rewrite Forall_forall in Hall. auto.
Qed.

Lemma valid_target s a t ti :
  pushes_valid s -> code_getitem (code s) a = Return t ->
  getitem t 0 = Return ti -> valid_push (consts (code s)) ti.
Proof.
  intros Hall Ht Hti. unfold code_getitem in Ht.
  destruct a as [| |l]; try discriminate.
  destruct (nth_error (blocks (code s)) (label_block l)) as [b|] eqn:Hb;
    [|discriminate].
  injection Ht as <-. apply getitem_In in Hti.
  apply nth_error_In in Hb. unfold pushes_valid, code_valid in Hall.
  rewrite Forall_forall in Hall.
  specialize (Hall b Hb). apply (Forall_skipn _ (label_offset l)) in Hall.
  rewrite Forall_forall in Hall. auto.
Qed.

Ltac valid_goal :=
  repeat match goal with
         | |- pushes_valid (set_index ?s _) => change (pushes_valid s)
         | |- pushes_valid (set_const_stack ?s _) => change (pushes_valid s)
         | |- pushes_valid (set_in_consts ?s _) => change (pushes_valid s)
         | |- pushes_valid (set_self_block _ _) =>
             apply pushes_valid_set_self_block
         | |- pushes_valid (set_consts ?t (consts (code ?t) ++ _)) =>
             apply pushes_valid_set_consts
         | |- Forall _ (setslice _ _ _ _) => apply Forall_setslice
         | |- Forall _ (delslice _ _ _) => apply Forall_setslice
         | |- Forall (valid_push _) (self_block _) =>
             apply pushes_valid_self_block
         | |- Forall _ [] => constructor
         | |- Forall _ (_ :: _) => constructor
         | |- pushes_valid _ => assumption
         | |- valid_push _ (replace _ "POP_JUMP_IF_TRUE" _) =>
             apply valid_other_name; discriminate
         | |- valid_push _ (replace _ "POP_JUMP_IF_FALSE" _) =>
             apply valid_other_name; discriminate
         | |- valid_push _ (replace _ "JUMP_ABSOLUTE" _) =>
             apply valid_other_name; discriminate
         | |- valid_push _ (mkInstr _ _) =>
             apply valid_other_name; discriminate
         end.

Lemma pushes_valid_replace_load_const nconst instr res s :
  pushes_valid s -> pushes_valid (replace_load_const nconst instr res s).
Proof.
  intro Hv. unfold replace_load_const. cbn zeta.
  assert (Hnew : valid_push (consts (code s) ++ [res])
                   (replace instr "LOAD_CONST"
                      (ArgInt (len (consts (code s)))))).
  { intros _. exists (len (consts (code s))). split; [reflexivity|].
    rewrite len_app. change (len [res]) with 1.
    pose proof (len_nonneg (consts (code s))). lia. }
  destruct (nconst =? 0); valid_goal; exact Hnew.
Qed.

Ltac valid_leaf Hr :=
  injection Hr as <-;
  first [apply pushes_valid_replace_load_const; assumption | valid_goal].

Lemma pushes_valid_unaryop op instr s s' :
  pushes_valid s -> unaryop op instr s = Return s' -> pushes_valid s'.
Proof.
  intros Hv Hr. unfold unaryop in Hr. handler_cases Hr; valid_leaf Hr.
Qed.

Lemma pushes_valid_binop op instr s s' :
  pushes_valid s -> binop op instr s = Return s' -> pushes_valid s'.
Proof.
  intros Hv Hr. unfold binop in Hr. handler_cases Hr; valid_leaf Hr.
Qed.

Lemma pushes_valid_container instr container_type s s' :
  pushes_valid s ->
  replace_container_of_consts instr container_type s = Return s' ->
  pushes_valid s'.
Proof.
  intros Hv Hr. unfold replace_container_of_consts in Hr.
  handler_cases Hr; valid_leaf Hr.
Qed.

Lemma pushes_valid_unpack_seq instr s s' :
  pushes_valid s -> build_tuple_unpack_seq instr s = Return s' ->
  pushes_valid s'.
Proof.
  intros Hv Hr. unfold build_tuple_unpack_seq in Hr.
  handler_cases Hr; valid_leaf Hr.
Qed.

Lemma pushes_valid_build_tuple instr container_type s r :
  pushes_valid s -> build_tuple instr container_type s = Return r ->
  pushes_valid (fst r) /\ (snd r = false -> fst r = s).
Proof.
  intros Hv Hr. unfold build_tuple in Hr.
  destruct (as_int (arg instr)) as [n|]; cbn [bind] in Hr; [|discriminate].
  destruct (n >? len (const_stack s)).
  { injection Hr as <-. split; [assumption|reflexivity]. }
  destruct (getitem (self_block s) (index s)) as [nx|]; cbn [bind] in Hr;
    [|discriminate].
  destruct (negb (String.eqb (name nx) "COMPARE_OP")).
  { injection Hr as <-. split; [assumption|reflexivity]. }
  destruct (negb _).
  { injection Hr as <-. split; [assumption|reflexivity]. }
  destruct (replace_container_of_consts instr container_type s) as [t|] eqn:Ht;
    cbn [bind] in Hr; [|discriminate].
  injection Hr as <-. split; [|discriminate].
  eapply pushes_valid_container; eassumption.
Qed.

Lemma pushes_valid_jump instr s s' :
  pushes_valid s -> name instr <> "LOAD_CONST" ->
  optimize_jump_to_cond_jump instr s = Return s' -> pushes_valid s'.
Proof.
  intros Hv Hne Hr. unfold optimize_jump_to_cond_jump in Hr.
  handler_cases Hr; valid_leaf Hr.
  - eapply Forall_setitem;
      [eassumption|apply pushes_valid_self_block, Hv|].
    eapply valid_target; eassumption.
  - eapply Forall_setitem;
      [eassumption|apply pushes_valid_self_block, Hv|].
    apply valid_other_name. cbn [name replace].
    destruct (String.eqb (name instr) "JUMP_FORWARD");
      [discriminate|exact Hne].
Qed.

Lemma cond_jump_is_no_push i :
  is_cond_jump i = true -> name i <> "LOAD_CONST".
Proof.
  unfold is_cond_jump, name_in. cbn [existsb]. intros Hc Hn.
  rewrite Hn in Hc. discriminate.
Qed.

Lemma pushes_valid_jump_if_or_pop instr s s' :
  pushes_valid s -> name instr <> "LOAD_CONST" ->
  jump_if_or_pop instr s = Return s' -> pushes_valid s'.
Proof.
  intros Hv Hne Hr. unfold jump_if_or_pop in Hr.
  destruct (code_getitem (code s) (arg instr)) as [t|]; cbn [bind] in Hr;
    [|discriminate].
  destruct (getitem t 0) as [ti|]; cbn [bind] in Hr; [|discriminate].
  destruct (is_cond_jump ti) eqn:Hc; cbn [negb] in Hr;
    [|eapply pushes_valid_jump; eassumption].
  handler_cases Hr; valid_leaf Hr;
    (eapply Forall_setitem;
     [eassumption|apply pushes_valid_self_block, Hv|]);
    apply valid_other_name; cbn [name replace].
  - apply cond_jump_is_no_push, Hc.
  - destruct (name_in (name instr) JUMPS_ON_TRUE); discriminate.
Qed.

Lemma pushes_valid_handler (meth : handler) instr s s' :
  In (name instr, meth) eval_methods ->
  pushes_valid s -> meth instr s = Return s' -> pushes_valid s'.
Proof.
  unfold eval_methods. cbn [In]. intros Hin Hv Hr.
  repeat (destruct Hin as [Hin|Hin];
          [injection Hin as Hnm <-;
           first [ eapply pushes_valid_unaryop; [exact Hv|exact Hr]
                 | eapply pushes_valid_binop; [exact Hv|exact Hr]
                 | eapply pushes_valid_jump_if_or_pop;
                   [exact Hv|rewrite <- Hnm; discriminate|exact Hr]
                 | idtac ]
          |]); try contradiction.
  - unfold eval_LOAD_CONST in Hr. handler_cases Hr; valid_leaf Hr.
  - unfold eval_UNARY_NOT in Hr. handler_cases Hr; valid_leaf Hr.
  - unfold eval_RETURN_VALUE in Hr. handler_cases Hr; valid_leaf Hr.
    eapply Forall_delitem; [eassumption|apply pushes_valid_self_block, Hv].
  - unfold eval_BUILD_TUPLE in Hr.
    destruct (negb (truthy (arg instr))); [valid_leaf Hr|].
    destruct (as_int (arg instr)) as [n|]; cbn [bind] in Hr; [|discriminate].
    destruct (n <=? len (const_stack s));
      [eapply pushes_valid_container; eassumption
      |eapply pushes_valid_unpack_seq; eassumption].
  - unfold eval_BUILD_LIST in Hr.
    destruct (negb (truthy (arg instr))); [valid_leaf Hr|].
    destruct (build_tuple instr builtin_tuple s) as [r|] eqn:Hbt;
      cbn [bind] in Hr; [|discriminate].
    destruct (pushes_valid_build_tuple _ _ _ _ Hv Hbt) as [Hf Hsame].
    destruct (snd r); cbn [negb] in Hr.
    + injection Hr as <-. exact Hf.
    + rewrite (Hsame eq_refl) in Hr.
      exact (pushes_valid_unpack_seq _ _ _ Hv Hr).
  - unfold eval_BUILD_SET in Hr.
    destruct (negb (truthy (arg instr))); [valid_leaf Hr|].
    destruct (build_tuple instr builtin_frozenset s) as [r|] eqn:Hbt;
      cbn [bind] in Hr; [|discriminate].
    destruct (pushes_valid_build_tuple _ _ _ _ Hv Hbt) as [Hf _].
    injection Hr as <-. exact Hf.
  - unfold eval_COMPARE_OP in Hr. handler_cases Hr; valid_leaf Hr.
    apply valid_other_name. cbn [name replace_arg]. rewrite <- Hnm.
    discriminate.
Qed.

Lemma getattr_eval_push : getattr_eval "LOAD_CONST" = Some eval_LOAD_CONST.
Proof. reflexivity. Qed.

Lemma pushes_valid_visit instr s s' :
  pushes_valid s -> visit instr s = Return s' -> pushes_valid s'.
Proof.
  unfold visit. cbn zeta. intros Hv Hr.
  set (e := set_in_consts _ false) in Hr.
  assert (He : pushes_valid e) by (subst e; destruct (negb _); exact Hv).
  destruct (getattr_eval (name instr)) as [meth|] eqn:Hm.
  - eapply pushes_valid_handler;
      [eapply getattr_eval_In, Hm|exact He|exact Hr].
  - destruct (is_jump instr).
    + eapply pushes_valid_jump; [exact He| |exact Hr].
      intro Hn. rewrite Hn, getattr_eval_push in Hm. discriminate.
    + injection Hr as <-. exact He.
Qed.

Lemma pushes_valid_step s s' :
  pushes_valid s -> step s = Return s' -> pushes_valid s'.
Proof.
  unfold step. intros Hv Hr.
  destruct (getitem (self_block s) (index s)) as [instr|]; cbn [bind] in Hr;
    [|discriminate].
  eapply pushes_valid_visit; [|exact Hr]. exact Hv.
Qed.

Lemma pushes_valid_loop fuel s s' :
  pushes_valid s -> disassemble_loop fuel s = Some (Return s') ->
  pushes_valid s'.
Proof.
  revert s. induction fuel as [|fuel IH]; intros s Hv Hr; [discriminate|].
  cbn [disassemble_loop] in Hr.
  destruct (index s <? len (self_block s)).
  - destruct (step s) as [t|] eqn:Ht; [|discriminate].
    eapply IH; [eapply pushes_valid_step; eassumption|exact Hr].
  - injection Hr as <-. exact Hv.
Qed.

Lemma pushes_valid_blocks_loop n fuel s s' :
  pushes_valid s -> blocks_loop n fuel s = Some (Return s') ->
  pushes_valid s'.
Proof.
  revert s. induction n as [|n IH]; intros s Hv Hr; cbn [blocks_loop] in Hr;
    destruct (block_index s <? len (blocks (code s)));
    try discriminate; try (injection Hr as <-; exact Hv).
  destruct (next_block fuel s) as [[t|]|] eqn:Ht; try discriminate.
  eapply IH; [|exact Hr].
  unfold next_block, optimize_block in Ht.
  eapply pushes_valid_loop; [|exact Ht]. exact Hv.
Qed.

End ValidFacts.

(** ** Reads from the end of the constant stack *)

Section TailFacts.
Context {A : Type}.

Lemma getitem_raises (l : list A) (i : Z) (e : exn) :
  getitem l i = Raise e -> e = IndexError.
Proof.
  unfold getitem, norm_index.
  destruct (_ || _); cbn [bind]; [congruence|].
  destruct (nth_error _ _); congruence.
Qed.

Lemma getitem_past_end (l : list A) (i : Z) :
  len l <= i -> getitem l i = Raise IndexError.
Proof.
  intro Hi. unfold getitem, norm_index. pose proof (len_nonneg l).
  destruct (Z.ltb_spec i 0); [lia|].
  destruct (Z.ltb_spec i 0); [lia|].
  destruct (Z.leb_spec (len l) i); [reflexivity|lia].
Qed.

Lemma getitem_last_split (l : list A) (x : A) :
  getitem l (-1) = Return x -> exists stk, l = stk ++ [x].
Proof.
  intro Hx. pose proof (getitem_neg_len l 1 x ltac:(lia) Hx) as Hlen.
  destruct (split_tail l 1) as (a & b & -> & Hb & _); [lia|].
  destruct b as [|z [|z' b]];
    try (unfold len in Hb; cbn [List.length] in Hb; lia).
  change (-1) with (- (1 + len (@nil A))) in Hx.
  rewrite (getitem_from_end a z []) in Hx. injection Hx as ->.
  exists a. reflexivity.
Qed.

Lemma getitem_last_two (l : list A) (x y : A) :
  getitem l (-2) = Return x -> getitem l (-1) = Return y ->
  exists stk, l = stk ++ [x; y].
Proof.
  intros Hx Hy. pose proof (getitem_neg_len l 2 x ltac:(lia) Hx) as Hlen.
  destruct (split_tail l 2) as (a & b & -> & Hb & _); [lia|].
  destruct b as [|p [|q [|z b]]];
    try (unfold len in Hb; cbn [List.length] in Hb; lia).
  change (-2) with (- (1 + len [q])) in Hx.
  rewrite (getitem_from_end a p [q]) in Hx. injection Hx as ->.
  change (a ++ [x; q]) with (a ++ [x] ++ [q]) in Hy.
  rewrite app_assoc in Hy.
  change (-1) with (- (1 + len (@nil A))) in Hy.
  rewrite (getitem_from_end (a ++ [x]) q []) in Hy. injection Hy as ->.
  exists a. reflexivity.
Qed.

(** The last [len tl] items of a list. *)
Lemma slice_from_tail (l tl : list A) :
  0 < len tl -> slice_from (l ++ tl) (- len tl) = tl.
Proof.
  intro Htl. unfold slice_from, adjust. pose proof (len_nonneg l).
  rewrite len_app. destruct (Z.ltb_spec (- len tl) 0); [|lia].
  rewrite Z.max_r by lia.
  replace (- len tl + (len l + len tl)) with (len l) by lia.
  rewrite to_nat_len, skipn_app, skipn_all, Nat.sub_diag. reflexivity.
Qed.

End TailFacts.

(** ** The two folding helpers and the exceptions of the host *)

Section FoldErrors.
Context {H : Host}.

(** X7: [binop] never raises, whatever the operator does: it returns with
    the optimizer as it was, or the constant stack ends with two values
    [l], [r] on which the operator returned a value that passes the size
    guard, and it returns the optimizer after the fold. *)
Theorem binop_never_raises
    (op : value -> value -> result value) (instr : Instr)
    (self : Optimizer) :
  binop op instr self = Return self
  \/ exists (stk : list value) (l r v : value),
       const_stack self = stk ++ [l; r]
       /\ op l r = Return v
       /\ check_result v = true
       /\ binop op instr self = Return (replace_load_const 2 instr v self).
Proof.
  unfold binop.
  destruct (getitem (const_stack self) (-2)) as [l|e] eqn:Hl; cbn [bind].
  - destruct (getitem (const_stack self) (-1)) as [r|e] eqn:Hr; cbn [bind].
    + destruct (op l r) as [v|e] eqn:Hop; [|left; reflexivity].
      destruct (check_result v) eqn:Hchk; cbn [negb]; [|left; reflexivity].
      right. destruct (getitem_last_two _ _ _ Hl Hr) as (stk & Hstk).
      exists stk, l, r, v. auto.
    + apply getitem_raises in Hr as ->. left. reflexivity.
  - apply getitem_raises in Hl as ->. left. reflexivity.
Qed.

(** X8: [unaryop] raises exactly when the constant stack is not empty
    and the operator, applied to its top, raises an exception other than
    [IndexError]; the exception is then the operator's. *)
Theorem unaryop_raises_iff
    (op : value -> result value) (instr : Instr) (self : Optimizer)
    (e : exn) :
  unaryop op instr self = Raise e
  <-> exists (stk : list value) (v : value),
        const_stack self = stk ++ [v]
        /\ op v = Raise e
        /\ e <> IndexError.
Proof.
  split.
  - unfold unaryop.
    destruct (getitem (const_stack self) (-1)) as [v|e'] eqn:Hv;
      cbn [bind].
    + destruct (getitem_last_split _ _ Hv) as (stk & Hstk).
      destruct (op v) as [res|e'] eqn:Hop.
      * destruct (negb (check_result res)); discriminate.
      * intro Hr. exists stk, v. split; [assumption|].
        destruct e'; try discriminate; injection Hr as <-;
          (split; [exact Hop|discriminate]).
    + apply getitem_raises in Hv as ->. discriminate.
  - intros (stk & v & Hstk & Hop & He).
    exact (unaryop_raises op instr self stk v e Hstk Hop He).
Qed.

End FoldErrors.

(** ** The loop over a block, seen from the function that runs it *)

Section LoopFacts.
Context {H : Host}.

Lemma loop_reaches_trans start s s' :
  loop_reaches start s -> loop_reaches s s' -> loop_reaches start s'.
Proof.
  intros Hs Hs'. induction Hs' as [|t t' _ IH Hlt Hstep]; [assumption|].
  eapply reaches_step; eassumption.
Qed.

(** The state a finished loop returns is one the loop went through, and
    its cursor is at or past the end of the block. *)
Lemma disassemble_loop_reaches fuel s s' :
  disassemble_loop fuel s = Some (Return s') ->
  loop_reaches s s' /\ len (self_block s') <= index s'.
Proof.
  revert s. induction fuel as [|fuel IH]; intros s Hr; [discriminate|].
  cbn [disassemble_loop] in Hr.
  destruct (Z.ltb_spec (index s) (len (self_block s))) as [Hlt|Hge].
  - destruct (step s) as [t|] eqn:Ht; [|discriminate].
    destruct (IH t Hr) as [Hreach Hend]. split; [|exact Hend].
    eapply loop_reaches_trans; [|exact Hreach].
    eapply reaches_step; [apply reaches_start|exact Hlt|exact Ht].
  - injection Hr as <-. split; [apply reaches_start|lia].
Qed.

(** One turn of the loop with the flag set: the stack is kept and the
    handler of the instruction at the cursor is called. *)
Lemma step_calls self instr meth :
  getitem (self_block self) (index self) = Return instr ->
  in_consts self = true ->
  getattr_eval (name instr) = Some meth ->
  step self
  = meth instr (set_in_consts (set_index self (index self + 1)) false).
Proof.
  intros Hget Hflag Hm. unfold step. rewrite Hget. cbn [bind].
  unfold visit. cbn zeta. cbn [in_consts set_index].
  rewrite Hflag. cbn [negb]. rewrite Hm. reflexivity.
Qed.

(** With the flag set, the values on top of the stack are those of the
    pushes just before the instruction at the cursor. *)
Lemma tracked_tail_split start self instr stk tl :
  block_ok start -> index start = 0 -> in_consts start = false ->
  loop_reaches start self ->
  getitem (self_block self) (index self) = Return instr ->
  in_consts self = true ->
  const_stack self = stk ++ tl ->
  block_bound self
  /\ exists pre pushes post : Block,
       self_block self = pre ++ pushes ++ instr :: post
       /\ index self = len pre + len pushes
       /\ len pushes = len tl
       /\ Forall is_push pushes.
Proof.
  intros Hok Hidx0 Hflag0 Hreach Hget Hflag Hstk.
  destruct (loop_reaches_inv _ _ (clean_start_inv _ Hok Hidx0 Hflag0) Hreach)
    as (Hoks & Hidx & Htr).
  split; [apply Hoks|].
  destruct (Htr Hflag) as (pre & pushes & post & Hblk & Hi & Hlen & Hp).
  assert (Hstklen : len (const_stack self) = len stk + len tl)
    by (rewrite Hstk, len_app; reflexivity).
  pose proof (len_nonneg stk) as Hstk0. pose proof (len_nonneg tl) as Htl0.
  destruct (split_tail pushes (len tl)) as (ps & pt & Hps & Hpt & _); [lia|].
  destruct (getitem_split _ _ _ Hidx Hget) as (pre0 & post0 & Hsplit & Hpre0).
  subst pushes. rewrite len_app in Hi.
  exists (pre ++ ps), pt, post0.
  apply Forall_app in Hp as [_ Hp].
  repeat split; [|rewrite len_app; lia|assumption|assumption].
  rewrite Hblk in Hsplit. rewrite Hblk.
  replace (pre ++ (ps ++ pt) ++ post) with ((pre ++ ps ++ pt) ++ post)
    in Hsplit by (rewrite <- !app_assoc; reflexivity).
  apply app_eq_len in Hsplit as [_ ->]; [|rewrite !len_app; lia].
  rewrite <- !app_assoc. reflexivity.
Qed.

(** The fold of the [len tl] values on top of the stack, called from the
    handler of [instr]. *)
Lemma fold_at_cursor self instr res pre pushes post stk tl :
  block_bound self ->
  self_block self = pre ++ pushes ++ instr :: post ->
  index self = len pre + len pushes ->
  len pushes = len tl ->
  const_stack self = stk ++ tl ->
  let self' :=
    replace_load_const (len tl) instr res
      (set_in_consts (set_index self (index self + 1)) false) in
  self_block self'
  = pre ++ [replace instr "LOAD_CONST" (ArgInt (len (consts (code self))))]
        ++ post
  /\ consts (code self') = consts (code self) ++ [res]
  /\ const_stack self' = stk ++ [res]
  /\ index self' = len pre + 1
  /\ in_consts self' = true.
Proof.
  intros Hb Hblk Hidx Hlen Hstk.
  apply (replace_load_const_spec (len tl) instr res
           (set_in_consts (set_index self (index self + 1)) false)
           pre (pushes ++ [instr]) post stk tl).
  - exact Hb.
  - change (self_block (set_in_consts (set_index self (index self + 1)) false))
      with (self_block self).
    rewrite Hblk, <- app_assoc. reflexivity.
  - cbn [index set_in_consts set_index]. rewrite Hidx, len_app.
    change (len [instr]) with 1. lia.
  - rewrite len_app. change (len [instr]) with 1. lia.
  - exact Hstk.
  - reflexivity.
Qed.

Lemma getattr_unary nm op :
  In (nm, op) unary_operators -> getattr_eval nm = Some (unaryop op).
Proof.
  unfold unary_operators. intro Hin.
  repeat (destruct Hin as [Hin|Hin];
          [injection Hin as <- <-; reflexivity|]).
  destruct Hin.
Qed.

Lemma unaryop_spec op instr self stk v r :
  const_stack self = stk ++ [v] ->
  op v = Return r ->
  check_result r = true ->
  unaryop op instr self = Return (replace_load_const 1 instr r self).
Proof.
  intros Hstk Hop Hchk. unfold unaryop. rewrite Hstk.
  change (-1) with (- (1 + len (@nil value))).
  rewrite (getitem_from_end stk v []). cbn [bind].
  rewrite Hop, Hchk. reflexivity.
Qed.

Lemma replace_container_of_consts_spec instr container self stk tl v :
  arg instr = ArgInt (len tl) ->
  0 < len tl ->
  const_stack self = stk ++ tl ->
  container tl = Return v ->
  replace_container_of_consts instr container self
  = Return (replace_load_const (len tl) instr v self).
Proof.
  intros Harg Hpos Hstk Hv. unfold replace_container_of_consts.
  rewrite Harg. cbn [as_int bind].
  rewrite Hstk, slice_from_tail by assumption. rewrite Hv. reflexivity.
Qed.

End LoopFacts.

(** ** The tracked constants are the constants of the pushes *)

Section ValueFacts.
Context {H : Host}.

Ltac handler_cases Hr :=
  repeat match type of Hr with
         | bind ?m _ = Return _ =>
             let E := fresh "E" in
             destruct m eqn:E; cbn [bind] in Hr; [|discriminate Hr]
         | Raise _ = Return _ => discriminate Hr
         | context [match ?x with _ => _ end] =>
             let E := fresh "E" in destruct x eqn:E
         end.

Lemma getitem_app_l {A : Type} (l ext : list A) (n : Z) (v : A) :
  0 <= n -> getitem l n = Return v -> getitem (l ++ ext) n = Return v.
Proof.
  intros Hn Hget.
  destruct (getitem_split _ _ _ Hn Hget) as (pre & post & -> & <-).
  rewrite <- app_assoc. cbn [app]. apply getitem_middle.
Qed.

Lemma loads_grow cs ext i v : loads cs i v -> loads (cs ++ ext) i v.
Proof.
  intros (Hnm & n & Harg & Hn & Hget). split; [exact Hnm|].
  exists n. split; [exact Harg|]. split; [exact Hn|].
  apply getitem_app_l; assumption.
Qed.

Lemma Forall2_len {A B : Type} (R : A -> B -> Prop) l l' :
  Forall2 R l l' -> len l = len l'.
Proof. intro Hf. unfold len. now rewrite (Forall2_length Hf). Qed.

Lemma Forall2_split_tail {A B : Type} (R : A -> B -> Prop)
    (ps pt : list A) (stk tl : list B) :
  Forall2 R (ps ++ pt) (stk ++ tl) -> len pt = len tl ->
  Forall2 R ps stk /\ Forall2 R pt tl.
Proof.
  intros Hf Hlen.
  apply Forall2_app_inv_l in Hf as (l1 & l2 & H1 & H2 & Heq).
  apply app_eq_len in Heq as [-> ->]; [auto|].
  pose proof (Forall2_len _ _ _ H1) as Hl1.
  pose proof (Forall2_len _ _ _ H2) as Hl2.
  assert (Hall : len (stk ++ tl) = len (l1 ++ l2)) by now rewrite Heq.
  rewrite !len_app in Hall. lia.
Qed.

(** Entering the handler with the values of the pushes known. *)
Lemma step_entry_values s instr :
  tracker_inv s -> values_inv s ->
  getitem (self_block s) (index s) = Return instr ->
  entry_values
    (set_in_consts
       (if negb (in_consts (set_index s (index s + 1)))
        then set_const_stack (set_index s (index s + 1)) []
        else set_index s (index s + 1)) false)
    instr.
Proof.
  intros (Hok & Hidx & _) Hval Hget.
  destruct (getitem_split _ _ _ Hidx Hget) as (pre0 & post0 & Hblk & Hpre0).
  cbn [in_consts set_index].
  destruct (in_consts s) eqn:Hflag; cbn [negb].
  - destruct (Hval Hflag) as (pre & pushes & post & Hb & Hi & Hf).
    exists pre, pushes, post0.
    unfold self_block in *.
    cbn [block blocks index const_stack code set_in_consts set_index] in *.
    rewrite Hb, app_assoc in Hblk.
    apply app_eq_len in Hblk as [Hpre Hpost];
      [|rewrite len_app; lia].
    rewrite Hb, Hpost. repeat split; auto. lia.
  - exists pre0, [], post0.
    unfold self_block in *.
    cbn [block blocks index const_stack code set_in_consts set_const_stack
         set_index app] in *.
    rewrite Hblk. repeat split; [|constructor].
    change (len (@nil Instr)) with 0. lia.
Qed.

Lemma eval_LOAD_CONST_values e instr s' :
  entry_values e instr -> wf_instr instr -> name instr = "LOAD_CONST" ->
  eval_LOAD_CONST instr e = Return s' -> tracked_values s'.
Proof.
  intros (pre & pushes & post & Hblk & Hidx & Hf) Hwf Hnm Hr.
  unfold eval_LOAD_CONST in Hr. cbn zeta in Hr.
  destruct (arg instr) as [|n|] eqn:Harg; cbn [as_int bind] in Hr;
    try discriminate.
  destruct (getitem (consts (code (set_in_consts e true))) n) as [v|] eqn:Hv;
    cbn [bind] in Hr; [|discriminate].
  injection Hr as <-.
  exists pre, (pushes ++ [instr]), post.
  unfold self_block in *.
  cbn [block blocks index const_stack code set_in_consts set_const_stack]
    in *.
  rewrite Hblk, <- !app_assoc, !len_app. cbn [app].
  change (len [instr]) with 1.
  split; [reflexivity|]. split; [lia|].
  apply Forall2_app; [exact Hf|].
  constructor; [|constructor].
  split; [exact Hnm|]. exists n. split; [exact Harg|].
  unfold wf_instr in Hwf. rewrite Harg in Hwf. split; [exact Hwf|exact Hv].
Qed.

Lemma replace_load_const_values nconst e instr res :
  block_bound e -> entry_values e instr ->
  0 <= nconst <= len (const_stack e) ->
  tracked_values (replace_load_const nconst instr res e).
Proof.
  intros Hb (pre & pushes & post & Hblk & Hidx & Hf) Hn.
  pose proof (Forall2_len _ _ _ Hf) as Hlen.
  destruct (split_tail (const_stack e) nconst Hn)
    as (stk & tl & Hstk & Htl & _).
  destruct (split_tail pushes nconst ltac:(lia)) as (ps & pt & Hps & Hpt & _).
  destruct (replace_load_const_spec nconst instr res e (pre ++ ps)
              (pt ++ [instr]) post stk tl)
    as (Hblk' & Hconsts' & Hstk' & Hidx' & _).
  - exact Hb.
  - rewrite Hblk, Hps, <- !app_assoc. reflexivity.
  - rewrite Hidx, Hps, !len_app. change (len [instr]) with 1. lia.
  - rewrite len_app. change (len [instr]) with 1. lia.
  - exact Hstk.
  - exact Htl.
  - rewrite Hps, Hstk in Hf.
    apply Forall2_split_tail in Hf as [Hps' _]; [|lia].
    exists pre, (ps ++ [replace instr "LOAD_CONST"
                          (ArgInt (len (consts (code e))))]), post.
    rewrite Hblk', Hconsts', Hstk', Hidx', <- !app_assoc, !len_app.
    change (len [replace instr "LOAD_CONST"
                   (ArgInt (len (consts (code e))))]) with 1.
    split; [reflexivity|]. split; [lia|].
    apply Forall2_app.
    + eapply Forall2_impl; [|exact Hps']. intros i v. apply loads_grow.
    + constructor; [|constructor].
      split; [reflexivity|]. exists (len (consts (code e))).
      split; [reflexivity|]. split; [apply len_nonneg|].
      apply getitem_middle.
Qed.

Lemma outcome_quiet e instr s' :
  quiet_post e s' -> handler_outcome e instr s'.
Proof. intros (_ & _ & Hflag). left. exact Hflag. Qed.

Lemma outcome_same e instr : handler_outcome e instr e.
Proof. left. reflexivity. Qed.

Lemma unaryop_outcome op e instr s' :
  unaryop op instr e = Return s' -> handler_outcome e instr s'.
Proof.
  intro Hr. unfold unaryop in Hr.
  destruct (getitem (const_stack e) (-1)) as [v|err] eqn:Hv; cbn [bind] in Hr.
  - apply (getitem_neg_len _ 1) in Hv; [|lia].
    handler_cases Hr; injection Hr as <-; try apply outcome_same.
    right. right. eexists 1, _. split; [lia|reflexivity].
  - handler_cases Hr; injection Hr as <-; apply outcome_same.
Qed.

Lemma binop_outcome op e instr s' :
  binop op instr e = Return s' -> handler_outcome e instr s'.
Proof.
  intro Hr. unfold binop in Hr.
  destruct (getitem (const_stack e) (-2)) as [l|err] eqn:Hl; cbn [bind] in Hr.
  - apply (getitem_neg_len _ 2) in Hl; [|lia].
    handler_cases Hr; injection Hr as <-; try apply outcome_same.
    right. right. eexists 2, _. split; [lia|reflexivity].
  - handler_cases Hr; injection Hr as <-; apply outcome_same.
Qed.

Lemma replace_container_of_consts_outcome container_type e instr s' :
  wf_instr instr ->
  (exists n, arg instr = ArgInt n /\ n <= len (const_stack e)) ->
  replace_container_of_consts instr container_type e = Return s' ->
  handler_outcome e instr s'.
Proof.
  intros Hwf (n & Harg & Hn) Hr. unfold replace_container_of_consts in Hr.
  rewrite Harg in Hr. cbn [as_int bind] in Hr.
  handler_cases Hr. injection Hr as <-.
  right. right. eexists n, _. split; [|reflexivity].
  unfold wf_instr in Hwf. rewrite Harg in Hwf. lia.
Qed.

Lemma build_tuple_outcome container_type e instr r :
  wf_instr instr ->
  build_tuple instr container_type e = Return r ->
  handler_outcome e instr (fst r) /\ (snd r = false -> fst r = e).
Proof.
  intros Hwf Hr. unfold build_tuple in Hr.
  destruct (arg instr) as [|n|] eqn:Harg; cbn [as_int bind] in Hr;
    try discriminate.
  destruct (Z.gtb_spec n (len (const_stack e))).
  { injection Hr as <-. split; [apply outcome_same|reflexivity]. }
  handler_cases Hr; injection Hr as <-; cbn [fst snd];
    try (split; [apply outcome_same|reflexivity]).
  split; [|discriminate].
  eapply replace_container_of_consts_outcome; [exact Hwf| |eassumption].
  exists n. split; [assumption|lia].
Qed.

Lemma dispatch_outcome e instr s' :
  block_ok e -> wf_instr instr ->
  match getattr_eval (name instr) with
  | Some meth => meth instr e
  | None =>
      if is_jump instr then optimize_jump_to_cond_jump instr e
      else Return e
  end = Return s' ->
  handler_outcome e instr s'.
Proof.
  intros Hok Hwf Hr.
  destruct (getattr_eval (name instr)) as [meth|] eqn:Hmeth.
  - apply getattr_eval_In in Hmeth. unfold eval_methods in Hmeth.
    cbn [In] in Hmeth.
    repeat (destruct Hmeth as [Hmeth|Hmeth];
            [injection Hmeth as Hnm <-;
             first [ eapply unaryop_outcome; exact Hr
                   | eapply binop_outcome; exact Hr
                   | apply outcome_quiet;
                     first [ eapply eval_UNARY_NOT_quiet; eassumption
                           | eapply eval_RETURN_VALUE_quiet; eassumption
                           | eapply eval_COMPARE_OP_quiet; eassumption
                           | eapply jump_if_or_pop_quiet; eassumption ]
                   | idtac ]
            |]); try contradiction.
    + right. left. split; [symmetry; exact Hnm|exact Hr].
    + unfold eval_BUILD_TUPLE in Hr.
      destruct (negb (truthy (arg instr)));
        [injection Hr as <-; apply outcome_same|].
      destruct (arg instr) as [|n|] eqn:Harg; cbn [as_int bind] in Hr;
        try discriminate.
      destruct (Z.leb_spec n (len (const_stack e))).
      * eapply replace_container_of_consts_outcome;
          [exact Hwf| |eassumption].
        exists n. split; [assumption|lia].
      * apply outcome_quiet.
        eapply build_tuple_unpack_seq_quiet; eassumption.
    + unfold eval_BUILD_LIST in Hr.
      destruct (negb (truthy (arg instr)));
        [injection Hr as <-; apply outcome_same|].
      destruct (build_tuple instr builtin_tuple e) as [r|] eqn:Hbt;
        cbn [bind] in Hr; [|discriminate].
      destruct (build_tuple_outcome _ _ _ _ Hwf Hbt) as [Hout Hsame].
      destruct (snd r); cbn [negb] in Hr.
      * injection Hr as <-. exact Hout.
      * rewrite (Hsame eq_refl) in Hr. apply outcome_quiet.
        eapply build_tuple_unpack_seq_quiet; eassumption.
    + unfold eval_BUILD_SET in Hr.
      destruct (negb (truthy (arg instr)));
        [injection Hr as <-; apply outcome_same|].
      destruct (build_tuple instr builtin_frozenset e) as [r|] eqn:Hbt;
        cbn [bind] in Hr; [|discriminate].
      destruct (build_tuple_outcome _ _ _ _ Hwf Hbt) as [Hout _].
      injection Hr as <-. exact Hout.
  - destruct (is_jump instr).
    + apply outcome_quiet.
      eapply optimize_jump_to_cond_jump_quiet; eassumption.
    + injection Hr as <-. apply outcome_same.
Qed.

Lemma step_values s s' :
  tracker_inv s -> values_inv s -> step s = Return s' -> values_inv s'.
Proof.
  intros Hinv Hval Hr. unfold step in Hr.
  destruct (getitem (self_block s) (index s)) as [instr|] eqn:Hget;
    cbn [bind] in Hr; [|discriminate].
  unfold visit in Hr. cbn zeta in Hr.
  pose proof (step_entry s instr Hinv Hget) as (Hok & Hwf & Hflag & _).
  pose proof (step_entry_values s instr Hinv Hval Hget) as Hev.
  destruct (dispatch_outcome _ _ _ Hok Hwf Hr)
    as [Hsame|[[Hnm Hload]|(n & res & Hn & ->)]].
  - intro Hon. rewrite Hsame, Hflag in Hon. discriminate.
  - intros _. eapply eval_LOAD_CONST_values; eassumption.
  - intros _. apply replace_load_const_values; [apply Hok|exact Hev|exact Hn].
Qed.

Lemma loop_reaches_values start s :
  tracker_inv start -> values_inv start -> loop_reaches start s ->
  values_inv s.
Proof.
  intros Hinv Hval Hreach.
  induction Hreach as [|s s' Hreach IH _ Hstep]; [assumption|].
  eapply step_values; [|exact IH|exact Hstep].
  eapply loop_reaches_inv; eassumption.
Qed.

End ValueFacts.

(** ** Programs without a jump that [jump_if_or_pop] handles *)

Section Plain.
Context {H : Host}.

Ltac handler_cases Hr :=
  repeat match type of Hr with
         | bind ?m _ = Return _ =>
             let E := fresh "E" in
             destruct m eqn:E; cbn [bind] in Hr; [|discriminate Hr]
         | Raise _ = Return _ => discriminate Hr
         | context [match ?x with _ => _ end] =>
             let E := fresh "E" in destruct x eqn:E
         end.

Lemma plain_self_block s :
  plain_prog s -> Forall (plain) (self_block s).
Proof.
  intro Hv. unfold self_block.
  destruct (nth_in_or_default (block s) (blocks (code s)) []) as [Hin| ->];
    [|constructor].
  unfold plain_prog, plain_code in Hv. rewrite Forall_forall in Hv. auto.
Qed.

Lemma plain_set_self_block s b :
  plain_prog s -> Forall (plain) b ->
  plain_prog (set_self_block s b).
Proof.
  intros Hv Hb. unfold plain_prog, plain_code. cbn.
  apply Forall_list_update; assumption.
Qed.

Lemma plain_read s i instr :
  plain_prog s -> getitem (self_block s) i = Return instr ->
  plain instr.
Proof.
  intros Hv Hget. apply getitem_In in Hget.
  pose proof (plain_self_block s Hv) as Hall.
  rewrite Forall_forall in Hall. auto.
Qed.

Lemma plain_target s a t ti :
  plain_prog s -> code_getitem (code s) a = Return t ->
  getitem t 0 = Return ti -> plain ti.
Proof.
  intros Hall Ht Hti. unfold code_getitem in Ht.
  destruct a as [| |l]; try discriminate.
  destruct (nth_error (blocks (code s)) (label_block l)) as [b|] eqn:Hb;
    [|discriminate].
  injection Ht as <-. apply getitem_In in Hti.
  apply nth_error_In in Hb. unfold plain_prog, plain_code in Hall.
  rewrite Forall_forall in Hall.
  specialize (Hall b Hb). apply (Forall_skipn _ (label_offset l)) in Hall.
  rewrite Forall_forall in Hall. auto.
Qed.

Ltac plain_goal :=
  repeat match goal with
         | |- plain_prog (set_index ?s _) => change (plain_prog s)
         | |- plain_prog (set_const_stack ?s _) => change (plain_prog s)
         | |- plain_prog (set_in_consts ?s _) => change (plain_prog s)
         | |- plain_prog (set_consts ?s _) => change (plain_prog s)
         | |- plain_prog (set_self_block _ _) => apply plain_set_self_block
         | |- Forall _ (setslice _ _ _ _) => apply Forall_setslice
         | |- Forall _ (delslice _ _ _) => apply Forall_setslice
         | |- Forall (plain) (self_block _) => apply plain_self_block
         | |- Forall _ [] => constructor
         | |- Forall _ (_ :: _) => constructor
         | |- plain_prog _ => assumption
         | |- plain (replace ?i (name ?i) _) => change (plain i)
         | |- plain (replace _ _ _) => reflexivity
         | |- plain (replace_arg ?i _) => change (plain i)
         | |- plain (mkInstr _ _) => reflexivity
         | |- plain _ => assumption
         end.

Lemma plain_replace_load_const nconst instr res s :
  plain_prog s -> plain instr ->
  plain_prog (replace_load_const nconst instr res s).
Proof.
  intros Hv Hi. unfold replace_load_const. cbn zeta.
  destruct (nconst =? 0); plain_goal.
Qed.

Ltac plain_leaf Hr :=
  injection Hr as <-;
  first [apply plain_replace_load_const; assumption | plain_goal].

Lemma plain_unaryop op instr s s' :
  plain_prog s -> plain instr ->
  unaryop op instr s = Return s' -> plain_prog s'.
Proof.
  intros Hv Hi Hr. unfold unaryop in Hr. handler_cases Hr; plain_leaf Hr.
Qed.

Lemma plain_binop op instr s s' :
  plain_prog s -> plain instr ->
  binop op instr s = Return s' -> plain_prog s'.
Proof.
  intros Hv Hi Hr. unfold binop in Hr. handler_cases Hr; plain_leaf Hr.
Qed.

Lemma plain_container instr container_type s s' :
  plain_prog s -> plain instr ->
  replace_container_of_consts instr container_type s = Return s' ->
  plain_prog s'.
Proof.
  intros Hv Hi Hr. unfold replace_container_of_consts in Hr.
  handler_cases Hr; plain_leaf Hr.
Qed.

Lemma plain_unpack_seq instr s s' :
  plain_prog s -> plain instr ->
  build_tuple_unpack_seq instr s = Return s' -> plain_prog s'.
Proof.
  intros Hv Hi Hr. unfold build_tuple_unpack_seq in Hr.
  handler_cases Hr; plain_leaf Hr.
Qed.

Lemma plain_build_tuple instr container_type s r :
  plain_prog s -> plain instr ->
  build_tuple instr container_type s = Return r ->
  plain_prog (fst r) /\ (snd r = false -> fst r = s).
Proof.
  intros Hv Hi Hr. unfold build_tuple in Hr.
  destruct (as_int (arg instr)) as [n|]; cbn [bind] in Hr; [|discriminate].
  destruct (n >? len (const_stack s)).
  { injection Hr as <-. split; [assumption|reflexivity]. }
  destruct (getitem (self_block s) (index s)) as [nx|]; cbn [bind] in Hr;
    [|discriminate].
  destruct (negb (String.eqb (name nx) "COMPARE_OP")).
  { injection Hr as <-. split; [assumption|reflexivity]. }
  destruct (negb _).
  { injection Hr as <-. split; [assumption|reflexivity]. }
  destruct (replace_container_of_consts instr container_type s) as [t|] eqn:Ht;
    cbn [bind] in Hr; [|discriminate].
  injection Hr as <-. split; [|discriminate].
  eapply plain_container; eassumption.
Qed.

Lemma plain_jump instr s s' :
  plain_prog s -> plain instr ->
  optimize_jump_to_cond_jump instr s = Return s' -> plain_prog s'.
Proof.
  intros Hv Hi Hr. unfold optimize_jump_to_cond_jump in Hr.
  handler_cases Hr; plain_leaf Hr.
  - eapply Forall_setitem; [eassumption|apply plain_self_block, Hv|].
    eapply plain_target; eassumption.
  - eapply Forall_setitem; [eassumption|apply plain_self_block, Hv|].
    destruct (String.eqb (name instr) "JUMP_FORWARD");
      [reflexivity|exact Hi].
Qed.

Lemma plain_handler (meth : handler) instr s s' :
  In (name instr, meth) eval_methods ->
  plain_prog s -> plain instr ->
  meth instr s = Return s' -> plain_prog s'.
Proof.
  unfold eval_methods. cbn [In]. intros Hin Hv Hi Hr.
  repeat (destruct Hin as [Hin|Hin];
          [injection Hin as Hnm <-;
           first [ eapply plain_unaryop; [exact Hv|exact Hi|exact Hr]
                 | eapply plain_binop; [exact Hv|exact Hi|exact Hr]
                 | exfalso; unfold plain, is_or_pop in Hi;
                   rewrite <- Hnm in Hi; discriminate Hi
                 | idtac ]
          |]); try contradiction.
  - unfold eval_LOAD_CONST in Hr. handler_cases Hr; plain_leaf Hr.
  - unfold eval_UNARY_NOT in Hr. handler_cases Hr; plain_leaf Hr.
  - unfold eval_RETURN_VALUE in Hr. handler_cases Hr; plain_leaf Hr.
    eapply Forall_delitem; [eassumption|apply plain_self_block, Hv].
  - unfold eval_BUILD_TUPLE in Hr.
    destruct (negb (truthy (arg instr))); [plain_leaf Hr|].
    destruct (as_int (arg instr)) as [n|]; cbn [bind] in Hr; [|discriminate].
    destruct (n <=? len (const_stack s));
      [exact (plain_container _ _ _ _ Hv Hi Hr)
      |exact (plain_unpack_seq _ _ _ Hv Hi Hr)].
  - unfold eval_BUILD_LIST in Hr.
    destruct (negb (truthy (arg instr))); [plain_leaf Hr|].
    destruct (build_tuple instr builtin_tuple s) as [r|] eqn:Hbt;
      cbn [bind] in Hr; [|discriminate].
    destruct (plain_build_tuple _ _ _ _ Hv Hi Hbt) as [Hf Hsame].
    destruct (snd r); cbn [negb] in Hr.
    + injection Hr as <-. exact Hf.
    + rewrite (Hsame eq_refl) in Hr.
      exact (plain_unpack_seq _ _ _ Hv Hi Hr).
  - unfold eval_BUILD_SET in Hr.
    destruct (negb (truthy (arg instr))); [plain_leaf Hr|].
    destruct (build_tuple instr builtin_frozenset s) as [r|] eqn:Hbt;
      cbn [bind] in Hr; [|discriminate].
    destruct (plain_build_tuple _ _ _ _ Hv Hi Hbt) as [Hf _].
    injection Hr as <-. exact Hf.
  - unfold eval_COMPARE_OP in Hr. handler_cases Hr; plain_leaf Hr.
Qed.

Lemma plain_visit instr s s' :
  plain_prog s -> plain instr ->
  visit instr s = Return s' -> plain_prog s'.
Proof.
  unfold visit. cbn zeta. intros Hv Hi Hr.
  set (e := set_in_consts _ false) in Hr.
  assert (He : plain_prog e) by (subst e; destruct (negb _); exact Hv).
  destruct (getattr_eval (name instr)) as [meth|] eqn:Hm.
  - eapply plain_handler;
      [eapply getattr_eval_In, Hm|exact He|exact Hi|exact Hr].
  - destruct (is_jump instr).
    + eapply plain_jump; [exact He|exact Hi|exact Hr].
    + injection Hr as <-. exact He.
Qed.

Lemma plain_step s s' : plain_prog s -> step s = Return s' -> plain_prog s'.
Proof.
  unfold step. intros Hv Hr.
  destruct (getitem (self_block s) (index s)) as [instr|] eqn:Hget;
    cbn [bind] in Hr; [|discriminate].
  eapply plain_visit; [|eapply plain_read; eassumption|exact Hr]. exact Hv.
Qed.

Lemma plain_loop fuel s s' :
  plain_prog s -> disassemble_loop fuel s = Some (Return s') -> plain_prog s'.
Proof.
  revert s. induction fuel as [|fuel IH]; intros s Hv Hr; [discriminate|].
  cbn [disassemble_loop] in Hr.
  destruct (index s <? len (self_block s)).
  - destruct (step s) as [t|] eqn:Ht; [|discriminate].
    eapply IH; [eapply plain_step; eassumption|exact Hr].
  - injection Hr as <-. exact Hv.
Qed.

Lemma plain_blocks_loop n fuel s s' :
  plain_prog s -> blocks_loop n fuel s = Some (Return s') -> plain_prog s'.
Proof.
  revert s. induction n as [|n IH]; intros s Hv Hr; cbn [blocks_loop] in Hr;
    destruct (block_index s <? len (blocks (code s)));
    try discriminate; try (injection Hr as <-; exact Hv).
  destruct (next_block fuel s) as [[t|]|] eqn:Ht; try discriminate.
  eapply IH; [|exact Hr].
  unfold next_block, optimize_block in Ht.
  eapply plain_loop; [|exact Ht]. exact Hv.
Qed.

End Plain.


(** ** What holds in every block entered with the flag off *)

Section CleanBlock.
Context {H : Host}.

(** X1: in the loop over a block entered with the flag [in_consts] off,
    the cursor is never negative and, whenever the flag is set, the
    tracked constants are those of the pushes just before the cursor: the
    block is [pre ++ pushes ++ post] with the cursor after [pushes], every
    instruction of [pushes] is a [LOAD_CONST], there are as many of them
    as values on the constant stack, and the k-th value of the stack is
    the constant of the table that the k-th push names. *)
Theorem flag_set_means_pushes_before_cursor (start self : Optimizer) :
  block_ok start ->
  index start = 0 ->
  in_consts start = false ->
  loop_reaches start self ->
  0 <= index self
  /\ (in_consts self = true ->
      exists pre pushes post : Block,
        self_block self = pre ++ pushes ++ post
        /\ index self = len pre + len pushes
        /\ len pushes = len (const_stack self)
        /\ Forall is_push pushes
        /\ Forall2 (loads (consts (code self))) pushes (const_stack self)).
Proof.
  intros Hok Hidx Hflag Hreach.
  pose proof (clean_start_inv _ Hok Hidx Hflag) as Hinv.
  destruct (loop_reaches_inv _ _ Hinv Hreach) as (_ & Hi & _).
  split; [exact Hi|]. intro Hon.
  assert (Hval : values_inv start).
  { intro Hon'. rewrite Hflag in Hon'. discriminate. }
  destruct (loop_reaches_values _ _ Hinv Hval Hreach Hon)
    as (pre & pushes & post & Hblk & Hcur & Hf).
  exists pre, pushes, post.
  split; [exact Hblk|]. split; [exact Hcur|].
  split; [exact (Forall2_len _ _ _ Hf)|]. split; [|exact Hf].
  clear - Hf. induction Hf as [|i v ps vs Hl _ IH]; constructor.
  - destruct Hl as [Hnm _]. exact Hnm.
  - exact IH.
Qed.

(** X2: [optimize_block], called with the flag [in_consts] off for a
    block of the program whose integer arguments are not negative, never
    returns with that block longer than it was. *)
Theorem optimize_block_never_grows
    (fuel b : nat) (self self' : Optimizer) :
  (b < List.length (blocks (code self)))%nat ->
  Forall (Forall wf_instr) (blocks (code self)) ->
  in_consts self = false ->
  optimize_block fuel b self = Some (Return self') ->
  len (nth b (blocks (code self')) []) <= len (nth b (blocks (code self)) []).
Proof.
  intros Hb Hwf Hflag Hr. unfold optimize_block in Hr.
  pose proof (same_frame_loop _ _ _ Hr) as (_ & Hblk & _).
  apply disassemble_loop_reaches in Hr as [Hreach _].
  apply loop_never_grows in Hreach;
    [|split; [exact Hb|exact Hwf]|reflexivity|exact Hflag].
  unfold block_len, self_block in Hreach. rewrite Hblk in Hreach.
  exact Hreach.
Qed.

(** X4: called for a program none of whose instructions is a
    [JUMP_IF_FALSE_OR_POP] or a [JUMP_IF_TRUE_OR_POP] (so that
    [create_label] is not called), [optimize_block] rewrites the block it
    is called for and no other: every other block of the program is the
    same list afterwards, the program has as many blocks as before, and
    still none of its instructions is one of these two jumps. *)
Theorem optimize_block_rewrites_only_its_block
    (fuel b : nat) (self self' : Optimizer) :
  plain_code (code self) ->
  optimize_block fuel b self = Some (Return self') ->
  List.length (blocks (code self')) = List.length (blocks (code self))
  /\ (forall b' : nat,
       b' <> b ->
       nth_error (blocks (code self')) b' = nth_error (blocks (code self)) b')
  /\ plain_code (code self').
Proof.
  intros Hp Hr. unfold optimize_block in Hr.
  split; [|split].
  - apply same_frame_loop in Hr as (Hlen & _). exact Hlen.
  - apply same_frame_loop in Hr as (_ & _ & _ & _ & Hother). exact Hother.
  - exact (plain_loop fuel (set_index (set_block self b) 0) self' Hp Hr).
Qed.

(** X3: when [_optimize] returns for a program none of whose instructions
    is a [JUMP_IF_FALSE_OR_POP] or a [JUMP_IF_TRUE_OR_POP] (so that
    [create_label] is not called), the program has as many blocks as it
    had, its constants table is the one it had with constants appended
    (no entry is removed, moved or replaced), the block counter is the
    number of blocks, and still none of its instructions is one of these
    two jumps. *)
Theorem pass_keeps_blocks_and_appends_consts
    (fuel : nat) (c : Code) (self : Optimizer) :
  plain_code c ->
  _optimize fuel c = Some (Return self) ->
  List.length (blocks (code self)) = List.length (blocks c)
  /\ (exists ext : list value, consts (code self) = consts c ++ ext)
  /\ block_index self = len (blocks c)
  /\ plain_code (code self).
Proof.
  intros Hp Hr. unfold _optimize in Hr.
  pose proof (plain_blocks_loop _ _ (init c) self Hp Hr) as Hp'.
  apply blocks_loop_frame in Hr; [|cbn [block_index init]; apply len_nonneg].
  destruct Hr as (Hlen & Hext & Hidx).
  repeat split; assumption.
Qed.

(** X5: if every [LOAD_CONST] of a program carries an index of its
    constants table, so does every [LOAD_CONST] of the program
    [_optimize] returns with, those the folds inserted included. *)
Theorem pass_keeps_pushes_in_range
    (fuel : nat) (c : Code) (self : Optimizer) :
  code_valid c ->
  _optimize fuel c = Some (Return self) ->
  code_valid (code self).
Proof.
  intros Hv Hr. unfold _optimize in Hr.
  exact (pushes_valid_blocks_loop _ _ (init c) self Hv Hr).
Qed.

(** X9: in the loop over a block that was entered with the flag
    [in_consts] off, whenever the instruction at the cursor is
    [UNARY_POSITIVE], [UNARY_NEGATIVE] or [UNARY_INVERT], the flag is set
    and the constant stack ends with [v]: the instruction before the
    cursor is a push, and when the host operation returns [r] and [r]
    passes the size guard, the step replaces the push and the unary
    instruction by one [LOAD_CONST] of [r], appended to the constants
    table, and [r] takes the place of [v] on the constant stack. *)
Theorem unary_fold_replaces_push
    (start self : Optimizer) (instr : Instr)
    (op : value -> result value) (stk : list value) (v r : value) :
  block_ok start ->
  index start = 0 ->
  in_consts start = false ->
  loop_reaches start self ->
  getitem (self_block self) (index self) = Return instr ->
  In (name instr, op) unary_operators ->
  in_consts self = true ->
  const_stack self = stk ++ [v] ->
  op v = Return r ->
  check_result r = true ->
  exists (pre post : Block) (push : Instr) (self' : Optimizer),
    self_block self = pre ++ [push; instr] ++ post
    /\ index self = len pre + 1
    /\ name push = "LOAD_CONST"
    /\ step self = Return self'
    /\ self_block self'
       = pre ++ [replace instr "LOAD_CONST"
                   (ArgInt (len (consts (code self))))] ++ post
    /\ consts (code self') = consts (code self) ++ [r]
    /\ const_stack self' = stk ++ [r]
    /\ index self' = len pre + 1
    /\ in_consts self' = true.
Proof.
  intros Hok Hidx0 Hflag0 Hreach Hget Hin Hflag Hstk Hop Hchk.
  destruct (tracked_tail_split _ _ _ _ _ Hok Hidx0 Hflag0 Hreach Hget Hflag
              Hstk)
    as (Hb & pre & pushes & post & Hblk & Hi & Hlen & Hp).
  destruct pushes as [|push [|push' pushes]];
    try (unfold len in Hlen; cbn [List.length] in Hlen; lia).
  inversion Hp as [|? ? Hpush _]; subst.
  exists pre, post, push,
    (replace_load_const 1 instr r
       (set_in_consts (set_index self (index self + 1)) false)).
  split; [exact Hblk|]. split; [exact Hi|]. split; [exact Hpush|].
  split.
  - rewrite (step_calls self instr (unaryop op) Hget Hflag
               (getattr_unary _ _ Hin)).
    apply (unaryop_spec op instr _ stk v r); assumption.
  - apply (fold_at_cursor self instr r pre [push] post stk [v]);
      assumption.
Qed.

(** X10: in the loop over a block that was entered with the flag
    [in_consts] off, whenever the instruction at the cursor is
    [BUILD_TUPLE n] with n > 0, the flag is set and the constant stack
    ends with the [n] values [tl]: the [n] instructions before the cursor
    are pushes, and the step replaces them and [BUILD_TUPLE] by one
    [LOAD_CONST] of [tuple(tl)], appended to the constants table, which
    takes the place of [tl] on the constant stack.  The size guard of the
    unary and binary folds is not consulted: the tuple is folded whatever
    its length. *)
Theorem build_tuple_folds_tracked_constants
    (start self : Optimizer) (instr : Instr)
    (stk tl : list value) (v : value) :
  block_ok start ->
  index start = 0 ->
  in_consts start = false ->
  loop_reaches start self ->
  getitem (self_block self) (index self) = Return instr ->
  name instr = "BUILD_TUPLE" ->
  arg instr = ArgInt (len tl) ->
  0 < len tl ->
  in_consts self = true ->
  const_stack self = stk ++ tl ->
  builtin_tuple tl = Return v ->
  exists (pre pushes post : Block) (self' : Optimizer),
    self_block self = pre ++ pushes ++ instr :: post
    /\ index self = len pre + len tl
    /\ len pushes = len tl
    /\ Forall is_push pushes
    /\ step self = Return self'
    /\ self_block self'
       = pre ++ [replace instr "LOAD_CONST"
                   (ArgInt (len (consts (code self))))] ++ post
    /\ consts (code self') = consts (code self) ++ [v]
    /\ const_stack self' = stk ++ [v]
    /\ index self' = len pre + 1
    /\ in_consts self' = true.
Proof.
  intros Hok Hidx0 Hflag0 Hreach Hget Hnm Harg Hpos Hflag Hstk Hv.
  destruct (tracked_tail_split _ _ _ _ _ Hok Hidx0 Hflag0 Hreach Hget Hflag
              Hstk)
    as (Hb & pre & pushes & post & Hblk & Hi & Hlen & Hp).
  exists pre, pushes, post,
    (replace_load_const (len tl) instr v
       (set_in_consts (set_index self (index self + 1)) false)).
  split; [exact Hblk|]. split; [lia|]. split; [exact Hlen|].
  split; [exact Hp|]. split.
  - assert (Hm : getattr_eval (name instr) = Some eval_BUILD_TUPLE)
      by (rewrite Hnm; reflexivity).
    rewrite (step_calls self instr _ Hget Hflag Hm).
    unfold eval_BUILD_TUPLE. rewrite Harg. cbn [truthy as_int bind].
    destruct (Z.eqb_spec (len tl) 0) as [?|_]; [lia|]. cbn [negb].
    cbn [const_stack set_in_consts set_index]. rewrite Hstk at 1.
    rewrite len_app. pose proof (len_nonneg stk).
    destruct (Z.leb_spec (len tl) (len stk + len tl)) as [_|?]; [|lia].
    apply (replace_container_of_consts_spec instr builtin_tuple _ stk tl v);
      assumption.
  - apply (fold_at_cursor self instr v pre pushes post stk tl); assumption.
Qed.

(** X11: in the loop over a block that was entered with the flag
    [in_consts] off, whenever the instruction at the cursor is
    [BUILD_LIST n] or [BUILD_SET n] with n > 0, it is followed by
    [COMPARE_OP] with [in] or [not in], the flag is set and the constant
    stack ends with the [n] values [tl]: the step replaces the [n] pushes
    before the cursor and the instruction by one [LOAD_CONST] of the
    tuple (for a list) or the frozenset (for a set) of [tl]; the
    comparison is kept. *)
Theorem membership_container_folds
    (start self : Optimizer) (instr nxt : Instr)
    (container : list value -> result value)
    (stk tl : list value) (v : value) :
  block_ok start ->
  index start = 0 ->
  in_consts start = false ->
  loop_reaches start self ->
  getitem (self_block self) (index self) = Return instr ->
  getitem (self_block self) (index self + 1) = Return nxt ->
  In (name instr, container) membership_containers ->
  arg instr = ArgInt (len tl) ->
  0 < len tl ->
  name nxt = "COMPARE_OP" ->
  arg nxt = ArgInt PyCmp_IN \/ arg nxt = ArgInt PyCmp_NOT_IN ->
  in_consts self = true ->
  const_stack self = stk ++ tl ->
  container tl = Return v ->
  exists (pre pushes post : Block) (self' : Optimizer),
    self_block self = pre ++ pushes ++ instr :: nxt :: post
    /\ index self = len pre + len tl
    /\ len pushes = len tl
    /\ Forall is_push pushes
    /\ step self = Return self'
    /\ self_block self'
       = pre ++ [replace instr "LOAD_CONST"
                   (ArgInt (len (consts (code self))))] ++ nxt :: post
    /\ consts (code self') = consts (code self) ++ [v]
    /\ const_stack self' = stk ++ [v]
    /\ index self' = len pre + 1
    /\ in_consts self' = true.
Proof.
  intros Hok Hidx0 Hflag0 Hreach Hget Hnxt Hin Harg Hpos Hcmp Hmem Hflag Hstk
         Hv.
  destruct (tracked_tail_split _ _ _ _ _ Hok Hidx0 Hflag0 Hreach Hget Hflag
              Hstk)
    as (Hb & pre & pushes & post & Hblk & Hi & Hlen & Hp).
  assert (Hpost : exists post', post = nxt :: post').
  { rewrite Hblk, Hi in Hnxt.
    replace (pre ++ pushes ++ instr :: post)
      with ((pre ++ pushes ++ [instr]) ++ post) in Hnxt
      by (rewrite <- !app_assoc; reflexivity).
    replace (len pre + len pushes + 1)
      with (len (pre ++ pushes ++ [instr])) in Hnxt
      by (rewrite !len_app; change (len [instr]) with 1; lia).
    destruct post as [|x post'].
    - rewrite app_nil_r, getitem_past_end in Hnxt by lia. discriminate.
    - rewrite getitem_middle in Hnxt. injection Hnxt as ->.
      exists post'. reflexivity. }
  destruct Hpost as (post' & ->).
  set (e := set_in_consts (set_index self (index self + 1)) false).
  assert (Hbt : build_tuple instr container e
                = Return (replace_load_const (len tl) instr v e, true)).
  { unfold build_tuple. rewrite Harg. cbn [as_int bind].
    subst e. cbn [const_stack self_block index set_in_consts set_index].
    change (self_block (set_in_consts (set_index self (index self + 1)) false))
      with (self_block self).
    rewrite Hstk at 1. rewrite len_app. pose proof (len_nonneg stk).
    destruct (Z.gtb_spec (len tl) (len stk + len tl)) as [?|_]; [lia|].
    rewrite Hnxt. cbn [bind]. rewrite Hcmp.
    cbn [String.eqb Ascii.eqb Bool.eqb negb].
    assert (Hm : argument_eqb (arg nxt) (ArgInt PyCmp_IN)
                 || argument_eqb (arg nxt) (ArgInt PyCmp_NOT_IN) = true)
      by (destruct Hmem as [-> | ->]; reflexivity).
    rewrite Hm. cbn [negb].
    rewrite (replace_container_of_consts_spec instr container _ stk tl v);
      try assumption. reflexivity. }
  exists pre, pushes, post', (replace_load_const (len tl) instr v e).
  split; [exact Hblk|]. split; [lia|]. split; [exact Hlen|].
  split; [exact Hp|]. split.
  - unfold membership_containers in Hin. cbn [In] in Hin.
    destruct Hin as [Hin|[Hin|[]]]; injection Hin as Hnm <-.
    + assert (Hm : getattr_eval (name instr) = Some eval_BUILD_LIST)
        by (rewrite <- Hnm; reflexivity).
      rewrite (step_calls self instr _ Hget Hflag Hm). fold e.
      unfold eval_BUILD_LIST. rewrite Harg. cbn [truthy].
      destruct (Z.eqb_spec (len tl) 0) as [?|_]; [lia|]. cbn [negb].
      rewrite Hbt. reflexivity.
    + assert (Hm : getattr_eval (name instr) = Some eval_BUILD_SET)
        by (rewrite <- Hnm; reflexivity).
      rewrite (step_calls self instr _ Hget Hflag Hm). fold e.
      unfold eval_BUILD_SET. rewrite Harg. cbn [truthy].
      destruct (Z.eqb_spec (len tl) 0) as [?|_]; [lia|]. cbn [negb].
      rewrite Hbt. reflexivity.
  - apply (fold_at_cursor self instr v pre pushes (nxt :: post') stk tl);
      assumption.
Qed.

End CleanBlock.

(** ** The handlers that look at the next instruction or at a jump
    target *)

Section SetItem.
Context {A : Type}.

Lemma setitem_middle (pre : list A) (x y : A) (post : list A) :
  setitem (pre ++ x :: post) (len pre) y = Return (pre ++ y :: post).
Proof.
  unfold setitem, norm_index.
  pose proof (len_nonneg pre) as Hpre. pose proof (len_nonneg post) as Hpost.
  rewrite len_app, len_cons.
  destruct (Z.ltb_spec (len pre) 0); [lia|].
  destruct (Z.ltb_spec (len pre) 0); [lia|].
  destruct (Z.leb_spec (len pre + (1 + len post)) (len pre)); [lia|].
  cbn [orb bind]. rewrite to_nat_len.
  rewrite firstn_app, firstn_all, Nat.sub_diag, firstn_O, app_nil_r.
  replace (S (List.length pre)) with (List.length pre + 1)%nat by lia.
  rewrite skipn_app, skipn_all2 by lia.
  replace (List.length pre + 1 - List.length pre)%nat with 1%nat by lia.
  reflexivity.
Qed.

End SetItem.

Section Neighbours.
Context {H : Host}.

(** X12: [eval_COMPARE_OP] never raises.  It returns with the cursor,
    the constant stack, the constants table and the flag as they were,
    and with the optimizer as it was when the comparison is the last
    instruction of its block. *)
Theorem compare_op_never_raises (instr : Instr) (self : Optimizer) :
  exists self' : Optimizer,
    eval_COMPARE_OP instr self = Return self'
    /\ index self' = index self
    /\ const_stack self' = const_stack self
    /\ consts (code self') = consts (code self)
    /\ in_consts self' = in_consts self
    /\ (len (self_block self) <= index self -> self' = self).
Proof.
  unfold eval_COMPARE_OP.
  destruct (NOT_PyCmp (arg instr)) as [m|];
    [|exists self; repeat split].
  destruct (getitem (self_block self) (index self)) as [nxt|e] eqn:Hget.
  - destruct (negb (String.eqb (name nxt) "UNARY_NOT"));
      [exists self; repeat split|].
    eexists. split; [reflexivity|]. repeat split.
    intro Hend. rewrite getitem_past_end in Hget by assumption.
    discriminate.
  - apply getitem_raises in Hget as ->. exists self. repeat split.
Qed.

(** X13: when [COMPARE_OP] with [in], [not in], [is] or [is not] is
    immediately followed in its block by [UNARY_NOT], the pair is
    replaced by the comparison with the negated operator, at the source
    line of the comparison; the cursor is not moved back, so it is left
    after the new instruction. *)
Theorem compare_not_fusion
    (self : Optimizer) (instr nxt : Instr) (pre post : Block) (m : Z) :
  name instr = "COMPARE_OP" ->
  NOT_PyCmp (arg instr) = Some m ->
  name nxt = "UNARY_NOT" ->
  block_bound self ->
  self_block self = pre ++ [instr; nxt] ++ post ->
  index self = len pre + 1 ->
  exists (meth : handler) (self' : Optimizer),
    getattr_eval (name instr) = Some meth
    /\ meth instr self = Return self'
    /\ self_block self'
       = pre ++ [{| lineno := lineno instr; name := "COMPARE_OP";
                    arg := ArgInt m |}] ++ post
    /\ index self' = len pre + 1
    /\ const_stack self' = const_stack self
    /\ consts (code self') = consts (code self).
Proof.
  intros Hnm Hneg Hnxt Hb Hblk Hidx.
  exists eval_COMPARE_OP. eexists.
  split; [rewrite Hnm; reflexivity|].
  unfold eval_COMPARE_OP. rewrite Hneg, Hblk, Hidx.
  cbn [app]. rewrite getitem_second. rewrite Hnxt.
  cbn [String.eqb Ascii.eqb Bool.eqb negb].
  replace (len pre + 1 - 1) with (len pre) by lia.
  replace (len pre + 1 + 1) with (len pre + 2) by lia.
  rewrite setslice_pair.
  split; [reflexivity|].
  split; [rewrite self_block_set_self_block by assumption;
          unfold replace_arg; rewrite Hnm; reflexivity|].
  repeat split. cbn. lia.
Qed.

(** X14: the table [NOT_PyCmp] is an involution without fixed point:
    the negation of the negation of a comparison operator is the
    operator, and the negation is never the operator itself. *)
Theorem NOT_PyCmp_involutive (n m : Z) :
  NOT_PyCmp (ArgInt n) = Some m ->
  NOT_PyCmp (ArgInt m) = Some n /\ m <> n.
Proof.
  unfold NOT_PyCmp, PyCmp_IN, PyCmp_NOT_IN, PyCmp_IS, PyCmp_IS_NOT.
  destruct (Z.eqb_spec n 6) as [->|_];
    [intros [= <-]; split; [reflexivity|lia]|].
  destruct (Z.eqb_spec n 7) as [->|_];
    [intros [= <-]; split; [reflexivity|lia]|].
  destruct (Z.eqb_spec n 8) as [->|_];
    [intros [= <-]; split; [reflexivity|lia]|].
  destruct (Z.eqb_spec n 9) as [->|_];
    [intros [= <-]; split; [reflexivity|lia]|].
  discriminate.
Qed.

(** X15: the handlers that read the instruction after the cursor without
    a bound check raise [IndexError] when the cursor is at the end of the
    block: [eval_UNARY_NOT] always, [eval_BUILD_TUPLE n] when 1 <= n <= 3
    and fewer than [n] constants are tracked, [eval_BUILD_LIST n] when
    n >= 1 and [n] constants are tracked or n <= 3, [eval_BUILD_SET n]
    when n >= 1 and [n] constants are tracked. *)
Theorem unchecked_lookahead_raises_at_block_end (self : Optimizer) :
  len (self_block self) <= index self ->
  (forall instr : Instr, eval_UNARY_NOT instr self = Raise IndexError)
  /\ (forall (instr : Instr) (n : Z),
        arg instr = ArgInt n -> 1 <= n <= 3 ->
        len (const_stack self) < n ->
        eval_BUILD_TUPLE instr self = Raise IndexError)
  /\ (forall (instr : Instr) (n : Z),
        arg instr = ArgInt n -> 1 <= n ->
        n <= len (const_stack self) \/ n <= 3 ->
        eval_BUILD_LIST instr self = Raise IndexError)
  /\ (forall (instr : Instr) (n : Z),
        arg instr = ArgInt n -> 1 <= n ->
        n <= len (const_stack self) ->
        eval_BUILD_SET instr self = Raise IndexError).
Proof.
  intro Hend.
  pose proof (getitem_past_end (self_block self) (index self) Hend) as Hget.
  assert (Htruthy : forall instr n, arg instr = ArgInt n -> 1 <= n ->
            negb (truthy (arg instr)) = false).
  { intros instr n Harg Hn. rewrite Harg. cbn [truthy].
    destruct (Z.eqb_spec n 0); [lia|reflexivity]. }
  assert (Hbt : forall instr n container,
            arg instr = ArgInt n -> n <= len (const_stack self) ->
            build_tuple instr container self = Raise IndexError).
  { intros instr n container Harg Hle. unfold build_tuple. rewrite Harg.
    cbn [as_int bind].
    destruct (Z.gtb_spec n (len (const_stack self))); [lia|].
    rewrite Hget. reflexivity. }
  assert (Hus : forall instr n, arg instr = ArgInt n -> 1 <= n <= 3 ->
            build_tuple_unpack_seq instr self = Raise IndexError).
  { intros instr n Harg Hn. unfold build_tuple_unpack_seq. rewrite Harg.
    cbn [as_int bind].
    destruct (Z.leb_spec 1 n); [|lia].
    destruct (Z.leb_spec n 3); [|lia].
    cbn [andb negb]. rewrite Hget. reflexivity. }
  split; [intro instr; unfold eval_UNARY_NOT; rewrite Hget; reflexivity|].
  split; [|split].
  - intros instr n Harg Hn Hlt. unfold eval_BUILD_TUPLE.
    rewrite (Htruthy instr n Harg) by lia. rewrite Harg.
    cbn [as_int bind].
    destruct (Z.leb_spec n (len (const_stack self))); [lia|].
    exact (Hus instr n Harg Hn).
  - intros instr n Harg Hn Hor. unfold eval_BUILD_LIST.
    rewrite (Htruthy instr n Harg Hn).
    destruct (Z.le_gt_cases n (len (const_stack self))) as [Hle|Hgt].
    + rewrite (Hbt instr n _ Harg Hle). reflexivity.
    + destruct Hor as [?|Hle]; [lia|].
      unfold build_tuple. rewrite Harg. cbn [as_int bind].
      destruct (Z.gtb_spec n (len (const_stack self))); [|lia].
      cbn [bind snd fst negb]. apply (Hus instr n Harg). lia.
  - intros instr n Harg Hn Hle. unfold eval_BUILD_SET.
    rewrite (Htruthy instr n Harg Hn).
    rewrite (Hbt instr n _ Harg Hle). reflexivity.
Qed.

(** X16: a conditional jump handled by [jump_if_or_pop] whose target is a
    conditional jump [t] that jumps on the same truth value is replaced,
    at its source line, by a jump with the name and the target of [t],
    and the cursor is moved back onto it; the constant stack and the
    other instructions of the block are left as they are. *)
Theorem cond_jump_to_cond_jump
    (self : Optimizer) (instr t : Instr) (pre post rest : Block) :
  block_bound self ->
  self_block self = pre ++ instr :: post ->
  index self = len pre + 1 ->
  code_getitem (code self) (arg instr) = Return (t :: rest) ->
  is_cond_jump t = true ->
  name_in (name t) JUMPS_ON_TRUE = name_in (name instr) JUMPS_ON_TRUE ->
  exists (new : Instr) (self' : Optimizer),
    jump_if_or_pop instr self = Return self'
    /\ self_block self' = pre ++ new :: post
    /\ index self' = len pre
    /\ const_stack self' = const_stack self
    /\ lineno new = lineno instr
    /\ name new = name t
    /\ arg new = arg t
    /\ is_cond_jump new = true
    /\ name_in (name new) JUMPS_ON_TRUE = name_in (name instr) JUMPS_ON_TRUE.
Proof.
  intros Hb Hblk Hidx Htarget Hcond Hpol.
  unfold jump_if_or_pop. cbn zeta. rewrite Htarget. cbn [bind].
  change (getitem (t :: rest) 0) with (Return t). cbn [bind].
  rewrite Hcond. cbn [negb].
  rewrite Hblk, Hidx.
  replace (len pre + 1 - 1) with (len pre) by lia.
  rewrite Hpol, Bool.eqb_reflx.
  rewrite setitem_middle. cbn [bind].
  eexists. eexists. split; [reflexivity|].
  split; [rewrite self_block_set_index,
            self_block_set_self_block by assumption; reflexivity|].
  split; [reflexivity|]. split; [reflexivity|]. split; [reflexivity|].
  split; [reflexivity|]. split; [reflexivity|].
  split; [exact Hcond|exact Hpol].
Qed.

(** X17: [optimize_jump_to_cond_jump], called for a jump whose label
    resolves to the instruction [t], touches nothing but the instruction
    before the cursor.  A [JUMP_FORWARD] or [JUMP_ABSOLUTE] to a
    [RETURN_VALUE] is replaced by [t] itself, source line included;
    otherwise a jump to a [JUMP_FORWARD] or [JUMP_ABSOLUTE] takes the
    target of [t], a [JUMP_FORWARD] becoming [JUMP_ABSOLUTE] and any
    other jump keeping its name; otherwise the jump is kept. *)
Theorem jump_to_return_or_jump
    (self : Optimizer) (instr t : Instr) (pre post rest : Block) :
  block_bound self ->
  self_block self = pre ++ instr :: post ->
  index self = len pre + 1 ->
  is_jump instr = true ->
  code_getitem (code self) (arg instr) = Return (t :: rest) ->
  exists (new : Instr) (self' : Optimizer),
    optimize_jump_to_cond_jump instr self = Return self'
    /\ self_block self' = pre ++ new :: post
    /\ index self' = index self
    /\ const_stack self' = const_stack self
    /\ consts (code self') = consts (code self)
    /\ new
       = if name_in (name instr) ["JUMP_FORWARD"; "JUMP_ABSOLUTE"]
            && String.eqb (name t) "RETURN_VALUE"
         then t
         else if name_in (name t) ["JUMP_FORWARD"; "JUMP_ABSOLUTE"]
         then {| lineno := lineno instr;
                 name := if String.eqb (name instr) "JUMP_FORWARD"
                         then "JUMP_ABSOLUTE" else name instr;
                 arg := arg t |}
         else instr.
Proof.
  intros Hb Hblk Hidx Hjump Htarget.
  unfold optimize_jump_to_cond_jump. cbn zeta.
  rewrite Hjump, Htarget. cbn [negb bind].
  change (getitem (t :: rest) 0) with (Return t). cbn [bind].
  rewrite Hblk, Hidx.
  replace (len pre + 1 - 1) with (len pre) by lia.
  destruct (name_in (name instr) ["JUMP_FORWARD"; "JUMP_ABSOLUTE"]
            && String.eqb (name t) "RETURN_VALUE").
  - rewrite setitem_middle. cbn [bind].
    eexists. eexists. split; [reflexivity|].
    split; [rewrite self_block_set_self_block by assumption; reflexivity|].
    repeat split; exact Hidx.
  - destruct (name_in (name t) ["JUMP_FORWARD"; "JUMP_ABSOLUTE"]).
    + rewrite setitem_middle. cbn [bind].
      eexists. eexists. split; [reflexivity|].
      split; [rewrite self_block_set_self_block by assumption; reflexivity|].
      repeat split; exact Hidx.
    + exists instr, self. split; [reflexivity|].
      split; [exact Hblk|]. repeat split; exact Hidx.
Qed.

End Neighbours.

(** ** The guard, exactly *)

Section Guard.
Context {H : Host}.

Lemma existsb_255 (l : list Z) : existsb (Z.eqb 255) l = true <-> In 255 l.
Proof.
  rewrite existsb_exists. split.
  - intros (x & Hin & Hx). apply Z.eqb_eq in Hx. subst x. exact Hin.
  - intro Hin. exists 255. split; [exact Hin|apply Z.eqb_refl].
Qed.

(** X18: with [MIMICK_C_IMPL] true, [check_bypass_optim] answers [True]
    exactly when the line-number table contains 255, or the code is
    longer than 32700, or the code is not empty and does not end with
    the [RETURN_VALUE] opcode; it answers [False] exactly when the table
    has no 255 and the code is not empty, at most 32700 long and ends
    with [RETURN_VALUE]; and on an empty code with no 255 in the table
    the read of the last byte raises [IndexError], which [optimize] lets
    through. *)
Theorem guard_when_mimicking (code_obj : code_object) :
  (check_bypass_optim true code_obj = Return true
   <-> In 255 (co_lnotab code_obj)
       \/ len (co_code code_obj) > 32700
       \/ (co_code code_obj <> []
           /\ last (co_code code_obj) 0 <> opmap_RETURN_VALUE))
  /\ (check_bypass_optim true code_obj = Return false
      <-> ~ In 255 (co_lnotab code_obj)
          /\ len (co_code code_obj) <= 32700
          /\ co_code code_obj <> []
          /\ last (co_code code_obj) 0 = opmap_RETURN_VALUE)
  /\ (forall e : exn,
        check_bypass_optim true code_obj = Raise e
        <-> e = IndexError
            /\ ~ In 255 (co_lnotab code_obj)
            /\ co_code code_obj = [])
  /\ (forall (disassemble : code_object -> result Code)
             (assemble : Code -> result code_object) (fuel : nat),
        ~ In 255 (co_lnotab code_obj) ->
        co_code code_obj = [] ->
        optimize disassemble assemble true fuel code_obj
        = Some (Raise IndexError)).
Proof.
  assert (Hcases :
    (In 255 (co_lnotab code_obj)
     /\ check_bypass_optim true code_obj = Return true)
    \/ (~ In 255 (co_lnotab code_obj)
        /\ ((len (co_code code_obj) > 32700
             /\ check_bypass_optim true code_obj = Return true)
            \/ (len (co_code code_obj) <= 32700
                /\ ((co_code code_obj = []
                     /\ check_bypass_optim true code_obj = Raise IndexError)
                    \/ (co_code code_obj <> []
                        /\ last (co_code code_obj) 0 <> opmap_RETURN_VALUE
                        /\ check_bypass_optim true code_obj = Return true)
                    \/ (co_code code_obj <> []
                        /\ last (co_code code_obj) 0 = opmap_RETURN_VALUE
                        /\ check_bypass_optim true code_obj
                           = Return false)))))).
  { unfold check_bypass_optim. cbn [negb].
    destruct (existsb (Z.eqb 255) (co_lnotab code_obj)) eqn:Hln.
    { left. split; [apply existsb_255, Hln|reflexivity]. }
    right. split; [rewrite <- existsb_255; congruence|].
    destruct (Z.gtb_spec (len (co_code code_obj)) 32700) as [Hgt|Hle].
    { left. split; [lia|reflexivity]. }
    right. split; [exact Hle|].
    destruct (co_code code_obj) as [|x cd] eqn:Hcode.
    { left. split; reflexivity. }
    right. rewrite getitem_last_byte by discriminate. cbn [bind].
    destruct (Z.eqb_spec (last (x :: cd) 0) opmap_RETURN_VALUE)
      as [Heq|Hne]; cbn [negb].
    - right. split; [discriminate|]. split; [exact Heq|reflexivity].
    - left. split; [discriminate|]. split; [exact Hne|reflexivity]. }
  destruct Hcases
    as [[Hin Hval]
       |[Hno [[Hgt Hval]
             |[Hle [[Hnil Hval]|[[Hne [Hlast Hval]]|[Hne [Hlast Hval]]]]]]]];
    rewrite ?Hval.
  - split; [split; auto|]. split; [split; [discriminate|tauto]|].
    split; [intro e; split; [discriminate|tauto]|]. tauto.
  - split; [split; auto|]. split; [split; [discriminate|intros; lia]|].
    split; [intro e; split; [discriminate|]|].
    + intros (_ & _ & Hc). rewrite Hc in Hgt.
      change (len (@nil Z)) with 0 in Hgt. lia.
    + intros ? ? ? _ Hc. rewrite Hc in Hgt.
      change (len (@nil Z)) with 0 in Hgt. lia.
  - split; [split; [discriminate|]|].
    { intros [?|[?|[? _]]]; [contradiction|lia|contradiction]. }
    split; [split; [discriminate|tauto]|].
    split; [intro e; split;
              [intros [= <-]; auto|intros (-> & _); reflexivity]|].
    intros disassemble assemble fuel _ _. unfold optimize.
    rewrite Hval. reflexivity.
  - split; [split; auto|]. split; [split; [discriminate|tauto]|].
    split; [intro e; split; [discriminate|tauto]|]. tauto.
  - split; [split; [discriminate|]|].
    { intros [?|[?|[_ ?]]]; [contradiction|lia|contradiction]. }
    split; [split; auto|].
    split; [intro e; split; [discriminate|tauto]|]. tauto.
Qed.

End Guard.

(** ** Programs the pass has nothing to do on *)

Section Inert.
Context {H : Host}.

Lemma getitem_in_range {A : Type} (l : list A) (i : Z) :
  0 <= i < len l -> exists x, getitem l i = Return x.
Proof.
  intros [Hlo Hhi]. unfold getitem, norm_index.
  destruct (Z.ltb_spec i 0); [lia|].
  destruct (Z.ltb_spec i 0); [lia|].
  destruct (Z.leb_spec (len l) i); [lia|]. cbn [orb bind].
  destruct (nth_error l (Z.to_nat i)) as [x|] eqn:Hn; [eauto|].
  apply nth_error_None in Hn. unfold len in Hhi. lia.
Qed.

Lemma inert_step s :
  Forall inert (self_block s) ->
  0 <= index s < len (self_block s) ->
  exists s', step s = Return s'
    /\ code s' = code s /\ block s' = block s
    /\ block_index s' = block_index s /\ index s' = index s + 1.
Proof.
  intros Hall Hi.
  destruct (getitem_in_range _ _ Hi) as (instr & Hget).
  pose proof (getitem_In _ _ _ Hget) as Hin.
  rewrite Forall_forall in Hall. destruct (Hall _ Hin) as [Hnone Hjump].
  unfold step. rewrite Hget. cbn [bind]. unfold visit. cbn zeta.
  rewrite Hnone, Hjump. eexists. split; [reflexivity|].
  cbn [in_consts set_index]. destruct (in_consts s); repeat split.
Qed.

Lemma inert_loop fuel s :
  Forall inert (self_block s) ->
  0 <= index s ->
  (Z.to_nat (len (self_block s) - index s) < fuel)%nat ->
  exists s', disassemble_loop fuel s = Some (Return s')
    /\ code s' = code s /\ block_index s' = block_index s.
Proof.
  revert s. induction fuel as [|fuel IH]; intros s Hall Hi Hfuel; [lia|].
  cbn [disassemble_loop].
  destruct (Z.ltb_spec (index s) (len (self_block s))) as [Hlt|Hge].
  - destruct (inert_step s Hall (conj Hi Hlt))
      as (t & -> & Hcode & Hblk & Hbi & Hidx).
    assert (Hsb : self_block t = self_block s)
      by (unfold self_block; rewrite Hcode, Hblk; reflexivity).
    destruct (IH t) as (s' & Hr & Hc' & Hb').
    + rewrite Hsb. exact Hall.
    + lia.
    + rewrite Hsb, Hidx. lia.
    + exists s'. split; [exact Hr|]. split; congruence.
  - exists s. repeat split.
Qed.

Lemma inert_blocks_loop n fuel s :
  Forall (Forall inert) (blocks (code s)) ->
  Forall (fun b : Block => (List.length b < fuel)%nat) (blocks (code s)) ->
  0 <= block_index s ->
  (Z.to_nat (len (blocks (code s)) - block_index s) <= n)%nat ->
  exists s', blocks_loop n fuel s = Some (Return s') /\ code s' = code s.
Proof.
  revert s. induction n as [|n IH]; intros s Hall Hfuel Hk Hn;
    cbn [blocks_loop];
    destruct (Z.ltb_spec (block_index s) (len (blocks (code s))))
      as [Hlt|Hge]; try lia; try (exists s; split; reflexivity).
  set (b := Z.to_nat (block_index s)).
  assert (Hb : (b < List.length (blocks (code s)))%nat)
    by (unfold len in Hlt; lia).
  assert (Hin : In (nth b (blocks (code s)) []) (blocks (code s)))
    by (apply nth_In, Hb).
  rewrite Forall_forall in Hall, Hfuel.
  destruct (inert_loop fuel
              (set_index (set_block (set_block_index s (block_index s + 1))
                            b) 0))
    as (t & Ht & Hcode & Hbi).
  - apply (Hall _ Hin).
  - cbn [index set_index]. lia.
  - change (self_block
              (set_index (set_block (set_block_index s (block_index s + 1))
                            b) 0))
      with (nth b (blocks (code s)) []).
    cbn [index set_index]. pose proof (Hfuel _ Hin). unfold len. lia.
  - unfold next_block, optimize_block. fold b. rewrite Ht.
    cbn [code block_index set_index set_block set_block_index] in Hcode, Hbi.
    destruct (IH t) as (s' & Hr & Hc').
    + rewrite Hcode, Forall_forall. exact Hall.
    + rewrite Hcode, Forall_forall. exact Hfuel.
    + lia.
    + rewrite Hcode, Hbi. lia.
    + exists s'. split; [exact Hr|congruence].
Qed.

(** X6: a program in which no instruction has a handler and none is a
    jump is returned as it is: with more fuel than its longest block has
    instructions, [_optimize] returns and the program it returns with is
    the one it was given. *)
Theorem inert_program_is_returned_unchanged (fuel : nat) (c : Code) :
  Forall (Forall inert) (blocks c) ->
  Forall (fun b : Block => (List.length b < fuel)%nat) (blocks c) ->
  exists self : Optimizer,
    _optimize fuel c = Some (Return self) /\ code self = c.
Proof.
  intros Hall Hfuel. unfold _optimize.
  apply (inert_blocks_loop _ fuel (init c)); cbn [code init block_index];
    try assumption; try lia.
  unfold len. lia.
Qed.

End Inert.

(** ** The loop over a block entered with the flag off ends *)

Section Measure.

Lemma builds_app (l l' : Block) : builds (l ++ l') = builds l + builds l'.
Proof. unfold builds. rewrite filter_app. apply len_app. Qed.

Lemma builds_nonneg (l : Block) : 0 <= builds l.
Proof. apply len_nonneg. Qed.

Lemma builds_cons (x : Instr) (l : Block) :
  builds (x :: l) = builds [x] + builds l.
Proof. exact (builds_app [x] l). Qed.

Lemma builds_one (x : Instr) : 0 <= builds [x] <= 1.
Proof.
  unfold builds. cbn [filter]. destruct (is_build x); cbv; split; discriminate.
Qed.

Lemma builds_same_name (x y : Instr) :
  name x = name y -> builds [x] = builds [y].
Proof.
  intro Hn. unfold builds. cbn [filter]. unfold is_build. rewrite Hn.
  destruct (name_in (name y) _); reflexivity.
Qed.

Lemma builds_le_len (l : Block) : builds l <= len l.
Proof.
  induction l as [|x l IH]; [cbv; discriminate|].
  rewrite builds_cons, len_cons. pose proof (builds_one x). lia.
Qed.

Lemma builds_firstn_skipn (n : nat) (l : Block) :
  builds (firstn n l) + builds (skipn n l) = builds l.
Proof. rewrite <- builds_app, firstn_skipn. reflexivity. Qed.

Lemma builds_skipn_mono (n m : nat) (l : Block) :
  (n <= m)%nat -> builds (skipn m l) <= builds (skipn n l).
Proof.
  intro Hnm. replace m with ((m - n) + n)%nat by lia.
  rewrite <- skipn_skipn.
  pose proof (builds_firstn_skipn (m - n) (skipn n l)).
  pose proof (builds_nonneg (firstn (m - n) (skipn n l))). lia.
Qed.

Lemma builds_setslice_le (l : Block) (a b : Z) (r : Block) :
  builds (setslice l a b r) <= builds l + builds r.
Proof.
  unfold setslice. cbn zeta. rewrite !builds_app.
  set (lo := adjust (len l) a). set (hi := Z.max lo (adjust (len l) b)).
  pose proof (builds_skipn_mono (Z.to_nat lo) (Z.to_nat hi) l ltac:(lia)).
  pose proof (builds_firstn_skipn (Z.to_nat lo) l). lia.
Qed.

Lemma builds_delitem_le (l : Block) (i : Z) (l' : Block) :
  delitem l i = Return l' -> builds l' <= builds l.
Proof.
  unfold delitem. destruct (norm_index l i) as [j|]; cbn [bind];
    [|discriminate].
  intro Heq.
  assert (Hl' : l' = firstn j l ++ skipn (S j) l) by congruence.
  rewrite Hl', builds_app.
  pose proof (builds_skipn_mono j (S j) l ltac:(lia)).
  pose proof (builds_firstn_skipn j l). lia.
Qed.

End Measure.

Section Termination.
Context {H : Host}.

Ltac handler_cases Hr :=
  repeat match type of Hr with
         | bind ?m _ = Return _ =>
             let E := fresh "E" in
             destruct m eqn:E; cbn [bind] in Hr; [|discriminate Hr]
         | Raise _ = Return _ => discriminate Hr
         | context [match ?x with _ => _ end] =>
             let E := fresh "E" in destruct x eqn:E
         end.

Lemma calm_post_refl e : calm e -> calm_post e e.
Proof. intro Hc. split; [exact Hc|lia]. Qed.

(** The block around the instruction being handled. *)
Lemma entry_shape e instr :
  entry e instr ->
  block_bound e
  /\ exists before after : Block,
       self_block e = before ++ instr :: after
       /\ index e = len before + 1.
Proof.
  intros (Hok & _ & _ & pre & pushes & post & Hblk & Hidx & _).
  split; [apply Hok|]. exists (pre ++ pushes), post.
  rewrite Hblk, <- app_assoc, len_app. split; [reflexivity|lia].
Qed.

Lemma calm_split e before instr after :
  calm e -> self_block e = before ++ instr :: after ->
  Forall (fun i => is_or_pop i = false) before
  /\ is_or_pop instr = false
  /\ Forall (fun i => is_or_pop i = false) after.
Proof.
  unfold calm. intros Hc Hblk. rewrite Hblk in Hc.
  apply Forall_app in Hc as [Hb Hc]. inversion Hc; subst. auto.
Qed.

Lemma getitem_after (before : Block) (x y : Instr) (after : Block) :
  getitem (before ++ x :: after) (len before + 1) = Return y ->
  exists after', after = y :: after'.
Proof.
  intro Hget.
  replace (before ++ x :: after) with ((before ++ [x]) ++ after) in Hget
    by (rewrite <- app_assoc; reflexivity).
  replace (len before + 1) with (len (before ++ [x])) in Hget
    by (rewrite len_app; reflexivity).
  destruct after as [|z after'].
  - rewrite app_nil_r, getitem_past_end in Hget by lia. discriminate.
  - rewrite getitem_middle in Hget. injection Hget as ->. eauto.
Qed.

(** The state a handler leaves, with the block before and after. *)
Lemma calm_post_shape e s' before instr after new after' :
  self_block e = before ++ instr :: after ->
  self_block s' = before ++ new ++ after' ->
  calm e ->
  Forall (fun i => is_or_pop i = false) new ->
  Forall (fun i => is_or_pop i = false) after -> 
  Forall (fun i => is_or_pop i = false) after' ->
  len new + len after' - index s' + builds new + builds after'
  <= 1 + len after - index e + builds [instr] + builds after ->
  calm_post e s'.
Proof.
  intros Hblk Hblk' Hc Hnew _ Hafter Hm.
  destruct (calm_split _ _ _ _ Hc Hblk) as (Hb & _ & _).
  split.
  - unfold calm. rewrite Hblk'. repeat (apply Forall_app; split); assumption.
  - unfold loop_measure. rewrite Hblk, Hblk'.
    rewrite !len_app, !builds_app, len_cons, builds_cons. lia.
Qed.

Lemma eval_LOAD_CONST_calm e instr s' :
  calm e -> eval_LOAD_CONST instr e = Return s' -> calm_post e s'.
Proof.
  intros Hc Hr. unfold eval_LOAD_CONST in Hr. handler_cases Hr.
  injection Hr as <-. exact (calm_post_refl e Hc).
Qed.

Lemma replace_load_const_calm nconst e instr res :
  entry e instr -> calm e -> 0 <= nconst <= len (const_stack e) ->
  calm_post e (replace_load_const nconst instr res e).
Proof.
  intros (Hok & Hwf & Hflag & pre & pushes & post & Hblk & Hidx & Hlen & Hp)
         Hc Hn.
  destruct (split_tail (const_stack e) nconst Hn)
    as (stk & tl & Hstk & Htl & _).
  destruct (split_tail pushes nconst ltac:(lia)) as (ps & pt & Hps & Hpt & _).
  destruct (replace_load_const_spec nconst instr res e (pre ++ ps)
              (pt ++ [instr]) post stk tl) as (Hblk' & _ & _ & Hidx' & _).
  - apply Hok.
  - rewrite Hblk, Hps, <- !app_assoc. reflexivity.
  - rewrite Hidx, Hps, !len_app. change (len [instr]) with 1. lia.
  - rewrite len_app. change (len [instr]) with 1. lia.
  - exact Hstk.
  - exact Htl.
  - unfold calm in Hc. rewrite Hblk, Hps in Hc.
    apply Forall_app in Hc as [Hpre Hc].
    apply Forall_app in Hc as [Hpushes Hc].
    apply Forall_app in Hpushes as [Hps' _].
    inversion Hc as [|? ? _ Hpost]; subst.
    split.
    + unfold calm. rewrite Hblk'.
      repeat (apply Forall_app; split); try assumption.
      constructor; [reflexivity|constructor].
    + unfold loop_measure. rewrite Hblk', Hidx', Hblk, Hidx.
      repeat first [rewrite len_app|rewrite builds_app].
      rewrite (len_cons instr post), (builds_cons instr post).
      match goal with
      | |- context [builds [replace ?i "LOAD_CONST" ?a]] =>
          change (builds [replace i "LOAD_CONST" a]) with 0;
          change (len [replace i "LOAD_CONST" a]) with 1
      end.
      pose proof (builds_nonneg pt). pose proof (builds_one instr).
      pose proof (len_nonneg pt). lia.
Qed.

Lemma unaryop_calm op e instr s' :
  entry e instr -> calm e -> unaryop op instr e = Return s' ->
  calm_post e s'.
Proof.
  intros He Hc Hr. unfold unaryop in Hr.
  destruct (getitem (const_stack e) (-1)) as [v|err] eqn:Hv; cbn [bind] in Hr.
  - apply (getitem_neg_len _ 1) in Hv; [|lia].
    handler_cases Hr; injection Hr as <-;
      first [exact (calm_post_refl e Hc)
            |apply replace_load_const_calm; [assumption|assumption|lia]].
  - handler_cases Hr; injection Hr as <-; exact (calm_post_refl e Hc).
Qed.

Lemma binop_calm op e instr s' :
  entry e instr -> calm e -> binop op instr e = Return s' ->
  calm_post e s'.
Proof.
  intros He Hc Hr. unfold binop in Hr.
  destruct (getitem (const_stack e) (-2)) as [l|err] eqn:Hl; cbn [bind] in Hr.
  - apply (getitem_neg_len _ 2) in Hl; [|lia].
    handler_cases Hr; injection Hr as <-;
      first [exact (calm_post_refl e Hc)
            |apply replace_load_const_calm; [assumption|assumption|lia]].
  - handler_cases Hr; injection Hr as <-; exact (calm_post_refl e Hc).
Qed.

Lemma replace_container_of_consts_calm container_type e instr s' :
  entry e instr -> calm e ->
  (exists n, arg instr = ArgInt n /\ n <= len (const_stack e)) ->
  replace_container_of_consts instr container_type e = Return s' ->
  calm_post e s'.
Proof.
  intros He Hc (n & Harg & Hn) Hr. unfold replace_container_of_consts in Hr.
  rewrite Harg in Hr. cbn [as_int bind] in Hr.
  handler_cases Hr. injection Hr as <-.
  apply replace_load_const_calm; [assumption|assumption|].
  destruct He as (_ & Hwf & _). unfold wf_instr in Hwf.
  rewrite Harg in Hwf. lia.
Qed.

Lemma build_tuple_calm container_type e instr r :
  entry e instr -> calm e ->
  build_tuple instr container_type e = Return r ->
  calm_post e (fst r) /\ (snd r = false -> fst r = e).
Proof.
  intros He Hc Hr. unfold build_tuple in Hr.
  destruct (arg instr) as [|n|] eqn:Harg; cbn [as_int bind] in Hr;
    try discriminate.
  destruct (Z.gtb_spec n (len (const_stack e))).
  { injection Hr as <-. split; [exact (calm_post_refl e Hc)|reflexivity]. }
  handler_cases Hr; injection Hr as <-; cbn [fst snd];
    try (split; [exact (calm_post_refl e Hc)|reflexivity]).
  split; [|discriminate].
  eapply replace_container_of_consts_calm; [exact He|exact Hc| |eassumption].
  exists n. split; [assumption|lia].
Qed.

Lemma build_tuple_unpack_seq_calm e instr s' :
  entry e instr -> calm e -> is_build instr = true ->
  build_tuple_unpack_seq instr e = Return s' ->
  calm_post e s'.
Proof.
  intros He Hc Hbuild Hr.
  destruct (entry_shape _ _ He) as (Hb & before & after & Hblk & Hidx).
  destruct (calm_split _ _ _ _ Hc Hblk) as (_ & _ & Hafter).
  assert (Hone : builds [instr] = 1)
    by (unfold builds; cbn [filter]; rewrite Hbuild; reflexivity).
  unfold build_tuple_unpack_seq in Hr.
  destruct (as_int (arg instr)) as [n|]; cbn [bind] in Hr; [|discriminate].
  destruct (negb _); [injection Hr as <-; exact (calm_post_refl e Hc)|].
  destruct (getitem (self_block e) (index e)) as [nxt|] eqn:Hget;
    cbn [bind] in Hr; [|discriminate].
  rewrite Hblk, Hidx in Hget.
  destruct (getitem_after _ _ _ _ Hget) as (after' & ->).
  inversion Hafter as [|? ? _ Hafter']; subst.
  destruct (negb _); [injection Hr as <-; exact (calm_post_refl e Hc)|].
  rewrite Hblk, Hidx in Hr.
  replace (len before + 1 - 1) with (len before) in Hr by lia.
  replace (len before + 1 + 1) with (len before + 2) in Hr by lia.
  unfold delslice in Hr. rewrite !setslice_pair in Hr.
  pose proof (builds_one nxt). pose proof (len_nonneg after').
  pose proof (builds_nonneg after').
  destruct (n =? 1); [|destruct (n =? 2); [|destruct (n =? 3)]];
    injection Hr as <-; try exact (calm_post_refl e Hc).
  - eapply (calm_post_shape e _ before instr (nxt :: after') [] after');
      [exact Hblk
      |rewrite self_block_set_self_block by assumption; reflexivity
      |assumption|constructor|assumption|assumption|].
    cbn [index set_self_block].
    rewrite Hidx, (len_cons nxt after'), (builds_cons nxt after').
    change (len (@nil Instr)) with 0. change (builds []) with 0. lia.
  - eapply (calm_post_shape e _ before instr (nxt :: after')
              [mkInstr (lineno instr) "ROT_TWO"] after');
      [exact Hblk
      |change (self_block (set_const_stack (set_index ?s ?i) ?c))
         with (self_block s);
       rewrite self_block_set_self_block by assumption; reflexivity
      |assumption|constructor; [reflexivity|constructor]
      |assumption|assumption|].
    cbn [index set_index set_const_stack].
    rewrite Hidx, (len_cons nxt after'), (builds_cons nxt after').
    change (len [mkInstr (lineno instr) "ROT_TWO"]) with 1.
    change (builds [mkInstr (lineno instr) "ROT_TWO"]) with 0. lia.
  - eapply (calm_post_shape e _ before instr (nxt :: after')
              [mkInstr (lineno instr) "ROT_THREE";
               mkInstr (lineno instr) "ROT_TWO"] after');
      [exact Hblk
      |change (self_block (set_const_stack (set_index ?s ?i) ?c))
         with (self_block s);
       rewrite self_block_set_self_block by assumption; reflexivity
      |assumption
      |constructor; [reflexivity|constructor; [reflexivity|constructor]]
      |assumption|assumption|].
    cbn [index set_index set_const_stack].
    rewrite Hidx, (len_cons nxt after'), (builds_cons nxt after').
    change (len [mkInstr (lineno instr) "ROT_THREE";
                 mkInstr (lineno instr) "ROT_TWO"]) with 2.
    change (builds [mkInstr (lineno instr) "ROT_THREE";
                    mkInstr (lineno instr) "ROT_TWO"]) with 0. lia.
Qed.

Lemma eval_BUILD_TUPLE_calm e instr s' :
  entry e instr -> calm e -> name instr = "BUILD_TUPLE" ->
  eval_BUILD_TUPLE instr e = Return s' -> calm_post e s'.
Proof.
  intros He Hc Hnm Hr. unfold eval_BUILD_TUPLE in Hr.
  destruct (negb (truthy (arg instr)));
    [injection Hr as <-; exact (calm_post_refl e Hc)|].
  destruct (arg instr) as [|n|] eqn:Harg; cbn [as_int bind] in Hr;
    try discriminate.
  destruct (Z.leb_spec n (len (const_stack e))).
  - eapply replace_container_of_consts_calm;
      [exact He|exact Hc| |eassumption].
    exists n. split; [assumption|lia].
  - eapply build_tuple_unpack_seq_calm; [exact He|exact Hc| |eassumption].
    unfold is_build. rewrite Hnm. reflexivity.
Qed.

Lemma eval_BUILD_LIST_calm e instr s' :
  entry e instr -> calm e -> name instr = "BUILD_LIST" ->
  eval_BUILD_LIST instr e = Return s' -> calm_post e s'.
Proof.
  intros He Hc Hnm Hr. unfold eval_BUILD_LIST in Hr.
  destruct (negb (truthy (arg instr)));
    [injection Hr as <-; exact (calm_post_refl e Hc)|].
  destruct (build_tuple instr builtin_tuple e) as [r|] eqn:Hbt;
    cbn [bind] in Hr; [|discriminate].
  destruct (build_tuple_calm _ _ _ _ He Hc Hbt) as [Hpost Hsame].
  destruct (snd r); cbn [negb] in Hr.
  - injection Hr as <-. exact Hpost.
  - rewrite (Hsame eq_refl) in Hr.
    eapply build_tuple_unpack_seq_calm; [exact He|exact Hc| |exact Hr].
    unfold is_build. rewrite Hnm. reflexivity.
Qed.

Lemma eval_BUILD_SET_calm e instr s' :
  entry e instr -> calm e ->
  eval_BUILD_SET instr e = Return s' -> calm_post e s'.
Proof.
  intros He Hc Hr. unfold eval_BUILD_SET in Hr.
  destruct (negb (truthy (arg instr)));
    [injection Hr as <-; exact (calm_post_refl e Hc)|].
  destruct (build_tuple instr builtin_frozenset e) as [r|] eqn:Hbt;
    cbn [bind] in Hr; [|discriminate].
  destruct (build_tuple_calm _ _ _ _ He Hc Hbt) as [Hpost _].
  injection Hr as <-. exact Hpost.
Qed.

Lemma eval_UNARY_NOT_calm e instr s' :
  entry e instr -> calm e ->
  eval_UNARY_NOT instr e = Return s' -> calm_post e s'.
Proof.
  intros He Hc Hr.
  destruct (entry_shape _ _ He) as (Hb & before & after & Hblk & Hidx).
  destruct (calm_split _ _ _ _ Hc Hblk) as (_ & _ & Hafter).
  unfold eval_UNARY_NOT in Hr.
  destruct (getitem (self_block e) (index e)) as [nxt|] eqn:Hget;
    cbn [bind] in Hr; [|discriminate].
  rewrite Hblk, Hidx in Hget.
  destruct (getitem_after _ _ _ _ Hget) as (after' & ->).
  inversion Hafter as [|? ? _ Hafter']; subst.
  destruct (String.eqb (name nxt) "POP_JUMP_IF_FALSE");
    injection Hr as <-; [|exact (calm_post_refl e Hc)].
  rewrite Hblk, Hidx.
  replace (len before + 1 - 1) with (len before) by lia.
  replace (len before + 1 + 1) with (len before + 2) by lia.
  rewrite setslice_pair.
  pose proof (builds_one nxt). pose proof (builds_one instr).
  eapply (calm_post_shape e _ before instr (nxt :: after')
            [replace instr "POP_JUMP_IF_TRUE" (arg nxt)] after');
    [exact Hblk
    |rewrite self_block_set_index, self_block_set_self_block by assumption;
     reflexivity
    |assumption|constructor; [reflexivity|constructor]
    |assumption|assumption|].
  cbn [index set_index].
  rewrite Hidx, (len_cons nxt after'), (builds_cons nxt after').
  change (len [replace instr "POP_JUMP_IF_TRUE" (arg nxt)]) with 1.
  change (builds [replace instr "POP_JUMP_IF_TRUE" (arg nxt)]) with 0. lia.
Qed.

Lemma eval_RETURN_VALUE_calm e instr s' :
  entry e instr -> calm e ->
  eval_RETURN_VALUE instr e = Return s' -> calm_post e s'.
Proof.
  intros He Hc Hr.
  assert (Hb : block_bound e) by apply He.
  pose proof (entry_index _ _ He) as Hi.
  unfold eval_RETURN_VALUE in Hr. cbn zeta in Hr.
  destruct (_ <? 2); [injection Hr as <-; exact (calm_post_refl e Hc)|].
  destruct (getitem (self_block e) (index e + 1)) as [i3|] eqn:H3;
    cbn [bind] in Hr; [|discriminate].
  apply getitem_lt in H3; [|lia].
  destruct (String.eqb (name i3) "RETURN_VALUE").
  - injection Hr as <-. split.
    + unfold calm. rewrite self_block_set_self_block by assumption.
      apply Forall_setslice; [exact Hc|constructor].
    + unfold loop_measure. rewrite self_block_set_self_block by assumption.
      cbn [index set_self_block].
      pose proof (builds_setslice_le (self_block e) (index e)
                    (index e + 2) []) as Hle.
      change (builds []) with 0 in Hle.
      unfold delslice. rewrite len_setslice_window by lia.
      change (len (@nil Instr)) with 0. lia.
  - destruct (getitem (self_block e) (index e)) as [nx|]; cbn [bind] in Hr;
      [|discriminate].
    destruct (name_in (name nx) _);
      [|injection Hr as <-; exact (calm_post_refl e Hc)].
    destruct (delitem (self_block e) (index e)) as [b|] eqn:Hdel;
      cbn [bind] in Hr; [|discriminate].
    injection Hr as <-. split.
    + unfold calm. rewrite self_block_set_self_block by assumption.
      eapply Forall_delitem; [exact Hdel|exact Hc].
    + unfold loop_measure. rewrite self_block_set_self_block by assumption.
      cbn [index set_self_block].
      pose proof (len_delitem _ _ _ Hdel).
      pose proof (builds_delitem_le _ _ _ Hdel). lia.
Qed.

Lemma eval_COMPARE_OP_calm e instr s' :
  entry e instr -> calm e ->
  eval_COMPARE_OP instr e = Return s' -> calm_post e s'.
Proof.
  intros He Hc Hr.
  destruct (entry_shape _ _ He) as (Hb & before & after & Hblk & Hidx).
  destruct (calm_split _ _ _ _ Hc Hblk) as (_ & Hinstr & Hafter).
  unfold eval_COMPARE_OP in Hr.
  destruct (NOT_PyCmp (arg instr)) as [m|];
    [|injection Hr as <-; exact (calm_post_refl e Hc)].
  destruct (getitem (self_block e) (index e)) as [nxt|err] eqn:Hget.
  2: { destruct err; try discriminate. injection Hr as <-.
       exact (calm_post_refl e Hc). }
  rewrite Hblk, Hidx in Hget.
  destruct (getitem_after _ _ _ _ Hget) as (after' & ->).
  inversion Hafter as [|? ? _ Hafter']; subst.
  destruct (negb _); injection Hr as <-; [exact (calm_post_refl e Hc)|].
  rewrite Hblk, Hidx.
  replace (len before + 1 - 1) with (len before) by lia.
  replace (len before + 1 + 1) with (len before + 2) by lia.
  rewrite setslice_pair.
  pose proof (builds_one nxt).
  eapply (calm_post_shape e _ before instr (nxt :: after')
            [replace_arg instr (ArgInt m)] after');
    [exact Hblk
    |rewrite self_block_set_self_block by assumption; reflexivity
    |assumption|constructor; [exact Hinstr|constructor]
    |assumption|assumption|].
  cbn [index set_self_block].
  rewrite Hidx, (len_cons nxt after'), (builds_cons nxt after').
  change (len [replace_arg instr (ArgInt m)]) with 1.
  rewrite (builds_same_name (replace_arg instr (ArgInt m)) instr eq_refl).
  lia.
Qed.

Lemma optimize_jump_to_cond_jump_calm e instr s' :
  entry e instr -> calm e ->
  optimize_jump_to_cond_jump instr e = Return s' -> calm_post e s'.
Proof.
  intros He Hc Hr.
  destruct (entry_shape _ _ He) as (Hb & before & after & Hblk & Hidx).
  destruct (calm_split _ _ _ _ Hc Hblk) as (_ & Hinstr & Hafter).
  assert (Hput : forall x,
            is_or_pop x = false -> builds [x] <= builds [instr] ->
            calm_post e (set_self_block e (before ++ x :: after))).
  { intros x Hx Hbx.
    eapply (calm_post_shape e _ before instr after [x] after);
      [exact Hblk
      |rewrite self_block_set_self_block by assumption; reflexivity
      |assumption|constructor; [exact Hx|constructor]
      |assumption|assumption|].
    cbn [index set_self_block]. change (len [x]) with 1. lia. }
  unfold optimize_jump_to_cond_jump in Hr. cbn zeta in Hr.
  destruct (negb (is_jump instr)); [discriminate|].
  destruct (code_getitem (code e) (arg instr)) as [tg|]; cbn [bind] in Hr;
    [|discriminate].
  destruct (getitem tg 0) as [t|]; cbn [bind] in Hr; [|discriminate].
  rewrite Hblk, Hidx in Hr.
  replace (len before + 1 - 1) with (len before) in Hr by lia.
  rewrite !setitem_middle in Hr. cbn [bind] in Hr.
  destruct (name_in (name instr) ["JUMP_FORWARD"; "JUMP_ABSOLUTE"]
            && String.eqb (name t) "RETURN_VALUE") eqn:Hret.
  - injection Hr as <-.
    apply andb_true_iff in Hret as [_ Hret]. apply String.eqb_eq in Hret.
    apply Hput.
    + unfold is_or_pop. rewrite Hret. reflexivity.
    + unfold builds. cbn [filter]. unfold is_build at 1. rewrite Hret.
      cbn [name_in existsb String.eqb Ascii.eqb Bool.eqb orb].
      apply builds_one.
  - destruct (name_in (name t) ["JUMP_FORWARD"; "JUMP_ABSOLUTE"]);
      injection Hr as <-; [|exact (calm_post_refl e Hc)].
    destruct (String.eqb (name instr) "JUMP_FORWARD"); apply Hput.
    + reflexivity.
    + change (builds [replace instr "JUMP_ABSOLUTE" (arg t)]) with 0.
      apply builds_one.
    + exact Hinstr.
    + rewrite (builds_same_name (replace instr (name instr) (arg t)) instr
                 eq_refl). lia.
Qed.

Lemma dispatch_calm e instr s' :
  entry e instr -> calm e ->
  match getattr_eval (name instr) with
  | Some meth => meth instr e
  | None =>
      if is_jump instr then optimize_jump_to_cond_jump instr e
      else Return e
  end = Return s' ->
  calm_post e s'.
Proof.
  intros He Hc Hr.
  destruct (entry_shape _ _ He) as (_ & before & after & Hblk & _).
  destruct (calm_split _ _ _ _ Hc Hblk) as (_ & Hinstr & _).
  destruct (getattr_eval (name instr)) as [meth|] eqn:Hmeth.
  - apply getattr_eval_In in Hmeth. unfold eval_methods in Hmeth.
    cbn [In] in Hmeth.
    repeat (destruct Hmeth as [Hmeth|Hmeth];
            [injection Hmeth as Hnm <-;
             first [ eapply eval_LOAD_CONST_calm; [exact Hc|exact Hr]
                   | eapply unaryop_calm; [exact He|exact Hc|exact Hr]
                   | eapply binop_calm; [exact He|exact Hc|exact Hr]
                   | eapply eval_BUILD_TUPLE_calm;
                     [exact He|exact Hc|symmetry; exact Hnm|exact Hr]
                   | eapply eval_BUILD_LIST_calm;
                     [exact He|exact Hc|symmetry; exact Hnm|exact Hr]
                   | eapply eval_BUILD_SET_calm; [exact He|exact Hc|exact Hr]
                   | eapply eval_UNARY_NOT_calm; [exact He|exact Hc|exact Hr]
                   | eapply eval_RETURN_VALUE_calm;
                     [exact He|exact Hc|exact Hr]
                   | eapply eval_COMPARE_OP_calm;
                     [exact He|exact Hc|exact Hr]
                   | exfalso; unfold is_or_pop in Hinstr;
                     rewrite <- Hnm in Hinstr; discriminate Hinstr ]
            |]).
    destruct Hmeth.
  - destruct (is_jump instr).
    + eapply optimize_jump_to_cond_jump_calm; eassumption.
    + injection Hr as <-. exact (calm_post_refl e Hc).
Qed.

(** In a block without [JUMP_IF_*_OR_POP], entered with the flag off,
    every turn of the loop brings the end nearer. *)
Lemma step_calm s s' :
  tracker_inv s -> calm s -> step s = Return s' ->
  calm s' /\ loop_measure s' <= loop_measure s - 1.
Proof.
  intros Hinv Hc Hr. unfold step in Hr.
  destruct (getitem (self_block s) (index s)) as [instr|] eqn:Hget;
    cbn [bind] in Hr; [|discriminate].
  unfold visit in Hr. cbn zeta in Hr.
  pose proof (step_entry s instr Hinv Hget) as He.
  apply (dispatch_calm _ _ _ He) in Hr.
  - destruct Hr as [Hc' Hm]. split; [exact Hc'|].
    cbn [in_consts set_index] in Hm.
    destruct (in_consts s); unfold loop_measure in *;
      cbn [negb] in Hm;
      change (self_block (set_in_consts ?x false)) with (self_block x) in Hm;
      cbn [index set_in_consts set_const_stack set_index] in Hm;
      rewrite ?self_block_set_const_stack, ?self_block_set_index in Hm; lia.
  - cbn [in_consts set_index]. destruct (in_consts s); exact Hc.
Qed.

Lemma calm_loop_ends fuel s :
  tracker_inv s -> calm s ->
  Z.max 0 (loop_measure s) < Z.of_nat fuel ->
  exists r, disassemble_loop fuel s = Some r.
Proof.
  revert s. induction fuel as [|fuel IH]; intros s Hinv Hc Hfuel; [lia|].
  cbn [disassemble_loop].
  destruct (Z.ltb_spec (index s) (len (self_block s))) as [Hlt|Hge];
    [|eauto].
  destruct (step s) as [t|e] eqn:Ht; [|eauto].
  destruct (step_calm _ _ Hinv Hc Ht) as [Hc' Hm].
  apply IH; [eapply step_inv; eassumption|exact Hc'|].
  pose proof (builds_nonneg (self_block s)).
  unfold loop_measure in Hfuel, Hm |- *. lia.
Qed.

(** X20: [optimize_block], called with the flag [in_consts] off for a
    block that holds no [JUMP_IF_FALSE_OR_POP] and no
    [JUMP_IF_TRUE_OR_POP], in a program whose integer arguments are not
    negative, comes to an end, by returning or by raising: the loop of
    [disassemble] makes at most twice as many turns as the block has
    instructions. *)
Theorem optimize_block_terminates (fuel b : nat) (self : Optimizer) :
  (b < List.length (blocks (code self)))%nat ->
  Forall (Forall wf_instr) (blocks (code self)) ->
  in_consts self = false ->
  Forall (fun i => is_or_pop i = false) (nth b (blocks (code self)) []) ->
  (2 * List.length (nth b (blocks (code self)) []) < fuel)%nat ->
  exists r : result Optimizer, optimize_block fuel b self = Some r.
Proof.
  intros Hb Hwf Hflag Hcalm Hfuel. unfold optimize_block.
  apply calm_loop_ends.
  - apply clean_start_inv;
      [split; [exact Hb|exact Hwf]|reflexivity|exact Hflag].
  - exact Hcalm.
  - unfold loop_measure.
    change (self_block (set_index (set_block self b) 0))
      with (nth b (blocks (code self)) []).
    cbn [index set_index].
    pose proof (builds_le_len (nth b (blocks (code self)) [])).
    pose proof (builds_nonneg (nth b (blocks (code self)) [])).
    unfold len in *. lia.
Qed.

End Termination.

(** ** The lookahead of [eval_RETURN_VALUE] *)

Section ReturnLookahead.
Context {H : Host}.

Lemma delitem_in_range {A : Type} (l : list A) (i : Z) :
  0 <= i < len l -> exists l', delitem l i = Return l'.
Proof.
  intros [Hlo Hhi]. unfold delitem, norm_index.
  destruct (Z.ltb_spec i 0); [lia|].
  destruct (Z.ltb_spec i 0); [lia|].
  destruct (Z.leb_spec (len l) i); [lia|]. cbn [orb bind]. eauto.
Qed.

Lemma nonempty_block_bound (self : Optimizer) :
  0 < len (self_block self) -> block_bound self.
Proof.
  unfold self_block, block_bound. intro Hlen.
  destruct (Nat.lt_ge_cases (block self)
              (List.length (blocks (code self)))) as [Hlt|Hge];
    [exact Hlt|].
  rewrite nth_overflow in Hlen by exact Hge.
  change (len (@nil Instr)) with 0 in Hlen. lia.
Qed.

(** X21: with the cursor not negative, [eval_RETURN_VALUE] never raises:
    it reads the two instructions after the cursor only when the block
    has them.  It returns with the cursor, the constant stack, the
    constants table and the flag as they were, and with a block that is
    not longer. *)
Theorem return_value_never_raises (instr : Instr) (self : Optimizer) :
  0 <= index self ->
  exists self' : Optimizer,
    eval_RETURN_VALUE instr self = Return self'
    /\ index self' = index self
    /\ const_stack self' = const_stack self
    /\ consts (code self') = consts (code self)
    /\ in_consts self' = in_consts self
    /\ len (self_block self') <= len (self_block self).
Proof.
  intro Hi. unfold eval_RETURN_VALUE. cbn zeta.
  destruct (Z.ltb_spec (len (self_block self) - index self) 2) as [Hlt|Hge];
    [exists self; repeat split; lia|].
  assert (Hb : block_bound self) by (apply nonempty_block_bound; lia).
  destruct (getitem_in_range (self_block self) (index self + 1))
    as (i3 & ->); [lia|]. cbn [bind].
  destruct (String.eqb (name i3) "RETURN_VALUE").
  - eexists. split; [reflexivity|]. repeat split.
    rewrite self_block_set_self_block by assumption.
    unfold delslice. rewrite len_setslice_window by lia.
    change (len (@nil Instr)) with 0. lia.
  - destruct (getitem_in_range (self_block self) (index self))
      as (nx & ->); [lia|]. cbn [bind].
    destruct (name_in (name nx) _); [|exists self; repeat split; lia].
    destruct (delitem_in_range (self_block self) (index self))
      as (b & Hdel); [lia|].
    rewrite Hdel. cbn [bind]. eexists. split; [reflexivity|]. repeat split.
    rewrite self_block_set_self_block by assumption.
    eapply len_delitem, Hdel.
Qed.

End ReturnLookahead.

(** ** The push of a constant *)

Section PushStep.
Context {H : Host}.

(** X23: in a program whose [LOAD_CONST] instructions carry an index of
    the constants table, the turn of the loop for a [LOAD_CONST] never
    raises: it empties the constant stack unless the flag [in_consts]
    was set, puts the constant the instruction names on it, sets the
    flag and moves the cursor by one; the program is untouched. *)
Theorem push_step_tracks_constant (self : Optimizer) (instr : Instr) :
  code_valid (code self) ->
  getitem (self_block self) (index self) = Return instr ->
  name instr = "LOAD_CONST" ->
  exists (n : Z) (v : value) (self' : Optimizer),
    arg instr = ArgInt n
    /\ getitem (consts (code self)) n = Return v
    /\ step self = Return self'
    /\ const_stack self'
       = (if in_consts self then const_stack self else []) ++ [v]
    /\ in_consts self' = true
    /\ index self' = index self + 1
    /\ code self' = code self.
Proof.
  intros Hv Hget Hnm.
  destruct (valid_read self _ _ Hv Hget Hnm) as (n & Harg & Hn).
  destruct (getitem_in_range (consts (code self)) n Hn) as (v & Hc).
  exists n, v.
  unfold step. rewrite Hget. cbn [bind]. unfold visit. cbn zeta.
  rewrite Hnm. change (getattr_eval "LOAD_CONST") with (Some eval_LOAD_CONST).
  cbn iota. unfold eval_LOAD_CONST. cbn zeta. rewrite Harg.
  cbn [as_int bind in_consts set_index].
  destruct (in_consts self); cbn [negb];
    cbn [code consts set_in_consts set_const_stack set_index];
    rewrite Hc; cbn [bind]; eexists; repeat split.
Qed.

End PushStep.

(** ** Source lines *)

Section Lines.
Context {H : Host}.
Variable lines : list Z.

Ltac handler_cases Hr :=
  repeat match type of Hr with
         | bind ?m _ = Return _ =>
             let E := fresh "E" in
             destruct m eqn:E; cbn [bind] in Hr; [|discriminate Hr]
         | Raise _ = Return _ => discriminate Hr
         | context [match ?x with _ => _ end] =>
             let E := fresh "E" in destruct x eqn:E
         end.

Lemma lined_self_block s :
  lined lines s -> Forall (on_line lines) (self_block s).
Proof.
  intro Hv. unfold self_block.
  destruct (nth_in_or_default (block s) (blocks (code s)) []) as [Hin| ->];
    [|constructor].
  unfold lined, lines_within in Hv. rewrite Forall_forall in Hv. auto.
Qed.

Lemma lined_set_self_block s b :
  lined lines s -> Forall (on_line lines) b ->
  lined lines (set_self_block s b).
Proof.
  intros Hv Hb. unfold lined, lines_within. cbn.
  apply Forall_list_update; assumption.
Qed.

Lemma lined_read s i instr :
  lined lines s -> getitem (self_block s) i = Return instr ->
  on_line lines instr.
Proof.
  intros Hv Hget. apply getitem_In in Hget.
  pose proof (lined_self_block s Hv) as Hall.
  rewrite Forall_forall in Hall. auto.
Qed.

Lemma lined_target s a t ti :
  lined lines s -> code_getitem (code s) a = Return t ->
  getitem t 0 = Return ti -> on_line lines ti.
Proof.
  intros Hall Ht Hti. unfold code_getitem in Ht.
  destruct a as [| |l]; try discriminate.
  destruct (nth_error (blocks (code s)) (label_block l)) as [b|] eqn:Hb;
    [|discriminate].
  injection Ht as <-. apply getitem_In in Hti.
  apply nth_error_In in Hb. unfold lined, lines_within in Hall.
  rewrite Forall_forall in Hall.
  specialize (Hall b Hb). apply (Forall_skipn _ (label_offset l)) in Hall.
  rewrite Forall_forall in Hall. auto.
Qed.

Ltac lined_goal :=
  repeat match goal with
         | |- lined lines (set_index ?s _) => change (lined lines s)
         | |- lined lines (set_const_stack ?s _) => change (lined lines s)
         | |- lined lines (set_in_consts ?s _) => change (lined lines s)
         | |- lined lines (set_consts ?s _) => change (lined lines s)
         | |- lined lines (set_self_block _ _) => apply lined_set_self_block
         | |- Forall _ (setslice _ _ _ _) => apply Forall_setslice
         | |- Forall _ (delslice _ _ _) => apply Forall_setslice
         | |- Forall (on_line lines) (self_block _) => apply lined_self_block
         | |- Forall _ [] => constructor
         | |- Forall _ (_ :: _) => constructor
         | |- lined lines _ => assumption
         | |- on_line lines (replace ?i _ _) => change (on_line lines i)
         | |- on_line lines (replace_arg ?i _) => change (on_line lines i)
         | |- on_line lines (mkInstr (lineno ?i) _) => change (on_line lines i)
         | |- on_line lines _ => assumption
         end.

Lemma lined_replace_load_const nconst instr res s :
  lined lines s -> on_line lines instr ->
  lined lines (replace_load_const nconst instr res s).
Proof.
  intros Hv Hi. unfold replace_load_const. cbn zeta.
  destruct (nconst =? 0); lined_goal.
Qed.

Ltac lined_leaf Hr :=
  injection Hr as <-;
  first [apply lined_replace_load_const; assumption | lined_goal].

Lemma lined_unaryop op instr s s' :
  lined lines s -> on_line lines instr ->
  unaryop op instr s = Return s' -> lined lines s'.
Proof.
  intros Hv Hi Hr. unfold unaryop in Hr. handler_cases Hr; lined_leaf Hr.
Qed.

Lemma lined_binop op instr s s' :
  lined lines s -> on_line lines instr ->
  binop op instr s = Return s' -> lined lines s'.
Proof.
  intros Hv Hi Hr. unfold binop in Hr. handler_cases Hr; lined_leaf Hr.
Qed.

Lemma lined_container instr container_type s s' :
  lined lines s -> on_line lines instr ->
  replace_container_of_consts instr container_type s = Return s' ->
  lined lines s'.
Proof.
  intros Hv Hi Hr. unfold replace_container_of_consts in Hr.
  handler_cases Hr; lined_leaf Hr.
Qed.

Lemma lined_unpack_seq instr s s' :
  lined lines s -> on_line lines instr ->
  build_tuple_unpack_seq instr s = Return s' -> lined lines s'.
Proof.
  intros Hv Hi Hr. unfold build_tuple_unpack_seq in Hr.
  handler_cases Hr; lined_leaf Hr.
Qed.

Lemma lined_build_tuple instr container_type s r :
  lined lines s -> on_line lines instr ->
  build_tuple instr container_type s = Return r ->
  lined lines (fst r) /\ (snd r = false -> fst r = s).
Proof.
  intros Hv Hi Hr. unfold build_tuple in Hr.
  destruct (as_int (arg instr)) as [n|]; cbn [bind] in Hr; [|discriminate].
  destruct (n >? len (const_stack s)).
  { injection Hr as <-. split; [assumption|reflexivity]. }
  destruct (getitem (self_block s) (index s)) as [nx|]; cbn [bind] in Hr;
    [|discriminate].
  destruct (negb (String.eqb (name nx) "COMPARE_OP")).
  { injection Hr as <-. split; [assumption|reflexivity]. }
  destruct (negb _).
  { injection Hr as <-. split; [assumption|reflexivity]. }
  destruct (replace_container_of_consts instr container_type s) as [t|] eqn:Ht;
    cbn [bind] in Hr; [|discriminate].
  injection Hr as <-. split; [|discriminate].
  eapply lined_container; eassumption.
Qed.

Lemma lined_jump instr s s' :
  lined lines s -> on_line lines instr ->
  optimize_jump_to_cond_jump instr s = Return s' -> lined lines s'.
Proof.
  intros Hv Hi Hr. unfold optimize_jump_to_cond_jump in Hr.
  handler_cases Hr; lined_leaf Hr.
  - eapply Forall_setitem; [eassumption|apply lined_self_block, Hv|].
    eapply lined_target; eassumption.
  - eapply Forall_setitem; [eassumption|apply lined_self_block, Hv|].
    exact Hi.
Qed.

Lemma lined_jump_if_or_pop instr s s' :
  lined lines s -> on_line lines instr ->
  jump_if_or_pop instr s = Return s' -> lined lines s'.
Proof.
  intros Hv Hi Hr. unfold jump_if_or_pop in Hr.
  destruct (code_getitem (code s) (arg instr)) as [t|]; cbn [bind] in Hr;
    [|discriminate].
  destruct (getitem t 0) as [ti|]; cbn [bind] in Hr; [|discriminate].
  destruct (is_cond_jump ti) eqn:Hc; cbn [negb] in Hr;
    [|eapply lined_jump; eassumption].
  handler_cases Hr; lined_leaf Hr;
    (eapply Forall_setitem; [eassumption|apply lined_self_block, Hv|]);
    exact Hi.
Qed.

Lemma lined_handler (meth : handler) instr s s' :
  In (name instr, meth) eval_methods ->
  lined lines s -> on_line lines instr ->
  meth instr s = Return s' -> lined lines s'.
Proof.
  unfold eval_methods. cbn [In]. intros Hin Hv Hi Hr.
  repeat (destruct Hin as [Hin|Hin];
          [injection Hin as Hnm <-;
           first [ eapply lined_unaryop; [exact Hv|exact Hi|exact Hr]
                 | eapply lined_binop; [exact Hv|exact Hi|exact Hr]
                 | eapply lined_jump_if_or_pop; [exact Hv|exact Hi|exact Hr]
                 | idtac ]
          |]); try contradiction.
  - unfold eval_LOAD_CONST in Hr. handler_cases Hr; lined_leaf Hr.
  - unfold eval_UNARY_NOT in Hr. handler_cases Hr; lined_leaf Hr.
  - unfold eval_RETURN_VALUE in Hr. handler_cases Hr; lined_leaf Hr.
    eapply Forall_delitem; [eassumption|apply lined_self_block, Hv].
  - unfold eval_BUILD_TUPLE in Hr.
    destruct (negb (truthy (arg instr))); [lined_leaf Hr|].
    destruct (as_int (arg instr)) as [n|]; cbn [bind] in Hr; [|discriminate].
    destruct (n <=? len (const_stack s));
      [exact (lined_container _ _ _ _ Hv Hi Hr)
      |exact (lined_unpack_seq _ _ _ Hv Hi Hr)].
  - unfold eval_BUILD_LIST in Hr.
    destruct (negb (truthy (arg instr))); [lined_leaf Hr|].
    destruct (build_tuple instr builtin_tuple s) as [r|] eqn:Hbt;
      cbn [bind] in Hr; [|discriminate].
    destruct (lined_build_tuple _ _ _ _ Hv Hi Hbt) as [Hf Hsame].
    destruct (snd r); cbn [negb] in Hr.
    + injection Hr as <-. exact Hf.
    + rewrite (Hsame eq_refl) in Hr.
      exact (lined_unpack_seq _ _ _ Hv Hi Hr).
  - unfold eval_BUILD_SET in Hr.
    destruct (negb (truthy (arg instr))); [lined_leaf Hr|].
    destruct (build_tuple instr builtin_frozenset s) as [r|] eqn:Hbt;
      cbn [bind] in Hr; [|discriminate].
    destruct (lined_build_tuple _ _ _ _ Hv Hi Hbt) as [Hf _].
    injection Hr as <-. exact Hf.
  - unfold eval_COMPARE_OP in Hr. handler_cases Hr; lined_leaf Hr.
Qed.

Lemma lined_visit instr s s' :
  lined lines s -> on_line lines instr ->
  visit instr s = Return s' -> lined lines s'.
Proof.
  unfold visit. cbn zeta. intros Hv Hi Hr.
  set (e := set_in_consts _ false) in Hr.
  assert (He : lined lines e) by (subst e; destruct (negb _); exact Hv).
  destruct (getattr_eval (name instr)) as [meth|] eqn:Hm.
  - eapply lined_handler;
      [eapply getattr_eval_In, Hm|exact He|exact Hi|exact Hr].
  - destruct (is_jump instr).
    + eapply lined_jump; [exact He|exact Hi|exact Hr].
    + injection Hr as <-. exact He.
Qed.

Lemma lined_step s s' : lined lines s -> step s = Return s' -> lined lines s'.
Proof.
  unfold step. intros Hv Hr.
  destruct (getitem (self_block s) (index s)) as [instr|] eqn:Hget;
    cbn [bind] in Hr; [|discriminate].
  eapply lined_visit; [|eapply lined_read; eassumption|exact Hr]. exact Hv.
Qed.

Lemma lined_loop fuel s s' :
  lined lines s -> disassemble_loop fuel s = Some (Return s') -> lined lines s'.
Proof.
  revert s. induction fuel as [|fuel IH]; intros s Hv Hr; [discriminate|].
  cbn [disassemble_loop] in Hr.
  destruct (index s <? len (self_block s)).
  - destruct (step s) as [t|] eqn:Ht; [|discriminate].
    eapply IH; [eapply lined_step; eassumption|exact Hr].
  - injection Hr as <-. exact Hv.
Qed.

Lemma lined_blocks_loop n fuel s s' :
  lined lines s -> blocks_loop n fuel s = Some (Return s') -> lined lines s'.
Proof.
  revert s. induction n as [|n IH]; intros s Hv Hr; cbn [blocks_loop] in Hr;
    destruct (block_index s <? len (blocks (code s)));
    try discriminate; try (injection Hr as <-; exact Hv).
  destruct (next_block fuel s) as [[t|]|] eqn:Ht; try discriminate.
  eapply IH; [|exact Hr].
  unfold next_block, optimize_block in Ht.
  eapply lined_loop; [|exact Ht]. exact Hv.
Qed.

End Lines.

Section LinesOfPass.
Context {H : Host}.

Lemma lines_within_lines_of (c : Code) : lines_within (lines_of c) c.
Proof.
  unfold lines_within, lines_of, on_line. apply Forall_forall. intros b Hb.
  apply Forall_forall. intros i Hi. apply in_map, in_concat.
  exists b. split; assumption.
Qed.

(** X22: the pass invents no source line: every instruction of the
    program [_optimize] returns with, those the rewrites made included,
    is on a line that an instruction of the program it was given is
    on. *)
Theorem pass_invents_no_source_line
    (fuel : nat) (c : Code) (self : Optimizer) (b : Block) (i : Instr) :
  _optimize fuel c = Some (Return self) ->
  In b (blocks (code self)) ->
  In i b ->
  In (lineno i) (lines_of c).
Proof.
  intros Hr Hb Hi. unfold _optimize in Hr.
  pose proof (lined_blocks_loop (lines_of c) _ _ (init c) self
                (lines_within_lines_of c) Hr) as Hall.
  unfold lined, lines_within in Hall. rewrite Forall_forall in Hall.
  specialize (Hall b Hb). rewrite Forall_forall in Hall. exact (Hall i Hi).
Qed.

End LinesOfPass.

(** ** A list that is built to be unpacked *)

Section ListUnpack.
Context {H : Host}.

Lemma build_tuple_declines_before_unpack
    (self : Optimizer) (instr nxt : Instr) (pre post : Block) (n : Z)
    (container : list value -> result value) :
  arg instr = ArgInt n ->
  name nxt = "UNPACK_SEQUENCE" ->
  self_block self = pre ++ [instr; nxt] ++ post ->
  index self = len pre + 1 ->
  build_tuple instr container self = Return (self, false).
Proof.
  intros Harg Hnxt Hblk Hidx. unfold build_tuple.
  rewrite Harg. cbn [as_int bind].
  destruct (n >? len (const_stack self)); [reflexivity|].
  rewrite Hblk, Hidx. cbn [app]. rewrite getitem_second. cbn [bind].
  rewrite Hnxt. reflexivity.
Qed.

(** X24: [BUILD_LIST n] with 1 <= n <= 3, immediately followed in its
    block by [UNPACK_SEQUENCE n], is rewritten whatever the constant
    stack holds, tracked constants included: for n = 1 both instructions
    are deleted, the cursor and the constant stack staying as they were;
    for n = 2 they are replaced by [ROT_TWO], for n = 3 by [ROT_THREE]
    then [ROT_TWO], the cursor being moved back onto the new instruction
    and the constant stack emptied.  The constants table is untouched. *)
Theorem list_unpack_rewrite
    (self : Optimizer) (instr nxt : Instr) (pre post : Block) (n : Z) :
  name instr = "BUILD_LIST" ->
  arg instr = ArgInt n ->
  1 <= n <= 3 ->
  name nxt = "UNPACK_SEQUENCE" ->
  arg nxt = ArgInt n ->
  block_bound self ->
  self_block self = pre ++ [instr; nxt] ++ post ->
  index self = len pre + 1 ->
  exists (meth : handler) (self' : Optimizer),
    getattr_eval (name instr) = Some meth
    /\ meth instr self = Return self'
    /\ consts (code self') = consts (code self)
    /\ (n = 1 ->
        self_block self' = pre ++ post
        /\ index self' = len pre + 1
        /\ const_stack self' = const_stack self)
    /\ (n = 2 ->
        self_block self' = pre ++ [mkInstr (lineno instr) "ROT_TWO"] ++ post
        /\ index self' = len pre
        /\ const_stack self' = [])
    /\ (n = 3 ->
        self_block self'
        = pre ++ [mkInstr (lineno instr) "ROT_THREE";
                  mkInstr (lineno instr) "ROT_TWO"] ++ post
        /\ index self' = len pre
        /\ const_stack self' = []).
Proof.
  intros Hnm Harg Hn Hnxt Hnarg Hb Hblk Hidx.
  exists eval_BUILD_LIST.
  assert (Hmeth : getattr_eval (name instr) = Some eval_BUILD_LIST)
    by (rewrite Hnm; reflexivity).
  unfold eval_BUILD_LIST.
  rewrite (build_tuple_declines_before_unpack self instr nxt pre post n
             builtin_tuple Harg Hnxt Hblk Hidx).
  rewrite Harg. cbn [truthy bind fst snd].
  destruct (Z.eqb_spec n 0) as [?|_]; [lia|]. cbn [negb].
  unfold build_tuple_unpack_seq. rewrite Harg. cbn [as_int bind].
  rewrite Hblk, Hidx. cbn [app]. rewrite getitem_second. cbn [bind].
  rewrite Hnxt, Hnarg. cbn [String.eqb Ascii.eqb Bool.eqb argument_eqb].
  rewrite Z.eqb_refl. cbn [andb negb].
  replace (len pre + 1 - 1) with (len pre) by lia.
  replace (len pre + 1 + 1) with (len pre + 2) by lia.
  unfold delslice. rewrite !setslice_pair.
  assert (Hcases : n = 1 \/ n = 2 \/ n = 3) by lia.
  destruct Hcases as [->|[->| ->]]; cbn [Z.leb Z.eqb Z.compare Pos.compare
    Pos.compare_cont Pos.eqb andb negb];
    eexists; (split; [exact Hmeth|]); (split; [reflexivity|]);
    (split; [reflexivity|]);
    repeat match goal with
           | |- _ /\ _ => split
           | |- _ = _ -> _ =>
               let Hx := fresh "Hx" in intro Hx; try (exfalso; lia)
           end;
    try reflexivity; try (cbn; lia);
    rewrite ?self_block_set_const_stack, ?self_block_set_index;
    apply self_block_set_self_block; assumption.
Qed.

End ListUnpack.

(** ** The properties above at work *)

Lemma flag_set_means_pushes_before_cursor_witness :
  0 <= index add_reached
  /\ (in_consts add_reached = true ->
      exists pre pushes post : Block,
        self_block add_reached = pre ++ pushes ++ post
        /\ index add_reached = len pre + len pushes
        /\ len pushes = len (const_stack add_reached)
        /\ Forall is_push pushes
        /\ Forall2 (loads (consts (code add_reached))) pushes
             (const_stack add_reached)).
Proof.
  apply (flag_set_means_pushes_before_cursor
           (set_index (set_block_index (init prog_add) 1) 0) add_reached);
    try reflexivity.
  - split; [unfold block_bound; simpl; lia|].
    repeat constructor; unfold wf_instr; simpl; lia.
  - eapply reaches_step;
      [eapply reaches_step; [apply reaches_start|reflexivity|reflexivity]
      |reflexivity|reflexivity].
Defined.

Lemma optimize_block_never_grows_witness :
  len (nth 0 (blocks (code prog_add_done)) [])
  <= len (nth 0 (blocks (code (set_block_index (init prog_add) 1))) []).
Proof.
  apply (optimize_block_never_grows 10 0
           (set_block_index (init prog_add) 1) prog_add_done);
    try reflexivity.
  - simpl. lia.
  - repeat constructor; unfold wf_instr; simpl; lia.
Defined.

Lemma optimize_block_rewrites_only_its_block_witness :
  List.length (blocks (code jump_return_first_done))
  = List.length (blocks (code (set_block_index (init prog_jump_return) 1)))
  /\ (forall b' : nat,
       b' <> 0%nat ->
       nth_error (blocks (code jump_return_first_done)) b'
       = nth_error
           (blocks (code (set_block_index (init prog_jump_return) 1))) b')
  /\ plain_code (code jump_return_first_done).
Proof.
  apply (optimize_block_rewrites_only_its_block 10 0
           (set_block_index (init prog_jump_return) 1)
           jump_return_first_done).
  - repeat first [apply Forall_cons|apply Forall_nil]; reflexivity.
  - reflexivity.
Defined.

Lemma pass_keeps_blocks_and_appends_consts_witness :
  List.length (blocks (code prog_not_const_done))
  = List.length (blocks prog_not_const)
  /\ (exists ext : list pyval,
        consts (code prog_not_const_done) = consts prog_not_const ++ ext)
  /\ block_index prog_not_const_done = len (blocks prog_not_const)
  /\ plain_code (code prog_not_const_done).
Proof.
  apply (pass_keeps_blocks_and_appends_consts 20 prog_not_const
           prog_not_const_done).
  - repeat first [apply Forall_cons|apply Forall_nil]; reflexivity.
  - reflexivity.
Defined.

Lemma pass_keeps_pushes_in_range_witness : code_valid (code prog_add_done).
Proof.
  apply (pass_keeps_pushes_in_range 10 prog_add prog_add_done);
    [|reflexivity].
  repeat first [apply Forall_cons|apply Forall_nil]; intro Hn;
    try discriminate Hn; eexists;
    (split; [reflexivity|unfold len; simpl; lia]).
Defined.

Lemma inert_program_is_returned_unchanged_witness :
  exists self : Optimizer,
    _optimize 5 prog_inert = Some (Return self) /\ code self = prog_inert.
Proof.
  apply (inert_program_is_returned_unchanged 5 prog_inert).
  - repeat constructor.
  - repeat constructor; simpl; lia.
Defined.

Lemma unary_fold_replaces_push_witness :
  exists (pre post : Block) (push : Instr) (self' : Optimizer),
    self_block neg_reached
    = pre ++ [push; ins "UNARY_NEGATIVE" UNSET] ++ post
    /\ index neg_reached = len pre + 1
    /\ name push = "LOAD_CONST"
    /\ step neg_reached = Return self'
    /\ self_block self'
       = pre ++ [replace (ins "UNARY_NEGATIVE" UNSET) "LOAD_CONST"
                   (ArgInt (len (consts (code neg_reached))))] ++ post
    /\ consts (code self') = consts (code neg_reached) ++ [PyInt (-2)]
    /\ const_stack self' = [] ++ [PyInt (-2)]
    /\ index self' = len pre + 1
    /\ in_consts self' = true.
Proof.
  apply (unary_fold_replaces_push
           (set_index (set_block_index (init prog_neg) 1) 0) neg_reached
           (ins "UNARY_NEGATIVE" UNSET) operator_neg [] (PyInt 2)
           (PyInt (-2))); try reflexivity.
  - split; [unfold block_bound; simpl; lia|].
    repeat constructor; unfold wf_instr; simpl; lia.
  - eapply reaches_step; [apply reaches_start|reflexivity|reflexivity].
  - right. left. reflexivity.
Defined.

Lemma build_tuple_folds_tracked_constants_witness :
  exists (pre pushes post : Block) (self' : Optimizer),
    self_block pair_reached
    = pre ++ pushes ++ ins "BUILD_TUPLE" (ArgInt 2) :: post
    /\ index pair_reached = len pre + len [PyInt 1; PyInt 2]
    /\ len pushes = len [PyInt 1; PyInt 2]
    /\ Forall is_push pushes
    /\ step pair_reached = Return self'
    /\ self_block self'
       = pre ++ [replace (ins "BUILD_TUPLE" (ArgInt 2)) "LOAD_CONST"
                   (ArgInt (len (consts (code pair_reached))))] ++ post
    /\ consts (code self')
       = consts (code pair_reached) ++ [PyTuple [PyInt 1; PyInt 2]]
    /\ const_stack self' = [] ++ [PyTuple [PyInt 1; PyInt 2]]
    /\ index self' = len pre + 1
    /\ in_consts self' = true.
Proof.
  apply (build_tuple_folds_tracked_constants
           (set_index (set_block_index (init prog_pair) 1) 0) pair_reached
           (ins "BUILD_TUPLE" (ArgInt 2)) [] [PyInt 1; PyInt 2]
           (PyTuple [PyInt 1; PyInt 2])); try reflexivity.
  - split; [unfold block_bound; simpl; lia|].
    repeat constructor; unfold wf_instr; simpl; lia.
  - eapply reaches_step;
      [eapply reaches_step; [apply reaches_start|reflexivity|reflexivity]
      |reflexivity|reflexivity].
Defined.

Lemma membership_container_folds_witness :
  exists (pre pushes post : Block) (self' : Optimizer),
    self_block in_list_reached
    = pre ++ pushes ++ ins "BUILD_LIST" (ArgInt 2)
          :: ins "COMPARE_OP" (ArgInt PyCmp_IN) :: post
    /\ index in_list_reached = len pre + len [PyInt 1; PyInt 2]
    /\ len pushes = len [PyInt 1; PyInt 2]
    /\ Forall is_push pushes
    /\ step in_list_reached = Return self'
    /\ self_block self'
       = pre ++ [replace (ins "BUILD_LIST" (ArgInt 2)) "LOAD_CONST"
                   (ArgInt (len (consts (code in_list_reached))))]
             ++ ins "COMPARE_OP" (ArgInt PyCmp_IN) :: post
    /\ consts (code self')
       = consts (code in_list_reached) ++ [PyTuple [PyInt 1; PyInt 2]]
    /\ const_stack self' = [] ++ [PyTuple [PyInt 1; PyInt 2]]
    /\ index self' = len pre + 1
    /\ in_consts self' = true.
Proof.
  apply (membership_container_folds
           (set_index (set_block_index (init prog_in_list) 1) 0)
           in_list_reached
           (ins "BUILD_LIST" (ArgInt 2)) (ins "COMPARE_OP" (ArgInt PyCmp_IN))
           builtin_tuple [] [PyInt 1; PyInt 2]
           (PyTuple [PyInt 1; PyInt 2])); try reflexivity.
  - split; [unfold block_bound; simpl; lia|].
    repeat first [apply Forall_cons|apply Forall_nil];
      unfold wf_instr, PyCmp_IN; simpl; lia.
  - eapply reaches_step;
      [eapply reaches_step;
         [eapply reaches_step; [apply reaches_start|reflexivity|reflexivity]
         |reflexivity|reflexivity]
      |reflexivity|reflexivity].
  - left. reflexivity.
  - left. reflexivity.
Defined.

Lemma compare_not_fusion_witness :
  exists (meth : handler) (self' : Optimizer),
    getattr_eval "COMPARE_OP" = Some meth
    /\ meth (ins "COMPARE_OP" (ArgInt PyCmp_IS))
         (entered prog_not_is 0 3 []) = Return self'
    /\ self_block self'
       = [ins "LOAD_FAST" (ArgInt 0); ins "LOAD_FAST" (ArgInt 1)]
           ++ [ins "COMPARE_OP" (ArgInt PyCmp_IS_NOT)]
           ++ [ins "RETURN_VALUE" UNSET]
    /\ index self' = len [ins "LOAD_FAST" (ArgInt 0);
                          ins "LOAD_FAST" (ArgInt 1)] + 1
    /\ const_stack self' = []
    /\ consts (code self') = [].
Proof.
  apply (compare_not_fusion (entered prog_not_is 0 3 [])
           (ins "COMPARE_OP" (ArgInt PyCmp_IS)) (ins "UNARY_NOT" UNSET)
           [ins "LOAD_FAST" (ArgInt 0); ins "LOAD_FAST" (ArgInt 1)]
           [ins "RETURN_VALUE" UNSET] PyCmp_IS_NOT); try reflexivity.
  unfold block_bound. simpl. lia.
Defined.

Lemma NOT_PyCmp_involutive_witness :
  NOT_PyCmp (ArgInt PyCmp_NOT_IN) = Some PyCmp_IN
  /\ PyCmp_NOT_IN <> PyCmp_IN.
Proof.
  apply (NOT_PyCmp_involutive PyCmp_IN PyCmp_NOT_IN). reflexivity.
Defined.

Lemma unchecked_lookahead_raises_at_block_end_witness :
  eval_UNARY_NOT (ins "UNARY_NOT" UNSET)
    (entered prog_and_not 1 2 [PyInt 0]) = Raise IndexError
  /\ eval_BUILD_TUPLE (ins "BUILD_TUPLE" (ArgInt 2))
       (entered prog_and_not 1 2 [PyInt 0]) = Raise IndexError
  /\ eval_BUILD_LIST (ins "BUILD_LIST" (ArgInt 1))
       (entered prog_and_not 1 2 [PyInt 0]) = Raise IndexError
  /\ eval_BUILD_SET (ins "BUILD_SET" (ArgInt 1))
       (entered prog_and_not 1 2 [PyInt 0]) = Raise IndexError.
Proof.
  destruct (unchecked_lookahead_raises_at_block_end
              (entered prog_and_not 1 2 [PyInt 0]))
    as (Hnot & Htuple & Hlist & Hset); [vm_compute; discriminate|].
  split; [apply Hnot|].
  split; [apply (Htuple _ 2); [reflexivity|lia|unfold len; simpl; lia]|].
  split; [apply (Hlist _ 1); [reflexivity|lia|right; lia]|].
  apply (Hset _ 1); [reflexivity|lia|unfold len; simpl; lia].
Defined.

Lemma cond_jump_to_cond_jump_witness :
  exists (new : Instr) (self' : Optimizer),
    jump_if_or_pop (ins "JUMP_IF_FALSE_OR_POP" (block_label 2))
      (entered prog_and_chain 0 2 []) = Return self'
    /\ self_block self' = [ins "LOAD_FAST" (ArgInt 0)] ++ new :: []
    /\ index self' = len [ins "LOAD_FAST" (ArgInt 0)]
    /\ const_stack self' = []
    /\ lineno new = 1
    /\ name new = "JUMP_IF_FALSE_OR_POP"
    /\ arg new = block_label 4
    /\ is_cond_jump new = true
    /\ name_in (name new) JUMPS_ON_TRUE = false.
Proof.
  apply (cond_jump_to_cond_jump (entered prog_and_chain 0 2 [])
           (ins "JUMP_IF_FALSE_OR_POP" (block_label 2))
           (ins "JUMP_IF_FALSE_OR_POP" (block_label 4))
           [ins "LOAD_FAST" (ArgInt 0)] [] []); try reflexivity.
  unfold block_bound. simpl. lia.
Defined.

Lemma jump_to_return_or_jump_witness :
  exists (new : Instr) (self' : Optimizer),
    optimize_jump_to_cond_jump (at_line 1 "JUMP_FORWARD" (block_label 1))
      (entered prog_jump_return 0 2 []) = Return self'
    /\ self_block self' = [at_line 1 "LOAD_FAST" (ArgInt 0)] ++ new :: []
    /\ index self' = 2
    /\ const_stack self' = []
    /\ consts (code self') = []
    /\ new = at_line 2 "RETURN_VALUE" UNSET.
Proof.
  apply (jump_to_return_or_jump (entered prog_jump_return 0 2 [])
           (at_line 1 "JUMP_FORWARD" (block_label 1))
           (at_line 2 "RETURN_VALUE" UNSET)
           [at_line 1 "LOAD_FAST" (ArgInt 0)] [] []); try reflexivity.
  unfold block_bound. simpl. lia.
Defined.

Lemma optimize_block_terminates_witness :
  exists r : result Optimizer,
    optimize_block 10 0 (set_block_index (init prog_add) 1) = Some r.
Proof.
  apply (optimize_block_terminates 10 0 (set_block_index (init prog_add) 1));
    try reflexivity.
  - simpl. lia.
  - repeat constructor; unfold wf_instr; simpl; lia.
  - repeat constructor.
  - simpl. lia.
Defined.

Lemma return_value_never_raises_witness :
  exists self' : Optimizer,
    eval_RETURN_VALUE (ins "RETURN_VALUE" UNSET)
      (entered prog_dead_return 0 2 []) = Return self'
    /\ index self' = index (entered prog_dead_return 0 2 [])
    /\ const_stack self' = const_stack (entered prog_dead_return 0 2 [])
    /\ consts (code self') = consts (code (entered prog_dead_return 0 2 []))
    /\ in_consts self' = in_consts (entered prog_dead_return 0 2 [])
    /\ len (self_block self')
       <= len (self_block (entered prog_dead_return 0 2 [])).
Proof.
  apply (return_value_never_raises (ins "RETURN_VALUE" UNSET)
           (entered prog_dead_return 0 2 [])).
  simpl. lia.
Defined.

Lemma pass_invents_no_source_line_witness :
  In (lineno (at_line 2 "LOAD_CONST" (ArgInt 2))) (lines_of prog_gap).
Proof.
  apply (pass_invents_no_source_line 10 prog_gap prog_gap_done
           [at_line 2 "LOAD_CONST" (ArgInt 2);
            at_line 2 "STORE_FAST" (ArgInt 0);
            at_line 303 "LOAD_FAST" (ArgInt 0);
            at_line 303 "RETURN_VALUE" UNSET]
           (at_line 2 "LOAD_CONST" (ArgInt 2))).
  - reflexivity.
  - left. reflexivity.
  - left. reflexivity.
Defined.

Lemma push_step_tracks_constant_witness :
  exists (n : Z) (v : pyval) (self' : Optimizer),
    arg (ins "LOAD_CONST" (ArgInt 1)) = ArgInt n
    /\ getitem (consts (code (entered prog_add 0 1 [PyInt 2]))) n = Return v
    /\ step (entered prog_add 0 1 [PyInt 2]) = Return self'
    /\ const_stack self'
       = (if in_consts (entered prog_add 0 1 [PyInt 2])
          then const_stack (entered prog_add 0 1 [PyInt 2]) else []) ++ [v]
    /\ in_consts self' = true
    /\ index self' = index (entered prog_add 0 1 [PyInt 2]) + 1
    /\ code self' = code (entered prog_add 0 1 [PyInt 2]).
Proof.
  apply (push_step_tracks_constant (entered prog_add 0 1 [PyInt 2])
           (ins "LOAD_CONST" (ArgInt 1))); [|reflexivity|reflexivity].
  repeat first [apply Forall_cons|apply Forall_nil]; intro Hn;
    try discriminate Hn; eexists;
    (split; [reflexivity|unfold len; simpl; lia]).
Defined.

Lemma list_unpack_rewrite_witness :
  exists (meth : handler) (self' : Optimizer),
    getattr_eval "BUILD_LIST" = Some meth
    /\ meth (ins "BUILD_LIST" (ArgInt 2))
         (entered prog_list_pair 0 3 [PyInt 1; PyInt 2]) = Return self'
    /\ consts (code self') = [PyInt 1; PyInt 2]
    /\ self_block self'
       = [ins "LOAD_CONST" (ArgInt 0); ins "LOAD_CONST" (ArgInt 1);
          ins "ROT_TWO" UNSET;
          ins "STORE_FAST" (ArgInt 0); ins "STORE_FAST" (ArgInt 1);
          ins "LOAD_FAST" (ArgInt 0); ins "RETURN_VALUE" UNSET]
    /\ index self' = 2
    /\ const_stack self' = [].
Proof.
  destruct (list_unpack_rewrite
              (entered prog_list_pair 0 3 [PyInt 1; PyInt 2])
              (ins "BUILD_LIST" (ArgInt 2))
              (ins "UNPACK_SEQUENCE" (ArgInt 2))
              [ins "LOAD_CONST" (ArgInt 0); ins "LOAD_CONST" (ArgInt 1)]
              [ins "STORE_FAST" (ArgInt 0); ins "STORE_FAST" (ArgInt 1);
               ins "LOAD_FAST" (ArgInt 0); ins "RETURN_VALUE" UNSET] 2)
    as (meth & self' & Hmeth & Hcall & Hconsts & _ & Hrot & _);
    try reflexivity.
  - lia.
  - unfold block_bound. simpl. lia.
  - exists meth, self'. split; [exact Hmeth|]. split; [exact Hcall|].
    split; [exact Hconsts|]. apply Hrot. reflexivity.
Defined.

Lemma pass_has_not_returned_within_witness :
  _optimize 10 prog_or_int = None
  /\ loop_reaches (back_at_start 0) (back_at_start 5)
  /\ len (self_block (back_at_start 5)) = 8
  /\ Forall (fun i : Instr => forall n, arg i = ArgInt n -> 0 <= n <= 6)
       (self_block (back_at_start 5)).
Proof.
  destruct (pass_has_not_returned_within 10) as [Hnone Hk]; [lia|].
  split; [exact Hnone|]. apply (Hk 5%nat). lia.
Defined.
